(** * Verification of the tariff synchronisation and aggregation engine

  A shallow embedding of the synchronisation core of the express backend
  (rate limiter, aggregator, sync runners, notification trigger, source
  clients) together with the properties its specification states.

  Conventions of the embedding:
  - a JavaScript [number] is an IEEE 754 double: a finite value is held as
    the rational it denotes, and every operation that can round rounds to
    the nearest double, ties to even;
  - a thrown value is an [Error] instance or the plain error object of the
    persistence client;
  - a loosely typed payload ([any]) is a [JsValue] tree;
  - an awaited call that may throw returns a [Result];
  - the persistence client is an in-memory relational store: every table
    is a list of rows, threaded explicitly through the operations;
  - [Date.now()] and [new Date()] read an explicit clock argument. *)

From stdpp Require Import base numbers strings list gmap.
From Stdlib Require Import QArith Qcanon ZArith Lia.
From Stdlib Require Import String Ascii List Sorted.
From Stdlib Require Import PrimFloat FloatOps SpecFloat.
Import ListNotations.

Set Warnings "-register-all".

Local Open Scope Z_scope.
Local Open Scope string_scope.
Local Open Scope list_scope.

(** ** Results of fallible calls *)

(** What a [throw] carries: an [Error] instance, or the plain error object
    the persistence client answers with ([{ message, code, ... }], which is
    not an instance of [Error]); either way with its [message]. *)
Inductive Thrown : Type :=
| ErrorInstance (message : string)
| StoreError (message : string).

(** A text standing where a thrown value is expected is an [Error] with
    that message ([throw new Error(text)]). *)
Coercion ErrorInstance : string >-> Thrown.

(** [error.message] *)
Definition message_of (e : Thrown) : string :=
  match e with ErrorInstance m | StoreError m => m end.

Inductive Result (A : Type) : Type :=
| Ok (value : A)
| Err (error : Thrown).
Arguments Ok {A} value.
Arguments Err {A} error.

Definition is_ok {A} (r : Result A) : bool :=
match r with Ok _ => true | Err _ => false end.

(** ** JavaScript values *)

Module Js.

(** [number]: a double. A finite value is held as the rational it
    denotes; the sign of zero is not kept (the program never divides by a
    zero nor prints its sign). *)
Inductive number : Type :=
| Fin (q : Qc)
| NaN
| PInf
| NInf.

Definition zero : number := Fin 0%Qc.
Definition one : number := Fin 1%Qc.

(** unary minus *)
Definition neg (a : number) : number :=
  match a with
  | Fin x => Fin (- x)%Qc
  | NaN => NaN
  | PInf => NInf
  | NInf => PInf
  end.

(** *** Rounding to the nearest double *)

(** The position of the leading bit of [n / d], both positive: the [e]
    with [2 ^ e <= n / d < 2 ^ (e + 1)]. *)
Definition leading_bit (n d : Z) : Z :=
  let guess := (Z.log2 n - Z.log2 d)%Z in
  if (if (0 <=? guess)%Z then (d * 2 ^ guess <=? n)%Z
      else (d <=? n * 2 ^ (- guess))%Z)
  then guess else (guess - 1)%Z.

(** [n / d], both positive, rounded to the nearest integer, a tie to the
    even one. *)
Definition nearest_even (n d : Z) : Z :=
  let m := (n / d)%Z in
  let twice := (2 * (n mod d))%Z in
  if (twice <? d)%Z then m
  else if (d <? twice)%Z then (m + 1)%Z
  else if Z.even m then m else (m + 1)%Z.

(** The double nearest to [n / d], both positive: a significand [m] of at
    most 53 bits times [2 ^ u], the exponent [u] of the last place no
    lower than -1074 (below the normal range the doubles are evenly
    spaced); a magnitude that rounds to [2 ^ 1024] or beyond is
    infinite. *)
Definition round_positive (n d : Z) : number :=
  let u := Z.max (leading_bit n d - 52) (-1074) in
  if (0 <=? u)%Z then
    let m := nearest_even n (d * 2 ^ u) in
    if (2 ^ 1024 <=? m * 2 ^ u)%Z then PInf
    else Fin (Q2Qc (inject_Z (m * 2 ^ u)))
  else
    let m := nearest_even (n * 2 ^ (- u)) d in
    Fin (Q2Qc (Qmake m (Z.to_pos (2 ^ (- u))))).

(** The double nearest to a rational. *)
Definition to_double (q : Qc) : number :=
  match Qnum q with
  | Z0 => zero
  | Zpos n => round_positive (Zpos n) (Zpos (Qden q))
  | Zneg n => neg (round_positive (Zpos n) (Zpos (Qden q)))
  end.

(** The rationals that are doubles. *)
Definition representable (q : Qc) : Prop := to_double q = Fin q.

(** [a + b]: the exact sum rounded to the nearest double. Adding zero
    leaves the other operand as it is, which is what the rounding gives
    for a double. *)
Definition add (a b : number) : number :=
  match a, b with
  | NaN, _ | _, NaN => NaN
  | PInf, NInf | NInf, PInf => NaN
  | PInf, _ | _, PInf => PInf
  | NInf, _ | _, NInf => NInf
  | Fin x, Fin y =>
      if Qc_eq_dec y 0 then a
      else if Qc_eq_dec x 0 then b
      else to_double (x + y)%Qc
  end.

(** [a - b] *)
Definition sub (a b : number) : number := add a (neg b).

(** The value of a binary64 float of the proof assistant's kernel, to
    compare the rounding above with the machine's. *)
Definition of_float (x : float) : number :=
  match Prim2SF x with
  | S754_zero _ => zero
  | S754_infinity negative => if negative then NInf else PInf
  | S754_nan => NaN
  | S754_finite negative m e =>
      let magnitude :=
        if (0 <=? e)%Z then inject_Z (Zpos m * 2 ^ e)
        else Qmake (Zpos m) (Z.to_pos (2 ^ (- e))) in
      Fin (Q2Qc (if negative then Qopp magnitude else magnitude))
  end.

(** [Math.abs(a)] *)
Definition abs (a : number) : number :=
  match a with
  | Fin x => if Qclt_le_dec x 0 then Fin (- x)%Qc else Fin x
  | NaN => NaN
  | PInf | NInf => PInf
  end.

(** [a >= b]; every comparison with [NaN] is false. *)
Definition ge (a b : number) : bool :=
  match a, b with
  | NaN, _ | _, NaN => false
  | PInf, _ => true
  | _, NInf => true
  | NInf, _ => false
  | _, PInf => false
  | Fin x, Fin y => if Qclt_le_dec x y then false else true
  end.

(** [a === b] on numbers: [NaN] differs from itself. *)
Definition number_strict_eq (a b : number) : bool :=
  match a, b with
  | Fin x, Fin y => if Qc_eq_dec x y then true else false
  | PInf, PInf | NInf, NInf => true
  | _, _ => false
  end.

(** Truthiness of a number: [0] and [NaN] are falsy. *)
Definition number_truthy (a : number) : bool :=
  match a with
  | Fin x => if Qc_eq_dec x 0 then false else true
  | NaN => false
  | PInf | NInf => true
  end.

(** [a || 0] on numbers. *)
Definition or_zero (a : number) : number :=
  if number_truthy a then a else zero.

(** A loosely typed value. Objects keep their fields in insertion order. *)
Inductive JsValue : Type :=
| JUndefined
| JNull
| JBool (b : bool)
| JNum (n : number)
| JStr (s : string)
| JArr (items : list JsValue)
| JObj (fields : list (string * JsValue)).

Definition JsObject : Type := list (string * JsValue).

(** Truthiness of a value. *)
Definition truthy (v : JsValue) : bool :=
  match v with
  | JUndefined | JNull => false
  | JBool b => b
  | JNum n => number_truthy n
  | JStr s => if String.eqb s "" then false else true
  | JArr _ | JObj _ => true
  end.

(** [Array.isArray(v)] *)
Definition isArray (v : JsValue) : bool :=
  match v with JArr _ => true | _ => false end.

(** [typeof v === 'object'] ([null] and arrays included). *)
Definition typeof_object (v : JsValue) : bool :=
  match v with JNull | JArr _ | JObj _ => true | _ => false end.

(** [o.k] on an object: the field's value, [undefined] when absent. *)
Fixpoint field (o : JsObject) (k : string) : JsValue :=
  match o with
  | [] => JUndefined
  | (k', v) :: rest => if String.eqb k' k then v else field rest k
  end.

(** [{ ...o, k: v }]: an existing field keeps its position. *)
Fixpoint set_field (o : JsObject) (k : string) (v : JsValue) : JsObject :=
  match o with
  | [] => [(k, v)]
  | (k', v') :: rest =>
      if String.eqb k' k then (k', v) :: rest
      else (k', v') :: set_field rest k v
  end.

(** [v.k] for the property names this program reads (none of them is a
    built-in property of an array or of a primitive): a [TypeError] on
    [null] and [undefined], [undefined] on arrays and primitives. *)
Definition prop (v : JsValue) (k : string) : Result JsValue :=
  match v with
  | JUndefined | JNull => Err "TypeError: cannot read properties"
  | JObj o => Ok (field o k)
  | _ => Ok JUndefined
  end.

(** [a || b] on values. *)
Definition or_else (a b : JsValue) : JsValue :=
  if truthy a then a else b.

(** *** [parseFloat] *)

Definition is_digit (c : ascii) : bool :=
  let n := nat_of_ascii c in (48 <=? n)%nat && (n <=? 57)%nat.

Definition digit_value (c : ascii) : Z := Z.of_nat (nat_of_ascii c) - 48.

(** The white space [parseFloat] trims (the 8-bit part of it). *)
Definition is_space (c : ascii) : bool :=
  let n := nat_of_ascii c in
  ((9 <=? n)%nat && (n <=? 13)%nat) || (n =? 32)%nat || (n =? 160)%nat.

Fixpoint skip_spaces (s : string) : string :=
  match s with
  | String c rest => if is_space c then skip_spaces rest else s
  | EmptyString => s
  end.

(** Longest run of digits: its value, its length, and what follows. *)
Fixpoint take_digits (acc : Z) (count : nat) (s : string) : Z * nat * string :=
  match s with
  | String c rest =>
      if is_digit c then take_digits (10 * acc + digit_value c) (S count) rest
      else (acc, count, s)
  | EmptyString => (acc, count, s)
  end.

(** [10 ^ e] for any integer exponent. *)
Definition pow10 (e : Z) : Qc :=
  if (0 <=? e)%Z then Q2Qc (inject_Z (10 ^ e))
  else Q2Qc (1 # Z.to_pos (10 ^ (- e))).

(** The exponent part [e[+-]ddd], when it is complete. *)
Definition take_exponent (s : string) : Z :=
  match s with
  | String c rest =>
      if (Ascii.eqb c "e" || Ascii.eqb c "E")%bool then
        let '(sign, digits) :=
          match rest with
          | String "+" r => (1%Z, r)
          | String "-" r => ((-1)%Z, r)
          | _ => (1%Z, rest)
          end in
        let '(v, n, _) := take_digits 0 0 digits in
        if (n =? 0)%nat then 0%Z else (sign * v)%Z
      else 0%Z
  | EmptyString => 0%Z
  end.

(** An unsigned decimal literal at the start of [s], read as the double
    nearest to its value, or [NaN]. *)
Definition parse_unsigned (s : string) : number :=
  if String.prefix "Infinity" s then PInf
  else
    let '(int_v, int_n, after_int) := take_digits 0 0 s in
    let '(mant, frac_n, after_frac) :=
      match after_int with
      | String "." r =>
          let '(m, k, r') := take_digits int_v 0 r in (m, k, r')
      | _ => (int_v, 0%nat, after_int)
      end in
    if ((int_n =? 0)%nat && (frac_n =? 0)%nat)%bool then NaN
    else
      let e := (take_exponent after_frac - Z.of_nat frac_n)%Z in
      to_double (Q2Qc (inject_Z mant) * pow10 e)%Qc.

(** [parseFloat(s)]: white space, a sign, the longest decimal literal. *)
Definition parseFloat (s : string) : number :=
  match skip_spaces s with
  | String "-" rest => neg (parse_unsigned rest)
  | String "+" rest => parse_unsigned rest
  | t => parse_unsigned t
  end.

(** [parseFloat(String(v))]. A number prints to the shortest text that
    reads back as itself; [undefined], [null], booleans and plain objects
    print to text without a numeric prefix; an array prints its items
    joined by commas ([null] and [undefined] items as the empty text), so
    only its first item can contribute a numeric prefix. *)
Fixpoint parseFloat_of_String (v : JsValue) : number :=
  match v with
  | JNum n => n
  | JStr s => parseFloat s
  | JArr (x :: _) =>
      match x with
      | JUndefined | JNull => NaN
      | _ => parseFloat_of_String x
      end
  | _ => NaN
  end.

End Js.

Import Js.

(** ** Time *)

(** An ISO-8601 time stamp ([new Date().toISOString()]), held as the
    millisecond instant it denotes: the text form is in bijection with the
    instant and orders the same way. *)
Record IsoDate : Type := Iso { instant : Z }.

Definition IsoDate_eqb (a b : IsoDate) : bool := (instant a =? instant b)%Z.

(** ** The persistent store *)

Module TariffRate.
Record t : Type := mk {
  product_id : string;
  country_id : string;
  base_rate : number;
  additional_rates : list JsObject;
  total_rate : number;
  effective_date : IsoDate;
  updated_at : IsoDate
}.
End TariffRate.

Inductive SyncType : Type := products_sync | tariffs_sync | updates_sync.
Inductive SyncState : Type := running | completed | failed.

Module SyncStatus.
Record t : Type := mk {
  id : Z;
  type : SyncType;
  status : SyncState;
  started_at : IsoDate;
  completed_at : option IsoDate;
  error_message : option string
}.
End SyncStatus.

Inductive Impact : Type := low | medium | high.

Module TradeUpdate.
Record t : Type := mk {
  id : Z;
  title : string;
  (** [None] is [null]: the upstream abstract may be missing *)
  description : option string;
  impact : Impact;
  source_url : string;
  source_reference : string;
  published_date : IsoDate
}.
End TradeUpdate.

Module Watchlist.
Record t : Type := mk {
  user_id : string;
  product_id : string;
  notify_changes : bool
}.
End Watchlist.

Inductive NotificationType : Type := rate_change | new_ruling | exclusion | system.

(** A template literal, kept as its parts. *)
Inductive Part : Type :=
| Lit (text : string)
| Val (v : JsValue).

Module Notification.
Record t : Type := mk {
  user_id : string;
  title : string;
  message : list Part;
  type : NotificationType;
  read : bool;
  created_at : IsoDate
}.
End Notification.

Module Product.
Record t : Type := mk {
  id : string;
  hts_code : string;
  name : string;
  category : string;
  base_rate : number;
  (** [None] when the stored value is not an array *)
  additional_rates : option (list JsObject);
  last_updated : IsoDate
}.
End Product.

Module Country.
Record t : Type := mk {
  id : string;
  code : string;
  name : string
}.
End Country.

(** The argument of [notifyProductWatchers]. *)
Record NotificationData : Type := {
  nd_title : string;
  nd_message : list Part;
  nd_type : NotificationType;
  nd_productId : option string
}.

Record Store : Type := {
  tariff_rates : list TariffRate.t;
  sync_status : list SyncStatus.t;
  trade_updates : list TradeUpdate.t;
  user_watchlists : list Watchlist.t;
  notifications : list Notification.t;
  products : list Product.t;
  countries : list Country.t;
  (** every [NotificationData] handed to [notifyProductWatchers], in call
      order (the call is logged on entry) *)
  emitted : list NotificationData
}.

Definition with_tariff_rates (v : list TariffRate.t) (s : Store) : Store :=
  {| tariff_rates := v; sync_status := sync_status s;
     trade_updates := trade_updates s; user_watchlists := user_watchlists s;
     notifications := notifications s; products := products s;
     countries := countries s; emitted := emitted s |}.

Definition with_sync_status (v : list SyncStatus.t) (s : Store) : Store :=
  {| tariff_rates := tariff_rates s; sync_status := v;
     trade_updates := trade_updates s; user_watchlists := user_watchlists s;
     notifications := notifications s; products := products s;
     countries := countries s; emitted := emitted s |}.

Definition with_trade_updates (v : list TradeUpdate.t) (s : Store) : Store :=
  {| tariff_rates := tariff_rates s; sync_status := sync_status s;
     trade_updates := v; user_watchlists := user_watchlists s;
     notifications := notifications s; products := products s;
     countries := countries s; emitted := emitted s |}.

Definition with_notifications (v : list Notification.t) (s : Store) : Store :=
  {| tariff_rates := tariff_rates s; sync_status := sync_status s;
     trade_updates := trade_updates s; user_watchlists := user_watchlists s;
     notifications := v; products := products s;
     countries := countries s; emitted := emitted s |}.

Definition with_emitted (v : list NotificationData) (s : Store) : Store :=
  {| tariff_rates := tariff_rates s; sync_status := sync_status s;
     trade_updates := trade_updates s; user_watchlists := user_watchlists s;
     notifications := notifications s; products := products s;
     countries := countries s; emitted := v |}.

(** The requests the program sends to the persistence client. *)
Inductive DbOp : Type :=
| InsertSyncStatus
| SelectCountries
| SelectProducts
| UpsertTariffRate
| SelectWatchlist
| InsertNotifications
| SelectTradeUpdates
| InsertTradeUpdate
| SelectTradeUpdate
| SelectProductsByCode
| SelectTariffRate
| UpdateSyncStatus.

(** What one stretch of execution sees of the outside world: the clock,
    the requests the persistence client answers with an error, and the
    host's time zone: [localTZA t isUTC] is the offset of local time from
    UTC, in milliseconds, at the instant [t] (read as UTC when [isUTC], as
    local time otherwise), the [LocalTZA] of the language standard. *)
Record Env : Type := {
  now : Z;
  db_error : DbOp -> option string;
  localTZA : Z -> bool -> Z
}.

(** Every request is answered; the host runs on UTC. *)
Definition healthy (t : Z) : Env :=
  {| now := t; db_error := fun _ => None; localTZA := fun _ _ => 0 |}.

(** [LocalTime(t)] and [UTC(t)] of the language standard. *)
Definition localTime (env : Env) (t : Z) : Z := t + localTZA env t true.
Definition utc (env : Env) (t : Z) : Z := t - localTZA env t false.

Definition msPerDay : Z := 24 * 60 * 60 * 1000.

(** [const d = new Date(); d.setDate(d.getDate() - days)]: the date of the
    local calendar moves back by [days] and the local time of day stays,
    so the local time value drops by [days] whole days; the result is read
    back as UTC with the offset in force there. *)
Definition daysAgo (env : Env) (days : Z) : Z :=
  utc env (localTime env (now env) - days * msPerDay).

(** A computation over the store that may throw. *)
Definition Action (A : Type) : Type := Store -> Result A * Store.

Definition ret {A} (a : A) : Action A := fun s => (Ok a, s).
Definition throw {A} (e : Thrown) : Action A := fun s => (Err e, s).
Definition bind {A B} (m : Action A) (k : A -> Action B) : Action B :=
  fun s => match m s with
           | (Ok a, s') => k a s'
           | (Err e, s') => (Err e, s')
           end.

Notation "'let*' x ':=' m 'in' k" := (bind m (fun x => k))
  (at level 10, x name, m at level 100, k at level 200).
Notation "'exec' m 'in' k" := (bind m (fun _ => k))
  (at level 10, m at level 100, k at level 200).

(** [if (error) throw error] after a request: what is thrown is the
    client's error object. *)
Definition check (env : Env) (op : DbOp) : Action unit :=
  match db_error env op with
  | Some e => throw (StoreError e)
  | None => ret tt
  end.

Definition modify (f : Store -> Store) : Action unit := fun s => (Ok tt, f s).
Definition gets {A} (f : Store -> A) : Action A := fun s => (Ok (f s), s).

(** [for (const x of xs) await body(x)] *)
Fixpoint for_each {A} (xs : list A) (body : A -> Action unit) : Action unit :=
  match xs with
  | [] => ret tt
  | x :: rest => exec body x in for_each rest body
  end.

(** ** Aggregator: [updateTariffRates] *)

Module Aggregator.

(** [parseFloat(String(rate.rate)) || 0] *)
Definition rate_of (rate : JsObject) : number :=
  or_zero (parseFloat_of_String (field rate "rate")).

(** [let totalRate = baseRate; for (const rate of additionalRates)
    totalRate += ...] *)
Definition totalRate (baseRate : number) (additionalRates : list JsObject) : number :=
  fold_left (fun acc rate => add acc (rate_of rate)) additionalRates baseRate.

(** The conflict target [product_id,country_id,effective_date]. *)
Definition same_key (a b : TariffRate.t) : bool :=
  String.eqb (TariffRate.product_id a) (TariffRate.product_id b)
  && String.eqb (TariffRate.country_id a) (TariffRate.country_id b)
  && IsoDate_eqb (TariffRate.effective_date a) (TariffRate.effective_date b).

(** [upsert(row, { onConflict })]: the conflicting row is overwritten,
    otherwise the row is added. *)
Fixpoint upsert (row : TariffRate.t) (table : list TariffRate.t) : list TariffRate.t :=
  match table with
  | [] => [row]
  | r :: rest => if same_key r row then row :: rest else r :: upsert row rest
  end.

Definition updateTariffRates (env : Env) (productId countryId : string)
    (baseRate : number) (additionalRates : list JsObject)
    (effectiveDate : IsoDate) : Action unit :=
  let row :=
    TariffRate.mk productId countryId baseRate additionalRates
      (totalRate baseRate additionalRates) effectiveDate (Iso (now env)) in
  exec check env UpsertTariffRate in
  modify (fun s => with_tariff_rates (upsert row (tariff_rates s)) s).

(** The rows stored under a key. *)
Definition rows_at (productId countryId : string) (effectiveDate : IsoDate)
    (table : list TariffRate.t) : list TariffRate.t :=
  List.filter (fun r =>
                 String.eqb (TariffRate.product_id r) productId
                 && String.eqb (TariffRate.country_id r) countryId
                 && IsoDate_eqb (TariffRate.effective_date r) effectiveDate)
              table.

(** No two rows of the table share a conflict key: the unique constraint
    the upsert relies on. *)
Fixpoint unique_keys (table : list TariffRate.t) : Prop :=
  match table with
  | [] => True
  | r :: rest => (forall r', In r' rest -> same_key r r' = false)
                 /\ unique_keys rest
  end.

End Aggregator.

(** ** Text and ordering helpers *)

(** [hay.includes(needle)] on strings. *)
Fixpoint includes (needle hay : string) : bool :=
  String.prefix needle hay
  || match hay with
     | String _ rest => includes needle rest
     | EmptyString => false
     end.

(** [xs.includes(x)] on an array of strings. *)
Definition includes_string (x : string) (xs : list string) : bool :=
  existsb (String.eqb x) xs.

Definition lower (c : ascii) : ascii :=
  let n := nat_of_ascii c in
  if ((65 <=? n)%nat && (n <=? 90)%nat)%bool then ascii_of_nat (n + 32) else c.

(** [s.toLowerCase()] (on the letters A to Z). *)
Fixpoint toLowerCase (s : string) : string :=
  match s with
  | String c rest => String (lower c) (toLowerCase rest)
  | EmptyString => EmptyString
  end.

(** [n.toString().padStart(2, '0')] for [n] below 100. *)
Definition two_digits (n : nat) : string :=
  String (ascii_of_nat (48 + n / 10)) (String (ascii_of_nat (48 + n mod 10)) "").

(** A stable sort: the order the store returns rows in for [.order(...)]. *)
Fixpoint insert_by {A} (le : A -> A -> bool) (x : A) (xs : list A) : list A :=
  match xs with
  | [] => [x]
  | y :: rest => if le x y then x :: xs else y :: insert_by le x rest
  end.

Definition sort_by {A} (le : A -> A -> bool) (xs : list A) : list A :=
  fold_right (insert_by le) [] xs.

(** [a === b] for two values that are not one and the same array or
    object (a value against a literal, say): primitives compare by value,
    and two arrays or objects held apart are never equal. *)
Definition strict_eq (a b : JsValue) : bool :=
  match a, b with
  | JUndefined, JUndefined => true
  | JNull, JNull => true
  | JBool x, JBool y => Bool.eqb x y
  | JNum x, JNum y => number_strict_eq x y
  | JStr x, JStr y => String.eqb x y
  | _, _ => false
  end.

(** [a === b] in general. A [JsValue] carries no identity, so whether [a]
    and [b] are one and the same reference is given apart; it decides
    between two arrays and between two objects, and nothing else. *)
Definition strict_eq_at (same_reference : bool) (a b : JsValue) : bool :=
  match a, b with
  | JArr _, JArr _ | JObj _, JObj _ => same_reference
  | _, _ => strict_eq a b
  end.

(** ** Notification service *)

Module NotificationService.

Definition watchers (productId : string) (table : list Watchlist.t) : list Watchlist.t :=
  List.filter (fun w => String.eqb (Watchlist.product_id w) productId
                        && Watchlist.notify_changes w) table.

Definition notification_for (env : Env) (data : NotificationData)
    (item : Watchlist.t) : Notification.t :=
  Notification.mk (Watchlist.user_id item) (nd_title data) (nd_message data)
    (nd_type data) false (Iso (now env)).

Definition notifyProductWatchers (env : Env) (data : NotificationData) : Action unit :=
  exec modify (fun s => with_emitted (emitted s ++ [data]) s) in
  match nd_productId data with
  | None => throw "Product ID is required for product notifications"
  | Some productId =>
      if String.eqb productId "" then
        throw "Product ID is required for product notifications"
      else
        exec check env SelectWatchlist in
        let* watchlist := gets (fun s => watchers productId (user_watchlists s)) in
        match watchlist with
        | [] => ret tt
        | _ =>
            let inserted := map (notification_for env data) watchlist in
            exec check env InsertNotifications in
            modify (fun s => with_notifications (notifications s ++ inserted) s)
        end
  end.

(** The rows one call inserts: one per watcher of the product. *)
Definition created_for (env : Env) (productId : string) (data : NotificationData)
    (s : Store) : list Notification.t :=
  map (notification_for env data) (watchers productId (user_watchlists s)).

(** [Array.isArray(v) ? v.length : 0] *)
Definition count_of (v : JsValue) : nat :=
  match v with JArr items => length items | _ => 0%nat end.

(** [checkProductChanges(productId, oldData, newData)]; [shared] tells
    whether the two snapshots hold one and the same array or object under
    [total_rate]. *)
Definition checkProductChanges (env : Env) (productId : string) (shared : bool)
    (oldData newData : JsObject) : Action unit :=
  exec
    (if negb (strict_eq_at shared (field oldData "total_rate")
                (field newData "total_rate")) then
       notifyProductWatchers env
         {| nd_title := "Tariff Rate Changed";
            nd_message := [Lit "The tariff rate for "; Val (field newData "name");
                           Lit " has changed from "; Val (field oldData "total_rate");
                           Lit "% to "; Val (field newData "total_rate"); Lit "%"];
            nd_type := rate_change;
            nd_productId := Some productId |}
     else ret tt) in
  let oldRulingCount := count_of (field oldData "rulings") in
  let newRulingCount := count_of (field newData "rulings") in
  exec
    (if (oldRulingCount <? newRulingCount)%nat then
       notifyProductWatchers env
         {| nd_title := "New Ruling Available";
            nd_message := [Lit "A new customs ruling has been issued for ";
                           Val (field newData "name")];
            nd_type := new_ruling;
            nd_productId := Some productId |}
     else ret tt) in
  let oldExclusionCount := count_of (field oldData "exclusions") in
  let newExclusionCount := count_of (field newData "exclusions") in
  if (oldExclusionCount <? newExclusionCount)%nat then
    notifyProductWatchers env
      {| nd_title := "New Exclusion Available";
         nd_message := [Lit "A new exclusion has been added for ";
                        Val (field newData "name")];
         nd_type := exclusion;
         nd_productId := Some productId |}
  else ret tt.

(** The three tests of [checkProductChanges], by the type of the
    notification each one guards. *)
Definition tested (shared : bool) (oldData newData : JsObject)
    (type : NotificationType) : bool :=
  match type with
  | rate_change =>
      negb (strict_eq_at shared (field oldData "total_rate") (field newData "total_rate"))
  | new_ruling =>
      (count_of (field oldData "rulings") <? count_of (field newData "rulings"))%nat
  | exclusion =>
      (count_of (field oldData "exclusions") <? count_of (field newData "exclusions"))%nat
  | system => false
  end.

(** *** The pattern [/\b\d{4}\.\d{2}\.\d{4}\b/g] *)

Definition is_word (c : ascii) : bool :=
  let n := nat_of_ascii c in
  is_digit c
  || ((65 <=? n)%nat && (n <=? 90)%nat)
  || ((97 <=? n)%nat && (n <=? 122)%nat)
  || (n =? 95)%nat.

(** [s] starts with four digits, a dot, two digits, a dot, four digits, and
    a word boundary follows. *)
Definition hts_here (s : string) : bool :=
  match list_ascii_of_string (String.substring 0 12 s) with
  | [a; b; c; d; p; e; f; q; g; h; i; j] =>
      forallb is_digit [a; b; c; d; e; f; g; h; i; j]
      && Ascii.eqb p "." && Ascii.eqb q "."
      && match String.get 12 s with
         | Some next => negb (is_word next)
         | None => true
         end
  | _ => false
  end.

(** The matches from left to right; [skip] counts the characters of the
    current match still to pass, [after_word] tells whether the previous
    character is a word character. *)
Fixpoint hts_matches (skip : nat) (after_word : bool) (s : string) : list string :=
  match s with
  | EmptyString => []
  | String c rest =>
      match skip with
      | S k => hts_matches k (is_word c) rest
      | O =>
          if (negb after_word && hts_here s)%bool then
            String.substring 0 12 s :: hts_matches 11 (is_word c) rest
          else hts_matches 0 (is_word c) rest
      end
  end.

Definition find_update (updateId : Z) (table : list TradeUpdate.t) : option TradeUpdate.t :=
  find (fun u => (TradeUpdate.id u =? updateId)%Z) table.

Definition notifyAboutTradeUpdates (env : Env) (updateId : Z) : Action unit :=
  exec check env SelectTradeUpdate in
  let* found := gets (fun s => find_update updateId (trade_updates s)) in
  match found with
  | None => throw (StoreError "PGRST116")
  | Some update =>
      match TradeUpdate.description update with
      | None => throw "TypeError: cannot read properties of null (reading 'match')"
      | Some description =>
          let htsCodes := hts_matches 0 false description in
          match htsCodes with
          | [] => ret tt
          | _ =>
              exec check env SelectProductsByCode in
              let* affected :=
                gets (fun s => List.filter
                                 (fun p => includes_string (Product.hts_code p) htsCodes)
                                 (products s)) in
              for_each affected (fun product =>
                notifyProductWatchers env
                  {| nd_title := "Trade Policy Update";
                     nd_message := [Lit "A trade policy update may affect ";
                                    Lit (Product.name product); Lit ": ";
                                    Lit (TradeUpdate.title update)];
                     nd_type := system;
                     nd_productId := Some (Product.id product) |})
          end
      end
  end.

End NotificationService.

(** ** Rate limiter *)

Module RateLimiter.

Record t : Type := mk {
  requests : gmap string (list Z);
  windowMs : Z;
  maxRequests : Z
}.

(** [new RateLimiter(options)] *)
Definition create (windowMs maxRequests : Z) : t := mk ∅ windowMs maxRequests.

Definition getTimestamps (rl : t) (key : string) : list Z :=
  default [] (requests rl !! key).

(** [timestamps.filter(time => time > windowStart)] *)
Definition in_window (windowStart : Z) (timestamps : list Z) : list Z :=
  List.filter (fun time => (windowStart <? time)%Z) timestamps.

Definition shouldThrottle (rl : t) (clock : Z) (key : string) : bool :=
  let timestamps := getTimestamps rl key in
  let windowStart := (clock - windowMs rl)%Z in
  let requestsInWindow := in_window windowStart timestamps in
  (maxRequests rl <=? Z.of_nat (length requestsInWindow))%Z.

Definition calculateDelay (rl : t) (clock : Z) (key : string) : Z :=
  let timestamps := getTimestamps rl key in
  let windowStart := (clock - windowMs rl)%Z in
  match sort_by Z.leb (in_window windowStart timestamps) with
  | [] => 0
  | oldestInWindow :: _ =>
      (* [!oldestInWindow] also holds of the time stamp 0 *)
      if (oldestInWindow =? 0)%Z then 0
      else (oldestInWindow + windowMs rl - clock + 100)%Z
  end.

Definition addRequest (rl : t) (clock : Z) (key : string) : t :=
  let timestamps := getTimestamps rl key ++ [clock] in
  let windowStart := (clock - windowMs rl)%Z in
  let validTimestamps := in_window windowStart timestamps in
  mk (<[key := validTimestamps]> (requests rl)) (windowMs rl) (maxRequests rl).

(** [reset()] *)
Definition reset (rl : t) : t := mk ∅ (windowMs rl) (maxRequests rl).

(** A [throttle] call suspended in [setTimeout]: when it wakes, and its key. *)
Record Sleeper : Type := { wake : Z; sleeper_key : string }.

(** The limiter together with the calls that are asleep. *)
Record World : Type := {
  limiter : t;
  sleepers : list Sleeper
}.

(** A timer fires no earlier than one millisecond after it was set. *)
Definition timer_wake (clock delay : Z) : Z := (clock + Z.max 1 delay)%Z.

(** The part of [throttle(key)] that runs when it is called at [clock]: the
    check, and then either the recording or the suspension. *)
Definition throttle (w : World) (clock : Z) (key : string) : World :=
  if shouldThrottle (limiter w) clock key then
    let delay := calculateDelay (limiter w) clock key in
    {| limiter := limiter w;
       sleepers := sleepers w ++ [{| wake := timer_wake clock delay; sleeper_key := key |}] |}
  else
    {| limiter := addRequest (limiter w) clock key; sleepers := sleepers w |}.

(** The continuation of a suspended call: [this.addRequest(key)] at the
    time the timer fires. *)
Definition resume (rl : t) (sl : Sleeper) : t :=
  addRequest rl (wake sl) (sleeper_key sl).

(** Wake every call due at [clock] or before, earliest timer first. *)
Definition wake_due (w : World) (clock : Z) : World :=
  let due := List.filter (fun sl => (wake sl <=? clock)%Z) (sleepers w) in
  let later := List.filter (fun sl => negb (wake sl <=? clock)%Z) (sleepers w) in
  {| limiter := fold_left resume (sort_by (fun a b => (wake a <=? wake b)%Z) due) (limiter w);
     sleepers := later |}.

(** A sequence of [throttle] calls, each issued at its own time (times in
    increasing order); timers that are due fire before the next call. *)
Fixpoint calls (w : World) (issued : list (Z * string)) : World :=
  match issued with
  | [] => w
  | (clock, key) :: rest => calls (throttle (wake_due w clock) clock key) rest
  end.

(** Let every call still asleep finish. *)
Definition settle (w : World) : World :=
  {| limiter := fold_left resume (sort_by (fun a b => (wake a <=? wake b)%Z) (sleepers w))
                  (limiter w);
     sleepers := [] |}.

(** Recorded time stamps of [key] within the window that ends at [clock]. *)
Definition recorded_in_window (rl : t) (clock : Z) (key : string) : nat :=
  length (in_window (clock - windowMs rl) (getTimestamps rl key)).

End RateLimiter.

(** ** Retry queue *)

Module RetryQueue.

(** Modelled from the spec: the packages [p-retry] and [p-queue], which the
    sync jobs import, are not part of the sources. Section 4.3: a task is a
    fallible unit of work; each task is retried up to [retries] times
    before being treated as permanently failed; a failure never cancels a
    sibling task; [onIdle] returns once all submitted tasks have resolved
    and never rethrows a task's error. A task receives the number of the
    attempt, counted from one. *)
Definition Task : Type := nat -> Action unit.

(** Modelled from the spec: [pRetry(task, { retries, onFailedAttempt })] of
    the package [p-retry], which is not among the sources. The first attempt
    and then up to [retries] further ones, until one succeeds; the callback
    runs after every failed attempt. Returns the outcome and the results of
    the attempts made. *)
Fixpoint attempts (task : Task) (onFailedAttempt : string -> Store -> Store)
    (attemptNumber retriesLeft : nat) (s : Store)
  : Result unit * list (Result unit) * Store :=
  match task attemptNumber s with
  | (Ok v, s') => (Ok v, [Ok v], s')
  | (Err e, s') =>
      let s'' := onFailedAttempt (message_of e) s' in
      match retriesLeft with
      | O => (Err e, [Err e], s'')
      | S k =>
          let '(outcome, made, s3) := attempts task onFailedAttempt (S attemptNumber) k s'' in
          (outcome, Err e :: made, s3)
      end
  end.

Definition pRetry (task : Task) (retries : nat)
    (onFailedAttempt : string -> Store -> Store) (s : Store)
  : Result unit * list (Result unit) * Store :=
  attempts task onFailedAttempt 1 retries s.

(** Modelled from the spec: the tasks handed to [queue.add] of the package
    [p-queue], which is not among the sources, each already wrapped in
    [pRetry]. *)
Definition Queue : Type := list (Store -> Result unit * list (Result unit) * Store).

(** Modelled from the spec: the queue runs every submitted task to its
    outcome, here in submission order (as with a concurrency of one). The
    outcome of a task stays with the task: nothing is raised, and a failure
    does not stop the tasks behind it. *)
Fixpoint drain (queue : Queue) (s : Store)
  : list (Result unit * list (Result unit)) * Store :=
  match queue with
  | [] => ([], s)
  | job :: rest =>
      let '(outcome, made, s') := job s in
      let '(others, s'') := drain rest s' in
      ((outcome, made) :: others, s'')
  end.

(** Modelled from the spec: [await queue.onIdle()] of [p-queue] returns
    once all submitted tasks have resolved, success or permanent failure,
    and never rethrows a task's error. *)
Definition onIdle (queue : Queue) : Action unit :=
  fun s => (Ok tt, snd (drain queue s)).

(** The attempt results of a scripted task: attempt [n] fails when
    [script n] is an error, whatever the store holds. *)
Definition scripted (script : nat -> Result unit) : Task :=
  fun attemptNumber s => (script attemptNumber, s).

End RetryQueue.

(** ** Sync run records *)

Module SyncRun.

Definition fresh_id (table : list SyncStatus.t) : Z :=
  1 + fold_right Z.max 0 (map SyncStatus.id table).

(** [insert({ type, status: 'running', started_at }).select('id').single()]
    followed by [const syncId = syncRecord?.id]: a failed insert is logged
    and leaves [syncId] undefined. *)
Definition start (env : Env) (type : SyncType) : Action (option Z) :=
  fun s =>
    match db_error env InsertSyncStatus with
    | Some _ => (Ok None, s)
    | None =>
        let id := fresh_id (sync_status s) in
        let row := SyncStatus.mk id type running (Iso (now env)) None None in
        (Ok (Some id), with_sync_status (sync_status s ++ [row]) s)
    end.

(** [update({ status: 'completed', completed_at }).eq('id', syncId)] *)
Definition complete_row (env : Env) (syncId : Z) (r : SyncStatus.t) : SyncStatus.t :=
  if (SyncStatus.id r =? syncId)%Z then
    SyncStatus.mk (SyncStatus.id r) (SyncStatus.type r) completed
      (SyncStatus.started_at r) (Some (Iso (now env))) (SyncStatus.error_message r)
  else r.

(** [if (syncId) { await supabase.from('sync_status').update(...) }]: the
    answer of the update is not read, so an update the store refuses
    changes nothing and raises nothing. *)
Definition complete (env : Env) (syncId : option Z) : Action unit :=
  match syncId with
  | Some id =>
      if (id =? 0)%Z then ret tt
      else
        match db_error env UpdateSyncStatus with
        | Some _ => ret tt
        | None =>
            modify (fun s => with_sync_status (map (complete_row env id) (sync_status s)) s)
        end
  | None => ret tt
  end.

Definition SyncType_eqb (a b : SyncType) : bool :=
  match a, b with
  | products_sync, products_sync | tariffs_sync, tariffs_sync
  | updates_sync, updates_sync => true
  | _, _ => false
  end.

(** [update({ status: 'failed', error_message, completed_at })
    .eq('type', type).is('completed_at', null)] *)
Definition fail_row (env : Env) (type : SyncType) (message : string)
    (r : SyncStatus.t) : SyncStatus.t :=
  match SyncStatus.completed_at r with
  | None =>
      if SyncType_eqb (SyncStatus.type r) type then
        SyncStatus.mk (SyncStatus.id r) (SyncStatus.type r) failed
          (SyncStatus.started_at r) (Some (Iso (now env))) (Some message)
      else r
  | Some _ => r
  end.

(** [error instanceof Error ? error.message : 'Unknown error'] *)
Definition error_message (e : Thrown) : string :=
  match e with
  | ErrorInstance message => message
  | StoreError _ => "Unknown error"
  end.

(** [try { body } catch (error) { await update failed; throw error }]: the
    answer of the update is not read, so an update the store refuses
    changes nothing; the error is raised again either way. *)
Definition guarded (finish : Env) (type : SyncType) (body : Action unit) : Action unit :=
  fun s =>
    match body s with
    | (Ok v, s') => (Ok v, s')
    | (Err e, s') =>
        (Err e,
         match db_error finish UpdateSyncStatus with
         | Some _ => s'
         | None =>
             with_sync_status
               (map (fail_row finish type (error_message e)) (sync_status s')) s'
         end)
    end.

Definition status_of (syncId : Z) (s : Store) : option SyncState :=
  option_map SyncStatus.status
    (find (fun r => (SyncStatus.id r =? syncId)%Z) (sync_status s)).

End SyncRun.

(** ** Tariff sync *)

Module TradeAgreement.
Record t : Type := mk {
  code : string;
  countries : list string
}.
End TradeAgreement.

Module SyncTariffs.

Definition adjustRatesForTradeAgreements (rates : list JsObject)
    (agreementCodes : list string) : list JsObject :=
  if includes_string "FTA" agreementCodes then
    map (fun rate =>
           if strict_eq (field rate "type") (JStr "standard") then
             set_field rate "rate" (JNum zero)
           else rate)
        rates
  else rates.

(** The country-to-agreement-codes map built from the agreements. *)
Definition register (m : gmap string (list string)) (countryCode agreementCode : string)
  : gmap string (list string) :=
  <[countryCode := default [] (m !! countryCode) ++ [agreementCode]]> m.

Definition countryAgreements (agreements : list TradeAgreement.t)
  : gmap string (list string) :=
  fold_left (fun m agreement =>
               fold_left (fun m' countryCode =>
                            register m' countryCode (TradeAgreement.code agreement))
                         (TradeAgreement.countries agreement) m)
            agreements ∅.

(** [!rate.countries || rate.countries.includes(country.code)] *)
Definition applies_to (countryCode : string) (rate : JsObject) : Result bool :=
  let listed := field rate "countries" in
  if negb (truthy listed) then Ok true
  else match listed with
       | JArr items => Ok (existsb (fun v => strict_eq v (JStr countryCode)) items)
       | JStr text => Ok (includes countryCode text)
       | _ => Err "TypeError: rate.countries.includes is not a function"
       end.

Fixpoint filter_rates (countryCode : string) (rates : list JsObject)
  : Result (list JsObject) :=
  match rates with
  | [] => Ok []
  | rate :: rest =>
      match applies_to countryCode rate with
      | Err e => Err e
      | Ok keep =>
          match filter_rates countryCode rest with
          | Err e => Err e
          | Ok kept => Ok (if keep then rate :: kept else kept)
          end
      end
  end.

(** The latest stored total for the pair: [.order('effective_date',
    { ascending: false }).limit(1).single()], then [prevRate?.total_rate]. *)
Definition prevTotalRate (productId countryId : string)
    (table : list TariffRate.t) : option number :=
  let rows :=
    List.filter (fun r => String.eqb (TariffRate.product_id r) productId
                          && String.eqb (TariffRate.country_id r) countryId) table in
  let ordered :=
    sort_by (fun a b => (instant (TariffRate.effective_date b)
                         <=? instant (TariffRate.effective_date a))%Z) rows in
  option_map TariffRate.total_rate (head ordered).

(** [const { data: prevRate } = await supabase. ... .single()]: the error
    of the request is not read, so a request the store refuses leaves
    [prevRate] null, as does a pair without a row. *)
Definition readPrevTotalRate (env : Env) (productId countryId : string)
  : Action (option number) :=
  gets (fun s =>
          match db_error env SelectTariffRate with
          | Some _ => None
          | None => prevTotalRate productId countryId (tariff_rates s)
          end).

(** [prevTotalRate !== undefined && Math.abs(newTotalRate - prevTotalRate) >= 1] *)
Definition changed_significantly (prev : option number) (newTotalRate : number) : bool :=
  match prev with
  | None => false
  | Some prevRate => ge (abs (sub newTotalRate prevRate)) one
  end.

(** The rates the work for one pair ends up with. *)
Definition rates_for (agreementsOf : gmap string (list string))
    (product : Product.t) (country : Country.t) : Result (list JsObject) :=
  match
    match Product.additional_rates product with
    | Some rates => filter_rates (Country.code country) rates
    | None => Ok []
    end
  with
  | Err e => Err e
  | Ok additionalRates =>
      let countryAgreementCodes := default [] (agreementsOf !! Country.code country) in
      Ok (if (0 <? length countryAgreementCodes)%nat then
            adjustRatesForTradeAgreements additionalRates countryAgreementCodes
          else additionalRates)
  end.

(** [let newTotalRate = product.base_rate; for (...) newTotalRate += ...] *)
Definition newTotalRate (product : Product.t) (additionalRates : list JsObject) : number :=
  fold_left (fun acc rate => add acc (or_zero (parseFloat_of_String (field rate "rate"))))
            additionalRates (Product.base_rate product).

(** The work queued for one product-country pair (one attempt). *)
Definition tariffItem (env : Env) (agreementsOf : gmap string (list string))
    (product : Product.t) (country : Country.t) : Action unit :=
  let* prev := readPrevTotalRate env (Product.id product) (Country.id country) in
  match rates_for agreementsOf product country with
  | Err e => throw e
  | Ok additionalRates =>
      exec Aggregator.updateTariffRates env (Product.id product) (Country.id country)
             (Product.base_rate product) additionalRates (Iso (now env)) in
      let total := newTotalRate product additionalRates in
      if changed_significantly prev total then
        NotificationService.notifyProductWatchers env
          {| nd_title := ("Tariff Rate Change for " ++ Country.name country)%string;
             nd_message := [Lit "The tariff rate for "; Lit (Product.name product);
                            Lit " imported from "; Lit (Country.name country);
                            Lit " has changed from ";
                            Val (match prev with Some p => JNum p | None => JUndefined end);
                            Lit "% to "; Val (JNum total); Lit "%"];
             nd_type := rate_change;
             nd_productId := Some (Product.id product) |}
      else ret tt
  end.

(** What a run meets: the clock and faults during set-up, the answer of
    [getTradeAgreements], the configuration, the clock and faults of every
    attempt of every queued item, and those of the final status update. *)
Record Run : Type := {
  setup : Env;
  agreements : Result (list TradeAgreement.t);
  retries : nat;
  batchSize : nat;
  attempt_env : nat -> nat -> Env;
  finish : Env
}.

(** [.order('last_updated', { ascending: true }).limit(batchSize)] *)
Definition selected_products (limit : nat) (table : list Product.t) : list Product.t :=
  take limit (sort_by (fun a b => (instant (Product.last_updated a)
                                   <=? instant (Product.last_updated b))%Z) table).

Definition pairs (selected : list Product.t) (all : list Country.t)
  : list (Product.t * Country.t) :=
  flat_map (fun product => map (fun country => (product, country)) all) selected.

Definition jobs (r : Run) (agreementsOf : gmap string (list string))
    (items : list (Product.t * Country.t)) : RetryQueue.Queue :=
  imap (fun i item =>
          RetryQueue.pRetry
            (fun attemptNumber =>
               tariffItem (attempt_env r i attemptNumber) agreementsOf (fst item) (snd item))
            (retries r) (fun _ s => s))
       items.

Definition body (r : Run) : Action unit :=
  let* syncId := SyncRun.start (setup r) tariffs_sync in
  exec check (setup r) SelectCountries in
  let* all := gets countries in
  match all with
  | [] => ret tt
  | _ =>
      match agreements r with
      | Err e => throw e
      | Ok agreed =>
          let agreementsOf := countryAgreements agreed in
          exec check (setup r) SelectProducts in
          let* selected := gets (fun s => selected_products (batchSize r) (products s)) in
          match selected with
          | [] => ret tt
          | _ =>
              exec RetryQueue.onIdle (jobs r agreementsOf (pairs selected all)) in
              SyncRun.complete (finish r) syncId
          end
      end
  end.

Definition syncTariffs (r : Run) : Action unit :=
  SyncRun.guarded (finish r) tariffs_sync (body r).

End SyncTariffs.

(** ** Product sync *)

Module SyncProducts.

Section WithAggregator.

(** [aggregateProductData(htsCode, category)] of the data aggregator. It
    stores through the data processor, which is not among the sources, and
    stays abstract here. *)
Variable aggregateProductData : Env -> JsValue -> JsValue -> Action unit.

Record Run : Type := {
  setup : Env;
  retries : nat;
  batchSize : nat;
  (** the answer of [getHtsChapter] for a chapter on an attempt *)
  chapter_data : nat -> nat -> Result JsValue;
  attempt_env : nat -> nat -> Env;
  finish : Env
}.

(** Seven days, in milliseconds. *)
Definition sevenDays : Z := 7 * 24 * 60 * 60 * 1000.

(** [const sevenDaysAgo = new Date();
    sevenDaysAgo.setDate(sevenDaysAgo.getDate() - 7)] *)
Definition sevenDaysAgo (env : Env) : Z := daysAgo env 7.

(** [.lt('last_updated', sevenDaysAgo.toISOString()).order('last_updated',
    { ascending: true }).limit(limit)] *)
Definition stale (env : Env) (limit : nat) (table : list Product.t) : list string :=
  map Product.hts_code
      (take limit
         (sort_by (fun a b => (instant (Product.last_updated a)
                               <=? instant (Product.last_updated b))%Z)
            (List.filter (fun p => (instant (Product.last_updated p)
                                    <? sevenDaysAgo env)%Z) table))).

Definition findProductsToUpdate (env : Env) (limit : nat) : Action (list string) :=
  exec check env SelectProducts in
  gets (fun s => stale env limit (products s)).

(** The items of a value that is iterated with [for ... of]. *)
Definition items_of (v : JsValue) : Result (list JsValue) :=
  match v with
  | JArr items => Ok items
  | _ => Err "TypeError: value is not iterable"
  end.

Definition lift {A} (r : Result A) : Action A :=
  match r with
  | Ok a => ret a
  | Err e => throw e
  end.

(** The body of the task queued for one chapter. *)
Definition chapterTask (r : Run) (chapter attemptNumber : nat) : Action unit :=
  let env := attempt_env r chapter attemptNumber in
  let* chapterData := lift (chapter_data r chapter attemptNumber) in
  let* sections := lift (match prop chapterData "sections" with
                         | Ok v => items_of v
                         | Err e => Err e
                         end) in
  for_each sections (fun section =>
    let* rates := lift (match prop section "rates" with
                        | Ok v => items_of v
                        | Err e => Err e
                        end) in
    for_each rates (fun rate =>
      let* hts_code := lift (prop rate "hts_code") in
      let* description := lift (prop section "description") in
      aggregateProductData env hts_code description)).

(** [for (let chapter = 1; chapter <= 99; chapter++) queue.add(...)], then
    [await queue.onIdle()]. *)
Definition fullProductSync (r : Run) : Action unit :=
  RetryQueue.onIdle
    (map (fun chapter => RetryQueue.pRetry (chapterTask r chapter) (retries r) (fun _ s => s))
         (seq 1 99)).

(** [categoryMap.get(htsCode) || 'Uncategorized'] *)
Definition category_of (categoryMap : gmap string string) (htsCode : string) : string :=
  match categoryMap !! htsCode with
  | Some category => if String.eqb category "" then "Uncategorized" else category
  | None => "Uncategorized"
  end.

Definition incrementalProductSync (r : Run) : Action unit :=
  let* htsCodes := findProductsToUpdate (setup r) (batchSize r) in
  match htsCodes with
  | [] => ret tt
  | _ =>
      exec check (setup r) SelectProductsByCode in
      let* found := gets (fun s => List.filter
                                     (fun p => includes_string (Product.hts_code p) htsCodes)
                                     (products s)) in
      let categoryMap : gmap string string :=
        fold_left (fun m product => <[Product.hts_code product := Product.category product]> m)
                  found ∅ in
      RetryQueue.onIdle
        (imap (fun i htsCode =>
                 RetryQueue.pRetry
                   (fun attemptNumber =>
                      aggregateProductData (attempt_env r i attemptNumber) (JStr htsCode)
                        (JStr (category_of categoryMap htsCode)))
                   (retries r) (fun _ s => s))
              htsCodes)
  end.

Definition body (r : Run) (fullSync : bool) : Action unit :=
  let* syncId := SyncRun.start (setup r) products_sync in
  exec (if fullSync then fullProductSync r else incrementalProductSync r) in
  SyncRun.complete (finish r) syncId.

Definition syncProducts (r : Run) (fullSync : bool) : Action unit :=
  SyncRun.guarded (finish r) products_sync (body r fullSync).

End WithAggregator.

End SyncProducts.

(** ** Updates sync *)

Module Notice.
Record t : Type := mk {
  document_number : string;
  title : string;
  (** [None] is [null] *)
  abstract : option string;
  publication_date : IsoDate;
  html_url : string
}.
End Notice.

Module SyncUpdates.

(** [notice.title + ' ' + notice.abstract] *)
Definition content_of (notice : Notice.t) : string :=
  (Notice.title notice ++ " " ++ default "null" (Notice.abstract notice))%string.

Definition determineImpactLevel (notice : Notice.t) : Impact :=
  let content := toLowerCase (content_of notice) in
  if includes "immediate effect" content
     || includes "significant change" content
     || includes "major revision" content
     || includes "substantial increase" content
  then high
  else if includes "modification" content
          || includes "amendment" content
          || includes "updated rates" content
          || includes "changes to" content
  then medium
  else low.

(** [.select('source_reference').order('published_date',
    { ascending: false }).limit(100)] *)
Definition existingUpdates (table : list TradeUpdate.t) : list TradeUpdate.t :=
  take 100 (sort_by (fun a b => (instant (TradeUpdate.published_date b)
                                 <=? instant (TradeUpdate.published_date a))%Z) table).

(** [new Set(existingUpdates.map(u => u.source_reference))] *)
Definition existingRefs (table : list TradeUpdate.t) : gset string :=
  list_to_set (map TradeUpdate.source_reference (existingUpdates table)).

(** [notices.filter(notice => !existingRefs.has(notice.document_number))] *)
Definition newNotices (refs : gset string) (notices : list Notice.t) : list Notice.t :=
  List.filter (fun notice => negb (bool_decide (Notice.document_number notice ∈ refs))) notices.

Definition fresh_id (table : list TradeUpdate.t) : Z :=
  1 + fold_right Z.max 0 (map TradeUpdate.id table).

(** [insert({ ... }).select('id').single()] *)
Definition insert_update (env : Env) (notice : Notice.t) : Action Z :=
  exec check env InsertTradeUpdate in
  fun s =>
    let id := fresh_id (trade_updates s) in
    let row :=
      TradeUpdate.mk id (Notice.title notice) (Notice.abstract notice)
        (determineImpactLevel notice) (Notice.html_url notice)
        (Notice.document_number notice) (Notice.publication_date notice) in
    (Ok id, with_trade_updates (trade_updates s ++ [row]) s).

Record Run : Type := {
  setup : Env;
  (** the answer of [getTariffNotices] *)
  notices : Result (list Notice.t);
  finish : Env
}.

Definition body (r : Run) : Action unit :=
  let* syncId := SyncRun.start (setup r) updates_sync in
  exec check (setup r) SelectTradeUpdates in
  let* refs := gets (fun s => existingRefs (trade_updates s)) in
  match notices r with
  | Err e => throw e
  | Ok fetched =>
      exec for_each (newNotices refs fetched) (fun notice =>
             let* updateId := insert_update (setup r) notice in
             NotificationService.notifyAboutTradeUpdates (setup r) updateId) in
      SyncRun.complete (finish r) syncId
  end.

Definition syncUpdates (r : Run) : Action unit :=
  SyncRun.guarded (finish r) updates_sync (body r).

(** The rows of [trade_updates] that carry a given source reference. *)
Definition stored_under (reference : string) (s : Store) : list TradeUpdate.t :=
  List.filter (fun u => String.eqb (TradeUpdate.source_reference u) reference)
              (trade_updates s).

End SyncUpdates.

(** ** Source clients *)

Module SourceClients.

Record Response : Type := {
  status : Z;
  data : JsValue
}.

(** What [axios.get] comes back with. *)
Inductive Upstream : Type :=
| Responded (response : Response)
| Rejected (error : string).

(** The live entries of [apiCache]. *)
Abbreviation Cache := (gmap string JsValue).

(** [apiCache.get(key)] *)
Definition cached (cache : Cache) (key : string) : JsValue :=
  default JUndefined (cache !! key).

(** [Array.isArray(response.data) ? response.data : []] *)
Definition array_or_empty (payload : JsValue) : JsValue :=
  if isArray payload then payload else JArr [].

Definition getSection301Tariffs (cache : Cache) (upstream : Upstream)
  : Result JsValue * Cache :=
  let cacheKey := "ustr:section301" in
  let cachedData := cached cache cacheKey in
  if truthy cachedData then (Ok cachedData, cache)
  else match upstream with
       | Rejected e => (Err e, cache)
       | Responded response =>
           if negb (status response =? 200)%Z then
             (Err "Failed to fetch Section 301 tariffs", cache)
           else
             let payload := array_or_empty (data response) in
             (Ok payload, <[cacheKey := payload]> cache)
       end.

Definition getExclusions (htsCode : string) (cache : Cache) (upstream : Upstream)
  : Result JsValue * Cache :=
  let cacheKey := ("ustr:exclusions:" ++ htsCode)%string in
  let cachedData := cached cache cacheKey in
  if truthy cachedData then (Ok cachedData, cache)
  else match upstream with
       | Rejected e => (Err e, cache)
       | Responded response =>
           if negb (status response =? 200)%Z then
             (Err ("Failed to fetch exclusions for HTS code " ++ htsCode)%string, cache)
           else
             let payload := array_or_empty (data response) in
             (Ok payload, <[cacheKey := payload]> cache)
       end.

Definition getTradeAgreements (cache : Cache) (upstream : Upstream)
  : Result JsValue * Cache :=
  let cacheKey := "ustr:agreements" in
  let cachedData := cached cache cacheKey in
  if truthy cachedData then (Ok cachedData, cache)
  else match upstream with
       | Rejected e => (Err e, cache)
       | Responded response =>
           if negb (status response =? 200)%Z then
             (Err "Failed to fetch trade agreements", cache)
           else
             let payload := array_or_empty (data response) in
             (Ok payload, <[cacheKey := payload]> cache)
       end.

(** One entry of [data.sections.map(section => ({ ... }))] *)
Definition validateSection (section : JsValue) : Result JsValue :=
  match prop section "code", prop section "description", prop section "rates" with
  | Ok code, Ok description, Ok rates =>
      Ok (JObj [("code", or_else code (JStr ""));
                ("description", or_else description (JStr ""));
                ("rates", array_or_empty rates)])
  | Err e, _, _ | _, Err e, _ | _, _, Err e => Err e
  end.

Fixpoint validateSections (sections : list JsValue) : Result (list JsValue) :=
  match sections with
  | [] => Ok []
  | section :: rest =>
      match validateSection section with
      | Err e => Err e
      | Ok first =>
          match validateSections rest with
          | Err e => Err e
          | Ok others => Ok (first :: others)
          end
      end
  end.

Definition validateHtsChapter (payload : JsValue) : Result JsValue :=
  if (negb (truthy payload) || negb (typeof_object payload))%bool then
    Err "Invalid HTS chapter data format"
  else
    match prop payload "chapter", prop payload "description", prop payload "sections" with
    | Ok chapter, Ok description, Ok (JArr sections) =>
        if (negb (truthy chapter) || negb (truthy description))%bool then
          Err "Missing required fields in HTS chapter data"
        else
          match validateSections sections with
          | Err e => Err e
          | Ok validated =>
              Ok (JObj [("chapter", chapter); ("description", description);
                        ("sections", JArr validated)])
          end
    | _, _, _ => Err "Missing required fields in HTS chapter data"
    end.

Definition getHtsChapter (chapter : string) (cache : Cache) (upstream : Upstream)
  : Result JsValue * Cache :=
  let cacheKey := ("usitc:chapter:" ++ chapter)%string in
  let cachedData := cached cache cacheKey in
  if truthy cachedData then (Ok cachedData, cache)
  else match upstream with
       | Rejected e => (Err e, cache)
       | Responded response =>
           if negb (status response =? 200)%Z then
             (Err ("Failed to fetch HTS chapter " ++ chapter)%string, cache)
           else
             match validateHtsChapter (data response) with
             | Err e => (Err e, cache)
             | Ok validated => (Ok validated, <[cacheKey := validated]> cache)
             end
       end.

End SourceClients.

(** ** The specification's own formulations *)

Module Spec.

(** "the numeric parse of rate": the number the text starts with, if any. *)
Definition parseNumeric (v : JsValue) : option number :=
  match parseFloat_of_String v with
  | NaN => None
  | n => Some n
  end.

(** "the numeric parse of rate, where a non-numeric rate contributes 0" *)
Definition contribution (rate : JsObject) : number :=
  default zero (parseNumeric (field rate "rate")).

(** "baseRate plus the sum over the entries of the numeric parse of rate,
    where a non-numeric rate contributes 0", read on numbers: the sum of
    the entries is formed first and added to the base rate. *)
Definition total_rate (baseRate : number) (additionalRates : list JsObject) : number :=
  add baseRate (fold_left add (map contribution additionalRates) zero).

(** The same, read as the amended claim has it: the contributions are
    added to the base rate one after the other, in the order of the list,
    each addition a floating-point one. *)
Definition running_total (baseRate : number) (additionalRates : list JsObject) : number :=
  fold_left add (map contribution additionalRates) baseRate.

(** The same on exact numbers: [base + v1 + ... + vn]. *)
Definition exact_total (base : Qc) (values : list Qc) : Qc :=
  fold_left Qcplus values base.

(** No addition of the running total rounds: every partial sum is a
    double. *)
Fixpoint sums_exactly (base : Qc) (values : list Qc) : Prop :=
  match values with
  | [] => True
  | v :: rest => representable (base + v)%Qc /\ sums_exactly (base + v)%Qc rest
  end.

(** The rows stored for a product-country pair, whatever their date. *)
Definition stored_for (productId countryId : string) (s : Store) : list TariffRate.t :=
  List.filter (fun r => String.eqb (TariffRate.product_id r) productId
                        && String.eqb (TariffRate.country_id r) countryId)
              (tariff_rates s).

(** A row without its [updated_at] stamp. *)
Definition content (r : TariffRate.t)
  : string * string * number * list JsObject * number * IsoDate :=
  (TariffRate.product_id r, TariffRate.country_id r, TariffRate.base_rate r,
   TariffRate.additional_rates r, TariffRate.total_rate r, TariffRate.effective_date r).

(** The entries a snapshot lists under a dimension; none when it holds no
    list there. *)
Definition listed (snapshot : JsObject) (dimension : string) : list JsValue :=
  match field snapshot dimension with
  | JArr entries => entries
  | _ => []
  end.

(** "total_rate: any change; rulings and exclusions: count strictly
    increased" *)
Definition qualifies (oldData newData : JsObject) (type : NotificationType) : Prop :=
  match type with
  | rate_change => field oldData "total_rate" <> field newData "total_rate"
  | new_ruling => (length (listed oldData "rulings") < length (listed newData "rulings"))%nat
  | exclusion =>
      (length (listed oldData "exclusions") < length (listed newData "exclusions"))%nat
  | system => False
  end.

(** A rate as a snapshot holds it: a number other than [NaN], a text, a
    truth value, [null], or nothing. *)
Definition plain (v : JsValue) : Prop :=
  match v with
  | JNum NaN | JArr _ | JObj _ => False
  | _ => True
  end.

Definition NotificationType_eqb (a b : NotificationType) : bool :=
  match a, b with
  | rate_change, rate_change | new_ruling, new_ruling
  | exclusion, exclusion | system, system => true
  | _, _ => false
  end.

(** How many of the notifications are addressed to [user] with type [type]. *)
Definition received (user : string) (type : NotificationType)
    (rows : list Notification.t) : nat :=
  length (List.filter (fun n => String.eqb (Notification.user_id n) user
                                && NotificationType_eqb (Notification.type n) type) rows).

(** How many watch-list entries make [user] a watcher of [productId] with
    [notify_changes] set. *)
Definition watching (user productId : string) (table : list Watchlist.t) : nat :=
  length (List.filter (fun w => String.eqb (Watchlist.user_id w) user
                                && (String.eqb (Watchlist.product_id w) productId
                                    && Watchlist.notify_changes w)) table).

(** How many of the attempts made were reported successful. *)
Definition successes (made : list (Result unit)) : nat :=
  length (List.filter is_ok made).

(** The attempts [first], ..., [first + count - 1] of the script fail. *)
Definition fails_from (script : nat -> Result unit) (first count : nat) : Prop :=
  forall n, (first <= n < first + count)%nat -> is_ok (script n) = false.

(** The payloads the claim calls malformed for a fetcher of a list. *)
Definition malformed_list (payload : JsValue) : Prop := isArray payload = false.

End Spec.

(** ** Concrete scenarios *)

Module Scenario.

Definition empty_store : Store :=
  {| tariff_rates := []; sync_status := []; trade_updates := [];
     user_watchlists := []; notifications := []; products := [];
     countries := []; emitted := [] |}.

Definition horses : Product.t :=
  Product.mk "p1" "0101.21.0000" "Horses" "Live animals" (Fin (Q2Qc 5))
    (Some [[("type", JStr "standard"); ("rate", JStr "7.5")]]) (Iso 0).

Definition china : Country.t := Country.mk "c1" "CN" "China".

(** One earlier rate for the pair, and one watcher of the product. *)
Definition watched_store : Store :=
  {| tariff_rates :=
       [TariffRate.mk "p1" "c1" (Fin (Q2Qc 5)) [] (Fin (Q2Qc 5)) (Iso 100) (Iso 100)];
     sync_status := []; trade_updates := [];
     user_watchlists := [Watchlist.mk "u1" "p1" true];
     notifications := []; products := [horses]; countries := [china];
     emitted := [] |}.

(** The store refuses to insert notifications. *)
Definition no_notifications (t : Z) : Env :=
  {| now := t;
     db_error := fun op => match op with
                           | InsertNotifications => Some "connection lost"
                           | _ => None
                           end;
     localTZA := fun _ _ => 0 |}.

(** The first attempt runs at 1000 and loses the connection while
    notifying; the retry runs at 2000. *)
Definition interrupted_item : RetryQueue.Task :=
  fun attemptNumber =>
    SyncTariffs.tariffItem
      (if (attemptNumber =? 1)%nat then no_notifications 1000 else healthy 2000)
      ∅ horses china.

(** A tariff run on a healthy store. *)
Definition quiet_run : SyncTariffs.Run :=
  {| SyncTariffs.setup := healthy 1000;
     SyncTariffs.agreements := Ok [];
     SyncTariffs.retries := 3;
     SyncTariffs.batchSize := 100;
     SyncTariffs.attempt_env := fun _ _ => healthy 2000;
     SyncTariffs.finish := healthy 3000 |}.

(** A hundred trade updates published on the days 1000 to 1099. *)
Definition backlog : list TradeUpdate.t :=
  map (fun n => TradeUpdate.mk (Z.of_nat (S n)) "Earlier notice" (Some "no codes") low
                  "https://example.test" ("2025-000" ++ two_digits n)%string
                  (Iso (1000 + Z.of_nat n)))
      (seq 0 100).

Definition backlog_store : Store :=
  {| tariff_rates := []; sync_status := []; trade_updates := backlog;
     user_watchlists := []; notifications := []; products := [];
     countries := []; emitted := [] |}.

(** A notice published before all of them. *)
Definition old_notice : Notice.t :=
  Notice.mk "2024-12345" "Tariff notice" (Some "minor amendment") (Iso 500)
    "https://example.test/2024-12345".

Definition updates_pass (t : Z) : SyncUpdates.Run :=
  {| SyncUpdates.setup := healthy t;
     SyncUpdates.notices := Ok [old_notice];
     SyncUpdates.finish := healthy (t + 1) |}.

(** The limiter of the scenario: two requests per second. *)
Definition small_limiter : RateLimiter.World :=
  {| RateLimiter.limiter := RateLimiter.create 1000 2; RateLimiter.sleepers := [] |}.

(** The limiter of the USTR client: thirty requests per minute. *)
Definition ustrRateLimiter : RateLimiter.World :=
  {| RateLimiter.limiter := RateLimiter.create (60 * 1000) 30;
     RateLimiter.sleepers := [] |}.

(** The instant the scenarios start at. *)
Definition t0 : Z := 1700000000000.

(** [n] calls for the same key issued back to back at [clock]. *)
Definition burst (n : nat) (clock : Z) (key : string) : list (Z * string) :=
  repeat (clock, key) n.

(** One call a second for thirty seconds, then three queue workers calling
    at once. *)
Definition steady_then_three : list (Z * string) :=
  map (fun n => (t0 + 1000 * Z.of_nat n, "exclusions")) (seq 0 30)
  ++ burst 3 (t0 + 30000) "exclusions".

(** A product at 10 percent with one additional rate. *)
Definition tools (rate : string) : Product.t :=
  Product.mk "p2" "8205.59.5560" "Hand tools" "Tools" (Fin (Q2Qc 10))
    (Some [[("type", JStr "section301"); ("rate", JStr rate)]]) (Iso 0).

(** An earlier total of 10 for the pair, and one watcher. *)
Definition priced_store : Store :=
  {| tariff_rates :=
       [TariffRate.mk "p2" "c1" (Fin (Q2Qc 10)) [] (Fin (Q2Qc 10)) (Iso 100) (Iso 100)];
     sync_status := []; trade_updates := [];
     user_watchlists := [Watchlist.mk "u1" "p2" true];
     notifications := []; products := []; countries := [china];
     emitted := [] |}.

(** Fails twice, then succeeds. *)
Definition flaky : nat -> Result unit :=
  fun attemptNumber => if (attemptNumber <=? 2)%nat then Err "timeout" else Ok tt.

(** Fails three times, then succeeds. *)
Definition stubborn : nat -> Result unit :=
  fun attemptNumber => if (attemptNumber <=? 3)%nat then Err "timeout" else Ok tt.

End Scenario.

(** ** Awaited calls of the rate limiter *)

Module Awaited.

(** The instant at which a call issued at [clock] is recorded: at once, or
    when its timer fires. *)
Definition recorded_at (rl : RateLimiter.t) (clock : Z) (key : string) : Z :=
  if RateLimiter.shouldThrottle rl clock key
  then RateLimiter.timer_wake clock (RateLimiter.calculateDelay rl clock key)
  else clock.

(** [await limiter.throttle(key)] with no other call in flight: the call
    runs to its end before the caller goes on. *)
Definition awaitThrottle (rl : RateLimiter.t) (clock : Z) (key : string) : RateLimiter.t :=
  RateLimiter.limiter
    (RateLimiter.settle
       (RateLimiter.throttle {| RateLimiter.limiter := rl; RateLimiter.sleepers := [] |}
          clock key)).

(** A caller that awaits one call after the other. *)
Definition awaitAll (rl : RateLimiter.t) (issued : list (Z * string)) : RateLimiter.t :=
  fold_left (fun limiter call => awaitThrottle limiter (fst call) (snd call)) issued rl.

(** Every key holds at most [maxRequests] time stamps, all of them positive. *)
Definition within_budget (rl : RateLimiter.t) : Prop :=
  forall key,
    Z.of_nat (length (RateLimiter.getTimestamps rl key)) <= RateLimiter.maxRequests rl
    /\ (forall t, In t (RateLimiter.getTimestamps rl key) -> 0 < t).

(** No call for [key] is asleep. *)
Definition quiet (key : string) (w : RateLimiter.World) : Prop :=
  forall sl, In sl (RateLimiter.sleepers w) -> RateLimiter.sleeper_key sl <> key.

End Awaited.

(** ** Codes in free text *)

Module FederalRegister.

(** The shape [\d{4}\.\d{2}\.\d{4}] of a whole text. *)
Definition is_hts_code (text : string) : bool :=
  match list_ascii_of_string text with
  | [a; b; c; d; p; e; f; q; g; h; i; j] =>
      forallb is_digit [a; b; c; d; e; f; g; h; i; j]
      && Ascii.eqb p "." && Ascii.eqb q "."
  | _ => false
  end.

(** [[...new Set(matches)]]: the first occurrence of every value, in order. *)
Fixpoint unique (seen : list string) (values : list string) : list string :=
  match values with
  | [] => []
  | v :: rest =>
      if includes_string v seen then unique seen rest
      else v :: unique (v :: seen) rest
  end.

(** [extractHtsCodes(text)]; [None] is a missing text. *)
Definition extractHtsCodes (text : option string) : list string :=
  match text with
  | None => []
  | Some t =>
      if String.eqb t "" then []
      else unique [] (NotificationService.hts_matches 0 false t)
  end.

End FederalRegister.

(** ** Data aggregator: trade updates *)

Module DataAggregator.

(** [.eq('source_reference', reference).single()]: the row when there is
    exactly one; no row and several rows both answer with the error code
    PGRST116, which the caller lets pass, and no data. *)
Definition existingNotice (reference : string) (table : list TradeUpdate.t)
  : option TradeUpdate.t :=
  match List.filter (fun u => String.eqb (TradeUpdate.source_reference u) reference) table with
  | [u] => Some u
  | _ => None
  end.

(** [processTradeUpdates()], given the answer of [getEffectiveDates('tariff')].
    The row is the one the updates sync builds; the aggregator's own
    [determineImpactLevel] is the same function, word for word. *)
Definition processTradeUpdates (env : Env) (notices : Result (list Notice.t)) : Action unit :=
  match notices with
  | Err e => throw e
  | Ok fetched =>
      for_each fetched (fun notice =>
        exec check env SelectTradeUpdate in
        let* existing := gets (fun s => existingNotice (Notice.document_number notice)
                                          (trade_updates s)) in
        match existing with
        | Some _ => ret tt
        | None =>
            let* inserted := SyncUpdates.insert_update env notice in
            ret tt
        end)
  end.

End DataAggregator.

(** ** Further source clients *)

(** As for the clients above, an error text stops before the status it
    reports. *)

Module Usitc.

(** [getGeneralRates(htsCode)]: the payload is returned and cached as it
    comes. *)
Definition getGeneralRates (htsCode : string) (cache : gmap string JsValue)
    (upstream : SourceClients.Upstream) : Result JsValue * gmap string JsValue :=
  let cacheKey := ("usitc:rates:" ++ htsCode)%string in
  let cachedData := SourceClients.cached cache cacheKey in
  if truthy cachedData then (Ok cachedData, cache)
  else match upstream with
       | SourceClients.Rejected e => (Err e, cache)
       | SourceClients.Responded response =>
           if negb (SourceClients.status response =? 200)%Z then
             (Err ("Failed to fetch rates for HTS code " ++ htsCode)%string, cache)
           else
             (Ok (SourceClients.data response),
              <[cacheKey := SourceClients.data response]> cache)
       end.

Definition searchHtsCodes (query : string) (cache : gmap string JsValue)
    (upstream : SourceClients.Upstream) : Result JsValue * gmap string JsValue :=
  let cacheKey := ("usitc:search:" ++ query)%string in
  let cachedData := SourceClients.cached cache cacheKey in
  if truthy cachedData then (Ok cachedData, cache)
  else match upstream with
       | SourceClients.Rejected e => (Err e, cache)
       | SourceClients.Responded response =>
           if negb (SourceClients.status response =? 200)%Z then
             (Err "Failed to search HTS codes", cache)
           else
             let payload := SourceClients.array_or_empty (SourceClients.data response) in
             (Ok payload, <[cacheKey := payload]> cache)
       end.

End Usitc.

Module Cbp.

Definition getRulings (htsCode : string) (cache : gmap string JsValue)
    (upstream : SourceClients.Upstream) : Result JsValue * gmap string JsValue :=
  let cacheKey := ("cbp:rulings:" ++ htsCode)%string in
  let cachedData := SourceClients.cached cache cacheKey in
  if truthy cachedData then (Ok cachedData, cache)
  else match upstream with
       | SourceClients.Rejected e => (Err e, cache)
       | SourceClients.Responded response =>
           if negb (SourceClients.status response =? 200)%Z then
             (Err ("Failed to fetch rulings for HTS code " ++ htsCode)%string, cache)
           else
             let payload := SourceClients.array_or_empty (SourceClients.data response) in
             (Ok payload, <[cacheKey := payload]> cache)
       end.

End Cbp.

(** ** Cleanup job *)

Module Cleanup.

(** [.select('id').order('started_at', { ascending: false }).limit(100)] *)
Definition recordsToKeep (table : list SyncStatus.t) : list SyncStatus.t :=
  take 100 (sort_by (fun a b => (instant (SyncStatus.started_at b)
                                 <=? instant (SyncStatus.started_at a))%Z) table).

(** [.delete().not('id', 'in', keepIds)]: what stays. *)
Definition kept (keepIds : list Z) (table : list SyncStatus.t) : list SyncStatus.t :=
  List.filter (fun r => existsb (Z.eqb (SyncStatus.id r)) keepIds) table.

(** [cleanupSyncRecords()]; the two arguments are the errors, if any, the
    store answers the select and the delete with. *)
Definition cleanupSyncRecords (fetchError deleteError : option string) : Action unit :=
  match fetchError with
  | Some e => throw (StoreError e)
  | None =>
      let* keep := gets (fun s => recordsToKeep (sync_status s)) in
      match keep with
      | [] => ret tt
      | _ =>
          let keepIds := map SyncStatus.id keep in
          match deleteError with
          | Some e => throw (StoreError e)
          | None => modify (fun s => with_sync_status (kept keepIds (sync_status s)) s)
          end
      end
  end.

End Cleanup.

(** ** Frames of actions *)

(** The action never changes what [view] shows of the store, whether it
    succeeds or throws. *)
Definition keeps {A B} (view : Store -> B) (m : Action A) : Prop :=
  forall s, view (snd (m s)) = view s.

(** A sync record closed as failed. *)
Definition closed_as_failed (finish : Env) (message : string) (r : SyncStatus.t)
  : SyncStatus.t :=
  SyncStatus.mk (SyncStatus.id r) (SyncStatus.type r) failed (SyncStatus.started_at r)
    (Some (Iso (now finish))) (Some message).

(** The row the updates sync stores for a notice. *)
Definition stored_from (notice : Notice.t) (u : TradeUpdate.t) : Prop :=
  TradeUpdate.source_reference u = Notice.document_number notice
  /\ TradeUpdate.title u = Notice.title notice
  /\ TradeUpdate.description u = Notice.abstract notice
  /\ TradeUpdate.impact u = SyncUpdates.determineImpactLevel notice
  /\ TradeUpdate.published_date u = Notice.publication_date notice.

(** ** Further scenarios *)

Module Samples.

(** A tariff record an earlier run left 'running'. *)
Definition stuck : SyncStatus.t :=
  SyncStatus.mk 1 tariffs_sync running (Iso 500) None None.

Definition stuck_store : Store :=
  {| tariff_rates := []; sync_status := [stuck]; trade_updates := [];
     user_watchlists := []; notifications := []; products := [Scenario.horses];
     countries := [Scenario.china]; emitted := [] |}.

(** The store refuses one kind of request. *)
Definition refusing (op : DbOp) (t : Z) : Env :=
  {| now := t;
     db_error := fun asked =>
       match op, asked with
       | SelectCountries, SelectCountries | SelectProducts, SelectProducts
       | SelectTradeUpdates, SelectTradeUpdates | InsertTradeUpdate, InsertTradeUpdate
       | SelectWatchlist, SelectWatchlist | InsertNotifications, InsertNotifications
       | SelectTariffRate, SelectTariffRate | UpdateSyncStatus, UpdateSyncStatus =>
           Some "connection lost"
       | _, _ => None
       end;
     localTZA := fun _ _ => 0 |}.

(** A tariff run whose countries request is refused. *)
Definition blocked_run : SyncTariffs.Run :=
  {| SyncTariffs.setup := refusing SelectCountries 1000;
     SyncTariffs.agreements := Ok [];
     SyncTariffs.retries := 3;
     SyncTariffs.batchSize := 100;
     SyncTariffs.attempt_env := fun _ _ => healthy 2000;
     SyncTariffs.finish := healthy 3000 |}.

(** A notice that names a product code, and one without an abstract. *)
Definition horse_notice : Notice.t :=
  Notice.mk "2025-00077" "Tariff modification"
    (Some "Rates for 0101.21.0000 change with immediate effect.") (Iso 900)
    "https://example.test/2025-00077".

Definition bare_notice : Notice.t :=
  Notice.mk "2025-00078" "Notice of hearing" None (Iso 901)
    "https://example.test/2025-00078".

Definition updates_run (fetched : list Notice.t) : SyncUpdates.Run :=
  {| SyncUpdates.setup := healthy 5000;
     SyncUpdates.notices := Ok fetched;
     SyncUpdates.finish := healthy 5001 |}.

(** A product at 1.4 percent, an earlier total of 0.4 for the pair, and
    one watcher. *)
Definition gauges : Product.t :=
  Product.mk "p3" "9026.20.4000" "Pressure gauges" "Instruments" (parseFloat "1.4")
    (Some []) (Iso 0).

Definition gauges_store : Store :=
  {| tariff_rates :=
       [TariffRate.mk "p3" "c1" (parseFloat "0.4") [] (parseFloat "0.4") (Iso 100) (Iso 100)];
     sync_status := []; trade_updates := [];
     user_watchlists := [Watchlist.mk "u1" "p3" true];
     notifications := []; products := []; countries := [Scenario.china];
     emitted := [] |}.

(** Two snapshots of a product: the rate moves from 5 to 6, a second
    ruling is listed, the exclusions stay as they are. *)
Definition before : JsObject :=
  [("name", JStr "Horses"); ("total_rate", JNum (Fin (Q2Qc 5)));
   ("rulings", JArr [JStr "N301245"]); ("exclusions", JArr [JStr "X-17"])].

Definition after : JsObject :=
  [("name", JStr "Horses"); ("total_rate", JNum (Fin (Q2Qc 6)));
   ("rulings", JArr [JStr "N301245"; JStr "N305512"]);
   ("exclusions", JArr [JStr "X-17"])].

(** An updates run whose closing update the store refuses. *)
Definition unanswered_run (fetched : list Notice.t) : SyncUpdates.Run :=
  {| SyncUpdates.setup := healthy 5000;
     SyncUpdates.notices := Ok fetched;
     SyncUpdates.finish := refusing UpdateSyncStatus 5001 |}.

(** A host whose clocks went back an hour three days before now: local
    time is two hours ahead of UTC before the change and one hour after
    it. *)
Definition autumn : Env :=
  {| now := Scenario.t0;
     db_error := fun _ => None;
     localTZA := fun t _ =>
       if (t <? Scenario.t0 - 3 * msPerDay)%Z then 2 * 3600000 else 3600000 |}.

(** A product sync with nothing to report from upstream. *)
Definition products_run : SyncProducts.Run :=
  {| SyncProducts.setup := healthy (Scenario.t0);
     SyncProducts.retries := 3;
     SyncProducts.batchSize := 100;
     SyncProducts.chapter_data := fun _ _ => Err "unavailable";
     SyncProducts.attempt_env := fun _ _ => healthy (Scenario.t0 + 1);
     SyncProducts.finish := healthy (Scenario.t0 + 2) |}.

End Samples.

(** ** Cached fetches *)

(** A fetch answers from the cache what it has once fetched (while the
    entry lives), and a failed fetch leaves the cache as it was. *)
Definition caches_answers
    (fetch : SourceClients.Cache -> SourceClients.Upstream
             -> Result JsValue * SourceClients.Cache) : Prop :=
  (forall cache first second,
      is_ok (fst (fetch cache first)) = true ->
      fetch (snd (fetch cache first)) second = fetch cache first)
  /\ (forall cache upstream,
        is_ok (fst (fetch cache upstream)) = false ->
        snd (fetch cache upstream) = cache).


(** * Properties *)

(** ** Arithmetic of [number] *)

Section NumberFacts.

Lemma add_zero_r (a : number) : add a zero = a.
Proof.
  destruct a as [q| | |]; reflexivity.
Qed.

Lemma add_zero_l (a : number) : add zero a = a.
Proof.
  destruct a as [q| | |]; try reflexivity.
  unfold add, zero.
  destruct (Qc_eq_dec q 0) as [->|_]; reflexivity.
Qed.

(** An addition whose exact result is a double does not round. *)
Lemma add_exact (x y : Qc) :
  representable (x + y)%Qc -> add (Fin x) (Fin y) = Fin (x + y)%Qc.
Proof.
  intros Hsum. unfold add.
  destruct (Qc_eq_dec y 0) as [->|_]; [f_equal; ring|].
  destruct (Qc_eq_dec x 0) as [->|_]; [f_equal; ring|].
  exact Hsum.
Qed.

(** Numbers the strict comparison equates are the same number. *)
Lemma number_strict_eq_eq (a b : number) : number_strict_eq a b = true -> a = b.
Proof.
  destruct a as [x| | |], b as [y| | |]; simpl; try discriminate; try reflexivity.
  destruct (Qc_eq_dec x y) as [->|_]; [reflexivity | discriminate].
Qed.

Lemma number_strict_eq_neq (a b : number) : number_strict_eq a b = false -> a <> NaN -> a <> b.
Proof.
  intros Hdiffer Hnan <-. destruct a as [x| | |]; simpl in Hdiffer; try discriminate.
  - destruct (Qc_eq_dec x x) as [_|Hne]; [discriminate | contradiction].
  - contradiction.
Qed.

Lemma or_zero_parse (v : JsValue) :
  or_zero (parseFloat_of_String v) = default zero (Spec.parseNumeric v).
Proof.
  unfold or_zero, Spec.parseNumeric.
  destruct (parseFloat_of_String v) as [q| | |]; simpl; try reflexivity.
  destruct (Qc_eq_dec q 0) as [->|]; reflexivity.
Qed.

Lemma rate_of_contribution (rate : JsObject) :
  Aggregator.rate_of rate = Spec.contribution rate.
Proof. apply or_zero_parse. Qed.

(** The loop of the aggregator adds the contributions in list order. *)
Lemma totalRate_running (baseRate : number) (additionalRates : list JsObject) :
  Aggregator.totalRate baseRate additionalRates
  = Spec.running_total baseRate additionalRates.
Proof.
  unfold Aggregator.totalRate, Spec.running_total.
  revert baseRate. induction additionalRates as [|rate rest IH]; intros acc; simpl.
  - reflexivity.
  - rewrite rate_of_contribution. apply IH.
Qed.

(** When no addition rounds, the running total is the exact sum. *)
Lemma running_total_exact (additionalRates : list JsObject) :
  forall (base : Qc) (values : list Qc),
    map Spec.contribution additionalRates = map Fin values ->
    Spec.sums_exactly base values ->
    Spec.running_total (Fin base) additionalRates = Fin (Spec.exact_total base values).
Proof.
  unfold Spec.running_total, Spec.exact_total.
  induction additionalRates as [|rate rest IH]; intros base [|v values] Hvalues Hexact;
    try discriminate Hvalues.
  - reflexivity.
  - cbn [map] in Hvalues. injection Hvalues as Hv Hrest.
    destruct Hexact as [Hsum Hexact].
    cbn [map fold_left]. rewrite Hv, (add_exact _ _ Hsum).
    apply IH; assumption.
Qed.

End NumberFacts.

(** The rounding agrees with the machine's on the sums and differences
    the scenarios below turn on, and at the ends of the range. *)
Example binary64_agreement :
  parseFloat "0.1" = of_float 0x1.999999999999ap-4
  /\ add (parseFloat "0.1") (parseFloat "0.2")
     = of_float (0x1.999999999999ap-4 + 0x1.999999999999ap-3)
  /\ add (add (parseFloat "0.1") (parseFloat "0.2")) (parseFloat "0.3")
     = of_float (0x1.999999999999ap-4 + 0x1.999999999999ap-3 + 0x1.3333333333333p-2)
  /\ add (parseFloat "0.1") (add (parseFloat "0.2") (parseFloat "0.3"))
     = of_float (0x1.999999999999ap-4 + (0x1.999999999999ap-3 + 0x1.3333333333333p-2))
  /\ sub (parseFloat "1.4") (parseFloat "0.4")
     = of_float (0x1.6666666666666p+0 - 0x1.999999999999ap-2)
  /\ add (parseFloat "9007199254740992") one = of_float (0x1p+53 + 1)
  /\ add (parseFloat "9007199254740994") one = of_float (0x1.0000000000001p+53 + 1)
  /\ parseFloat "1.7976931348623157e308" = of_float 0x1.fffffffffffffp+1023
  /\ parseFloat "1.7976931348623159e308" = of_float infinity
  /\ add (parseFloat "1e308") (parseFloat "1e308")
     = of_float (0x1.1ccf385ebc8ap+1023 + 0x1.1ccf385ebc8ap+1023)
  /\ parseFloat "0.3" = of_float 0x1.3333333333333p-2
  /\ parseFloat "1e308" = of_float 0x1.1ccf385ebc8ap+1023
  /\ parseFloat "1e-18" = of_float 0x1.2725dd1d243acp-60
  /\ parseFloat "5e-324" = of_float 0x0.0000000000001p-1022
  /\ parseFloat "2e-324" = of_float 0
  /\ sub one (parseFloat "1e-18") = of_float (1 - 0x1.2725dd1d243acp-60).
Proof.
  repeat split; apply number_strict_eq_eq; vm_compute; reflexivity.
Qed.

(** Two lists of concrete numbers are equal, item by item. *)
Ltac numbers_equal :=
  vm_compute;
  repeat (apply (f_equal2 cons); [apply number_strict_eq_eq; vm_compute; reflexivity|]);
  reflexivity.

(** ** The upsert of tariff rates *)

Section UpsertFacts.

Lemma same_key_refl (r : TariffRate.t) : Aggregator.same_key r r = true.
Proof.
  unfold Aggregator.same_key, IsoDate_eqb.
  rewrite !String.eqb_refl, Z.eqb_refl. reflexivity.
Qed.

Lemma same_key_sym (a b : TariffRate.t) :
  Aggregator.same_key a b = Aggregator.same_key b a.
Proof.
  unfold Aggregator.same_key, IsoDate_eqb.
  rewrite (String.eqb_sym (TariffRate.product_id a)),
          (String.eqb_sym (TariffRate.country_id a)),
          (Z.eqb_sym (instant (TariffRate.effective_date a))).
  reflexivity.
Qed.

Lemma same_key_trans (a b c : TariffRate.t) :
  Aggregator.same_key a b = true -> Aggregator.same_key b c = true ->
  Aggregator.same_key a c = true.
Proof.
  unfold Aggregator.same_key, IsoDate_eqb.
  rewrite !andb_true_iff, !String.eqb_eq, !Z.eqb_eq.
  intros [[-> ->] ->] [[-> ->] ->]. auto.
Qed.

Lemma upsert_In (row : TariffRate.t) (table : list TariffRate.t) :
  In row (Aggregator.upsert row table).
Proof.
  induction table as [|r rest IH]; simpl.
  - left. reflexivity.
  - destruct (Aggregator.same_key r row); [left; reflexivity | right; exact IH].
Qed.

Lemma upsert_idem (row : TariffRate.t) (table : list TariffRate.t) :
  Aggregator.upsert row (Aggregator.upsert row table) = Aggregator.upsert row table.
Proof.
  induction table as [|r rest IH]; simpl.
  - rewrite same_key_refl. reflexivity.
  - destruct (Aggregator.same_key r row) eqn:E; simpl.
    + rewrite same_key_refl. reflexivity.
    + rewrite E, IH. reflexivity.
Qed.

Lemma upsert_other_rows (row r' : TariffRate.t) (table : list TariffRate.t) :
  In r' (Aggregator.upsert row table) -> r' = row \/ In r' table.
Proof.
  induction table as [|r rest IH]; simpl.
  - intros [<-|[]]. left. reflexivity.
  - destruct (Aggregator.same_key r row); simpl.
    + intros [<-|H]; auto.
    + intros [<-|H]; auto. destruct (IH H); auto.
Qed.

Lemma upsert_unique (row : TariffRate.t) (table : list TariffRate.t) :
  Aggregator.unique_keys table -> Aggregator.unique_keys (Aggregator.upsert row table).
Proof.
  induction table as [|r rest IH]; simpl.
  - intros _. split; [intros ? [] | exact I].
  - intros [Hr Hrest].
    destruct (Aggregator.same_key r row) eqn:E; simpl.
    + split; [|exact Hrest].
      intros r' Hin. specialize (Hr r' Hin).
      destruct (Aggregator.same_key row r') eqn:E'; [|reflexivity].
      rewrite <- Hr. symmetry. apply (same_key_trans r row r' E E').
    + split; [|apply IH; exact Hrest].
      intros r' Hin. destruct (upsert_other_rows _ _ _ Hin) as [->|Hin'].
      * exact E.
      * apply Hr. exact Hin'.
Qed.

Lemma filter_none {A} (f : A -> bool) (xs : list A) :
  (forall x, In x xs -> f x = false) -> List.filter f xs = [].
Proof.
  induction xs as [|x rest IH]; simpl; intros H; [reflexivity|].
  rewrite (H x (or_introl eq_refl)). apply IH. intros y Hy. apply H. right. exact Hy.
Qed.

(** Under the unique constraint, the rows matching the key of an upserted
    row are that row alone. *)
Lemma upsert_rows_with_key (row : TariffRate.t) (table : list TariffRate.t) :
  Aggregator.unique_keys table ->
  List.filter (fun r => Aggregator.same_key r row) (Aggregator.upsert row table) = [row].
Proof.
  induction table as [|r rest IH]; simpl.
  - intros _. rewrite same_key_refl. reflexivity.
  - intros [Hr Hrest].
    destruct (Aggregator.same_key r row) eqn:E; simpl.
    + rewrite same_key_refl. f_equal.
      apply filter_none. intros r' Hin.
      specialize (Hr r' Hin).
      destruct (Aggregator.same_key r' row) eqn:E'; [|reflexivity].
      rewrite <- Hr. symmetry. apply (same_key_trans r row r' E).
      rewrite same_key_sym. exact E'.
    + rewrite E. apply IH. exact Hrest.
Qed.

Lemma rows_at_same_key (productId countryId : string) (effectiveDate : IsoDate)
    (row : TariffRate.t) (table : list TariffRate.t) :
  TariffRate.product_id row = productId ->
  TariffRate.country_id row = countryId ->
  TariffRate.effective_date row = effectiveDate ->
  Aggregator.rows_at productId countryId effectiveDate table
  = List.filter (fun r => Aggregator.same_key r row) table.
Proof.
  intros <- <- <-. reflexivity.
Qed.

End UpsertFacts.

(** ** Aggregator *)

Example total_rate_scenario :
  Aggregator.totalRate (Fin (Q2Qc 5)) [[("rate", JStr "2.5")]; [("rate", JStr "abc")]]
  = Fin (Q2Qc (15 # 2)).
Proof.
  apply number_strict_eq_eq. vm_compute. reflexivity.
Qed.

(** C1 (as amended). For every base rate and every list of additional
    rates, when the store accepts the upsert, [updateTariffRates] succeeds
    and the row it persists carries as [total_rate] the base rate to which
    the numeric parses of the rate fields have been added one after the
    other, in the order of the list and in double precision, a non-numeric
    rate contributing 0. When no addition rounds, this is the exact sum
    [baseRate + sum of the parses]; with base rate 5.0 and rates "2.5" and
    "abc" it is 7.5. *)
Theorem updateTariffRates_total_rate
    (env : Env) (productId countryId : string) (baseRate : number)
    (additionalRates : list JsObject) (effectiveDate : IsoDate) (s : Store) :
  db_error env UpsertTariffRate = None ->
  exists s',
    Aggregator.updateTariffRates env productId countryId baseRate additionalRates
      effectiveDate s = (Ok tt, s')
    /\ In (TariffRate.mk productId countryId baseRate additionalRates
             (Spec.running_total baseRate additionalRates) effectiveDate (Iso (now env)))
          (tariff_rates s')
    /\ (forall (base : Qc) (values : list Qc),
          baseRate = Fin base ->
          map Spec.contribution additionalRates = map Fin values ->
          Spec.sums_exactly base values ->
          Spec.running_total baseRate additionalRates
          = Fin (Spec.exact_total base values))
    /\ Spec.running_total (Fin (Q2Qc 5))
         [[("rate", JStr "2.5")]; [("rate", JStr "abc")]] = Fin (Q2Qc (15 # 2)).
Proof.
  intros Hdb.
  unfold Aggregator.updateTariffRates, bind, check, modify. rewrite Hdb.
  eexists. split; [reflexivity|]. split; [|split].
  - cbn [tariff_rates with_tariff_rates]. rewrite totalRate_running. apply upsert_In.
  - intros base values -> Hvalues Hexact. apply running_total_exact; assumption.
  - rewrite <- totalRate_running. exact total_rate_scenario.
Qed.

Lemma updateTariffRates_total_rate_witness :
  exists s',
    Aggregator.updateTariffRates (healthy 1000) "p1" "us" (Fin (Q2Qc 5))
      [[("rate", JStr "2.5")]; [("rate", JStr "abc")]] (Iso 1000)
      {| tariff_rates := []; sync_status := []; trade_updates := [];
         user_watchlists := []; notifications := []; products := [];
         countries := []; emitted := [] |} = (Ok tt, s')
    /\ In (TariffRate.mk "p1" "us" (Fin (Q2Qc 5))
             [[("rate", JStr "2.5")]; [("rate", JStr "abc")]]
             (Spec.running_total (Fin (Q2Qc 5))
                [[("rate", JStr "2.5")]; [("rate", JStr "abc")]])
             (Iso 1000) (Iso (now (healthy 1000))))
          (tariff_rates s')
    /\ (forall (base : Qc) (values : list Qc),
          Fin (Q2Qc 5) = Fin base ->
          map Spec.contribution [[("rate", JStr "2.5")]; [("rate", JStr "abc")]]
          = map Fin values ->
          Spec.sums_exactly base values ->
          Spec.running_total (Fin (Q2Qc 5))
            [[("rate", JStr "2.5")]; [("rate", JStr "abc")]]
          = Fin (Spec.exact_total base values))
    /\ Spec.running_total (Fin (Q2Qc 5))
         [[("rate", JStr "2.5")]; [("rate", JStr "abc")]] = Fin (Q2Qc (15 # 2)).
Proof.
  apply (updateTariffRates_total_rate (healthy 1000)). reflexivity.
Defined.

(** C1 (as stated) fails: the additions are floating-point ones. With base
    rate 0.1 and the rate "0.2" the persisted total is
    0.30000000000000004, not 0.3; with the rates "0.2" and "0.3" it is
    0.6000000000000001, while the base rate plus the sum of the two
    entries is 0.6. *)
Lemma updateTariffRates_total_is_rounded :
  (exists s',
      Aggregator.updateTariffRates (healthy 1000) "p1" "us" (parseFloat "0.1")
        [[("rate", JStr "0.2")]] (Iso 1000) Scenario.empty_store = (Ok tt, s')
      /\ map TariffRate.total_rate (tariff_rates s') = [parseFloat "0.30000000000000004"])
  /\ parseFloat "0.30000000000000004" <> parseFloat "0.3"
  /\ (exists s',
        Aggregator.updateTariffRates (healthy 1000) "p1" "us" (parseFloat "0.1")
          [[("rate", JStr "0.2")]; [("rate", JStr "0.3")]] (Iso 1000) Scenario.empty_store
        = (Ok tt, s')
        /\ map TariffRate.total_rate (tariff_rates s') = [parseFloat "0.6000000000000001"])
  /\ Spec.total_rate (parseFloat "0.1") [[("rate", JStr "0.2")]; [("rate", JStr "0.3")]]
     = parseFloat "0.6"
  /\ parseFloat "0.6000000000000001" <> parseFloat "0.6".
Proof.
  split; [|split; [|split; [|split]]].
  - eexists. split; [reflexivity|]. numbers_equal.
  - apply number_strict_eq_neq; [vm_compute; reflexivity|].
    intros H. vm_compute in H. discriminate H.
  - eexists. split; [reflexivity|]. numbers_equal.
  - apply number_strict_eq_eq. vm_compute. reflexivity.
  - apply number_strict_eq_neq; [vm_compute; reflexivity|].
    intros H. vm_compute in H. discriminate H.
Qed.

Lemma notify_keeps_tariff_rates (env : Env) (data : NotificationData) (s : Store) :
  tariff_rates (snd (NotificationService.notifyProductWatchers env data s)) = tariff_rates s.
Proof.
  unfold NotificationService.notifyProductWatchers, bind, check, modify, gets, throw, ret.
  cbn [fst snd].
  destruct (nd_productId data) as [productId|]; [|reflexivity].
  destruct (String.eqb productId ""); [reflexivity|].
  destruct (db_error env SelectWatchlist); [reflexivity|].
  cbn [user_watchlists with_emitted].
  destruct (NotificationService.watchers productId (user_watchlists s)); [reflexivity|].
  destruct (db_error env InsertNotifications); reflexivity.
Qed.

(** Delivering the work of one pair a second time at the same instant
    writes the row it wrote the first time. *)
Lemma tariffItem_again (env : Env) (agreementsOf : gmap string (list string))
    (product : Product.t) (country : Country.t) (s : Store) :
  let once := snd (SyncTariffs.tariffItem env agreementsOf product country s) in
  tariff_rates (snd (SyncTariffs.tariffItem env agreementsOf product country once))
  = tariff_rates once.
Proof.
  unfold SyncTariffs.tariffItem, SyncTariffs.readPrevTotalRate,
    Aggregator.updateTariffRates.
  unfold bind, check, modify, gets, throw, ret. cbn [fst snd].
  destruct (SyncTariffs.rates_for agreementsOf product country) as [rates|e];
    [|reflexivity].
  destruct (db_error env UpsertTariffRate); [reflexivity|].
  cbv zeta.
  repeat match goal with
         | |- context [if ?c then _ else _] => destruct c
         end;
    cbn [fst snd tariff_rates with_tariff_rates];
    rewrite ?notify_keeps_tariff_rates;
    cbn [fst snd tariff_rates with_tariff_rates];
    rewrite ?notify_keeps_tariff_rates;
    cbn [fst snd tariff_rates with_tariff_rates];
    rewrite ?upsert_idem; reflexivity.
Qed.

(** C4 (as amended). Two upserts under the same (product, country,
    effective_date) key leave exactly one row for the key, the second
    payload; and the per-item work of the tariff sync, delivered again with
    the same effective date, leaves the stored rows as they were. *)
Theorem tariff_upsert_converges_on_key
    (env1 env2 : Env) (productId countryId : string) (effectiveDate : IsoDate)
    (base1 base2 : number) (rates1 rates2 : list JsObject) (s : Store) :
  Aggregator.unique_keys (tariff_rates s) ->
  db_error env1 UpsertTariffRate = None ->
  db_error env2 UpsertTariffRate = None ->
  (exists s1 s2,
      Aggregator.updateTariffRates env1 productId countryId base1 rates1 effectiveDate s
      = (Ok tt, s1)
      /\ Aggregator.updateTariffRates env2 productId countryId base2 rates2 effectiveDate s1
         = (Ok tt, s2)
      /\ Aggregator.rows_at productId countryId effectiveDate (tariff_rates s2)
         = [TariffRate.mk productId countryId base2 rates2
              (Aggregator.totalRate base2 rates2) effectiveDate (Iso (now env2))])
  /\ (forall agreementsOf product country,
        let once := snd (SyncTariffs.tariffItem env1 agreementsOf product country s) in
        tariff_rates (snd (SyncTariffs.tariffItem env1 agreementsOf product country once))
        = tariff_rates once).
Proof.
  intros Hunique H1 H2. split.
  - unfold Aggregator.updateTariffRates, bind, check, modify. rewrite H1, H2.
    eexists. eexists. split; [reflexivity|]. split; [reflexivity|].
    cbn [tariff_rates with_tariff_rates].
    set (row2 := TariffRate.mk productId countryId base2 rates2 _ _ _).
    rewrite (rows_at_same_key productId countryId effectiveDate row2) by reflexivity.
    apply upsert_rows_with_key. apply upsert_unique. exact Hunique.
  - intros agreementsOf product country. apply tariffItem_again.
Qed.

Lemma tariff_upsert_converges_on_key_witness :
  (exists s1 s2,
      Aggregator.updateTariffRates (healthy 1000) "p1" "c1" (Fin (Q2Qc 5)) [] (Iso 0)
        Scenario.empty_store = (Ok tt, s1)
      /\ Aggregator.updateTariffRates (healthy 2000) "p1" "c1" (Fin (Q2Qc 6))
           [[("rate", JStr "1")]] (Iso 0) s1 = (Ok tt, s2)
      /\ Aggregator.rows_at "p1" "c1" (Iso 0) (tariff_rates s2)
         = [TariffRate.mk "p1" "c1" (Fin (Q2Qc 6)) [[("rate", JStr "1")]]
              (Aggregator.totalRate (Fin (Q2Qc 6)) [[("rate", JStr "1")]])
              (Iso 0) (Iso (now (healthy 2000)))])
  /\ (forall agreementsOf product country,
        let once := snd (SyncTariffs.tariffItem (healthy 1000) agreementsOf product country
                           Scenario.empty_store) in
        tariff_rates (snd (SyncTariffs.tariffItem (healthy 1000) agreementsOf product
                             country once))
        = tariff_rates once).
Proof.
  apply (tariff_upsert_converges_on_key (healthy 1000) (healthy 2000));
    [exact I | reflexivity | reflexivity].
Defined.

(** C4 (as stated) fails: the work of a pair stamps its row with the
    instant of the attempt, so an attempt that fails after the upsert and is
    retried later stores a second row; the retried work ends with three rows
    for the pair where a single delivery ends with two. *)
Lemma tariff_retry_adds_a_row :
  exists made s',
    RetryQueue.pRetry Scenario.interrupted_item 3 (fun _ s => s) Scenario.watched_store
    = (Ok tt, made, s')
    /\ length made = 2%nat
    /\ length (Spec.stored_for "p1" "c1" s') = 3%nat
    /\ length (Spec.stored_for "p1" "c1"
                 (snd (SyncTariffs.tariffItem (healthy 1000) ∅ Scenario.horses
                         Scenario.china Scenario.watched_store))) = 2%nat.
Proof.
  eexists. eexists. split; [vm_compute; reflexivity|].
  split; [reflexivity|]. split; vm_compute; reflexivity.
Qed.

(** ** Objects *)

Section ObjectFacts.

Lemma strict_eq_JStr (v : JsValue) (text : string) :
  strict_eq v (JStr text) = true <-> v = JStr text.
Proof.
  destruct v; simpl; split; try discriminate.
  - intros H. apply String.eqb_eq in H. subst. reflexivity.
  - intros [= ->]. apply String.eqb_refl.
Qed.

Lemma field_set_field (o : JsObject) (k : string) (v : JsValue) :
  field (set_field o k v) k = v.
Proof.
  induction o as [|[k' v'] rest IH]; simpl.
  - rewrite String.eqb_refl. reflexivity.
  - destruct (String.eqb k' k) eqn:E; simpl; rewrite E; [reflexivity | exact IH].
Qed.

Lemma field_set_field_other (o : JsObject) (k k' : string) (v : JsValue) :
  k' <> k -> field (set_field o k v) k' = field o k'.
Proof.
  intros Hne. induction o as [|[k0 v0] rest IH]; simpl.
  - destruct (String.eqb k k') eqn:E; [|reflexivity].
    apply String.eqb_eq in E. congruence.
  - destruct (String.eqb k0 k) eqn:E; simpl.
    + apply String.eqb_eq in E. subst k0.
      destruct (String.eqb k k') eqn:E'; [|reflexivity].
      apply String.eqb_eq in E'. congruence.
    + rewrite IH. reflexivity.
Qed.

Lemma includes_string_In (x : string) (xs : list string) :
  includes_string x xs = true <-> In x xs.
Proof.
  unfold includes_string. rewrite existsb_exists. split.
  - intros [y [Hin Heq]]. apply String.eqb_eq in Heq. subst. exact Hin.
  - intros Hin. exists x. split; [exact Hin | apply String.eqb_refl].
Qed.

End ObjectFacts.

(** ** Trade-agreement adjustment *)

(** C10. [adjustRatesForTradeAgreements] returns a list of the length of its
    input; an entry whose type is not 'standard' is returned unchanged;
    without 'FTA' among the codes the whole list is returned unchanged; and
    an entry that does change is a 'standard' entry whose [rate] field
    became 0, every other field keeping its value. *)
Theorem adjustRatesForTradeAgreements_frame
    (rates : list JsObject) (agreementCodes : list string) :
  let adjusted := SyncTariffs.adjustRatesForTradeAgreements rates agreementCodes in
  length adjusted = length rates
  /\ (forall i rate,
        nth_error rates i = Some rate ->
        field rate "type" <> JStr "standard" ->
        nth_error adjusted i = Some rate)
  /\ (~ In "FTA" agreementCodes -> adjusted = rates)
  /\ (forall i rate rate',
        nth_error rates i = Some rate ->
        nth_error adjusted i = Some rate' ->
        (forall k, k <> "rate" -> field rate' k = field rate k)
        /\ (rate' = rate
            \/ (field rate "type" = JStr "standard"
                /\ field rate' "rate" = JNum zero
                /\ rate' = set_field rate "rate" (JNum zero)))).
Proof.
  unfold SyncTariffs.adjustRatesForTradeAgreements. cbv zeta.
  destruct (includes_string "FTA" agreementCodes) eqn:Hfta.
  - split; [apply length_map|]. split; [|split].
    + intros i rate Hi Htype. rewrite nth_error_map, Hi. simpl.
      destruct (strict_eq (field rate "type") (JStr "standard")) eqn:E; [|reflexivity].
      apply strict_eq_JStr in E. contradiction.
    + intros Hnot. apply includes_string_In in Hfta. contradiction.
    + intros i rate rate' Hi Hi'. rewrite nth_error_map, Hi in Hi'. simpl in Hi'.
      injection Hi' as <-.
      destruct (strict_eq (field rate "type") (JStr "standard")) eqn:E.
      * apply strict_eq_JStr in E. split.
        -- intros k Hk. apply field_set_field_other. exact Hk.
        -- right. split; [exact E|]. split; [apply field_set_field | reflexivity].
      * split; [reflexivity | left; reflexivity].
  - split; [reflexivity|]. split; [|split].
    + intros i rate Hi _. exact Hi.
    + reflexivity.
    + intros i rate rate' Hi Hi'. rewrite Hi in Hi'. injection Hi' as <-.
      split; [reflexivity | left; reflexivity].
Qed.

Lemma adjustRatesForTradeAgreements_frame_witness :
  SyncTariffs.adjustRatesForTradeAgreements
    [[("type", JStr "standard"); ("rate", JStr "7.5")];
     [("type", JStr "section301"); ("rate", JNum one)]] ["USMCA"]
  = [[("type", JStr "standard"); ("rate", JStr "7.5")];
     [("type", JStr "section301"); ("rate", JNum one)]].
Proof.
  apply (adjustRatesForTradeAgreements_frame
           [[("type", JStr "standard"); ("rate", JStr "7.5")];
            [("type", JStr "section301"); ("rate", JNum one)]] ["USMCA"]).
  intros [H|[]]. discriminate H.
Defined.

(** ** Notifications of the tariff sync *)

Section TariffNotification.

Lemma notify_emitted (env : Env) (data : NotificationData) (s : Store) :
  emitted (snd (NotificationService.notifyProductWatchers env data s))
  = emitted s ++ [data].
Proof.
  unfold NotificationService.notifyProductWatchers, bind, check, modify, gets, throw, ret.
  cbn [fst snd].
  destruct (nd_productId data) as [productId|]; [|reflexivity].
  destruct (String.eqb productId ""); [reflexivity|].
  destruct (db_error env SelectWatchlist); [reflexivity|].
  cbn [user_watchlists with_emitted].
  destruct (NotificationService.watchers productId (user_watchlists s)); [reflexivity|].
  destruct (db_error env InsertNotifications); reflexivity.
Qed.

Lemma app_one_neq {A} (xs : list A) (x : A) : xs ++ [x] <> xs.
Proof.
  intros H. apply (f_equal (@length A)) in H. rewrite length_app in H. simpl in H. lia.
Qed.

(** When the subtraction does not round, the test is the absolute
    difference being at least 1. *)
Lemma changed_significantly_finite (prev total : Qc) :
  representable (total - prev)%Qc ->
  (SyncTariffs.changed_significantly (Some (Fin prev)) (Fin total) = true
   <-> (1 <= total - prev \/ total - prev <= - (1))%Qc).
Proof.
  intros Hexact.
  unfold SyncTariffs.changed_significantly, sub, neg.
  rewrite (add_exact total (- prev) Hexact).
  unfold abs, ge, one.
  replace (total + - prev)%Qc with (total - prev)%Qc by reflexivity.
  destruct (Qclt_le_dec (total - prev) 0) as [Hneg|Hpos].
  - destruct (Qclt_le_dec (- (total - prev)) 1) as [Hlt|Hge]; split.
    + discriminate.
    + intros [H|H].
      * exfalso. apply (Qclt_not_le _ _ Hneg).
        apply Qcle_trans with 1%Qc; [discriminate | exact H].
      * exfalso. apply (Qclt_not_le _ _ Hlt).
        apply Qcopp_le_compat in H. rewrite Qcopp_involutive in H. exact H.
    + intros _. right.
      apply Qcopp_le_compat in Hge. rewrite Qcopp_involutive in Hge. exact Hge.
    + reflexivity.
  - destruct (Qclt_le_dec (total - prev) 1) as [Hlt|Hge]; split.
    + discriminate.
    + intros [H|H].
      * exfalso. apply (Qclt_not_le _ _ Hlt). exact H.
      * exfalso. apply (Qclt_not_le (- (1)) 0); [reflexivity|].
        apply Qcle_trans with (total - prev)%Qc; assumption.
    + intros _. left. exact Hge.
    + reflexivity.
Qed.

End TariffNotification.




(** The scenario of the specification, run in full: from 10 to 11.5 one
    notification goes out to the watcher, from 10 to 10.5 none does, and
    without an earlier rate none does either. *)
Example tariff_scenario_notifies :
  let s' := snd (SyncTariffs.tariffItem (healthy 1000) ∅ (Scenario.tools "1.5")
                   Scenario.china Scenario.priced_store) in
  map nd_type (emitted s') = [rate_change]
  /\ map Notification.user_id (notifications s') = ["u1"].
Proof. vm_compute. split; reflexivity. Qed.

Example tariff_scenario_stays_silent :
  let s' := snd (SyncTariffs.tariffItem (healthy 1000) ∅ (Scenario.tools "0.5")
                   Scenario.china Scenario.priced_store) in
  emitted s' = [] /\ notifications s' = [].
Proof. vm_compute. split; reflexivity. Qed.

Example tariff_scenario_first_rate :
  let s' := snd (SyncTariffs.tariffItem (healthy 1000) ∅ (Scenario.tools "1.5")
                   Scenario.china Scenario.empty_store) in
  emitted s' = [] /\ length (tariff_rates s') = 1%nat.
Proof. vm_compute. split; reflexivity. Qed.

(** ** Change diff and watchers *)

Section ChangeDiff.

Variable env : Env.
Variable productId : string.
Hypothesis productId_given : productId <> "".
Hypothesis watchlist_answers : db_error env SelectWatchlist = None.
Hypothesis insert_answers : db_error env InsertNotifications = None.

Local Abbreviation created_for := (NotificationService.created_for env productId).

Lemma notify_healthy (data : NotificationData) (s : Store) :
  nd_productId data = Some productId ->
  let r := NotificationService.notifyProductWatchers env data s in
  fst r = Ok tt
  /\ user_watchlists (snd r) = user_watchlists s
  /\ notifications (snd r) = notifications s ++ created_for data s.
Proof.
  intros Hpid.
  unfold NotificationService.created_for, NotificationService.notifyProductWatchers.
  unfold bind, check, modify, gets, throw, ret.
  rewrite Hpid. cbn [fst snd].
  destruct (String.eqb productId "") eqn:E.
  { apply String.eqb_eq in E. contradiction. }
  rewrite watchlist_answers. cbn [user_watchlists with_emitted].
  destruct (NotificationService.watchers productId (user_watchlists s)) as [|w ws] eqn:EW.
  - cbn. rewrite app_nil_r. auto.
  - rewrite insert_answers. cbn. auto.
Qed.

Lemma step_healthy (c : bool) (data : NotificationData) (s : Store) :
  nd_productId data = Some productId ->
  let r := (if c then NotificationService.notifyProductWatchers env data else ret tt) s in
  fst r = Ok tt
  /\ user_watchlists (snd r) = user_watchlists s
  /\ notifications (snd r) = notifications s ++ (if c then created_for data s else []).
Proof.
  intros Hpid. destruct c.
  - apply notify_healthy. exact Hpid.
  - cbn. rewrite app_nil_r. auto.
Qed.

Lemma received_app (user : string) (type : NotificationType) (xs ys : list Notification.t) :
  Spec.received user type (xs ++ ys)
  = (Spec.received user type xs + Spec.received user type ys)%nat.
Proof.
  unfold Spec.received. rewrite List.filter_app, length_app. reflexivity.
Qed.

Lemma received_created (user : string) (type : NotificationType)
    (data : NotificationData) (s : Store) :
  Spec.received user type (created_for data s)
  = if Spec.NotificationType_eqb (nd_type data) type
    then Spec.watching user productId (user_watchlists s)
    else 0%nat.
Proof.
  unfold Spec.received, Spec.watching, NotificationService.created_for,
    NotificationService.watchers.
  induction (user_watchlists s) as [|w rest IH]; simpl.
  - destruct (Spec.NotificationType_eqb _ _); reflexivity.
  - destruct (String.eqb (Watchlist.product_id w) productId && Watchlist.notify_changes w);
      simpl.
    + destruct (String.eqb (Watchlist.user_id w) user); simpl.
      * destruct (Spec.NotificationType_eqb (nd_type data) type); simpl.
        -- rewrite IH. reflexivity.
        -- exact IH.
      * exact IH.
    + rewrite andb_false_r. exact IH.
Qed.

Lemma received_step (user : string) (type : NotificationType) (c : bool)
    (data : NotificationData) (s : Store) :
  Spec.received user type (if c then created_for data s else [])
  = if (c && Spec.NotificationType_eqb (nd_type data) type)%bool
    then Spec.watching user productId (user_watchlists s)
    else 0%nat.
Proof.
  destruct c; [apply received_created | reflexivity].
Qed.

Local Abbreviation tested := NotificationService.tested.

Lemma checkProductChanges_healthy (shared : bool) (oldData newData : JsObject) (s : Store) :
  exists s' added,
    NotificationService.checkProductChanges env productId shared oldData newData s
    = (Ok tt, s')
    /\ notifications s' = notifications s ++ added
    /\ (forall user type,
          Spec.received user type added
          = if tested shared oldData newData type
            then Spec.watching user productId (user_watchlists s)
            else 0%nat)
    /\ (NotificationService.watchers productId (user_watchlists s) = [] -> added = []).
Proof.
  unfold NotificationService.checkProductChanges. cbv zeta. unfold bind.
  match goal with
  | |- context [(if ?c then NotificationService.notifyProductWatchers env ?d else ret tt) s] =>
      destruct (step_healthy c d s eq_refl) as [H1 [W1 N1]];
      destruct ((if c then NotificationService.notifyProductWatchers env d else ret tt) s)
        as [r1 s1] eqn:E1;
      set (c1 := c) in *; set (d1 := d) in *
  end.
  cbn [fst snd] in H1, W1, N1. subst r1.
  match goal with
  | |- context [(if ?c then NotificationService.notifyProductWatchers env ?d else ret tt) s1] =>
      destruct (step_healthy c d s1 eq_refl) as [H2 [W2 N2]];
      destruct ((if c then NotificationService.notifyProductWatchers env d else ret tt) s1)
        as [r2 s2] eqn:E2;
      set (c2 := c) in *; set (d2 := d) in *
  end.
  cbn [fst snd] in H2, W2, N2. subst r2.
  match goal with
  | |- context [(if ?c then NotificationService.notifyProductWatchers env ?d else ret tt) s2] =>
      destruct (step_healthy c d s2 eq_refl) as [H3 [W3 N3]];
      destruct ((if c then NotificationService.notifyProductWatchers env d else ret tt) s2)
        as [r3 s3] eqn:E3;
      set (c3 := c) in *; set (d3 := d) in *
  end.
  cbn [fst snd] in H3, W3, N3. subst r3.
  exists s3.
  exists ((if c1 then created_for d1 s else [])
          ++ (if c2 then created_for d2 s1 else [])
          ++ (if c3 then created_for d3 s2 else [])).
  split; [reflexivity|]. split; [|split].
  - rewrite N3, N2, N1. rewrite <- !app_assoc. reflexivity.
  - intros user type.
    rewrite !received_app, !received_step. rewrite W2, W1.
    subst c1 c2 c3 d1 d2 d3. cbn [nd_type].
    destruct type; cbn [Spec.NotificationType_eqb NotificationService.tested];
      rewrite ?andb_false_r, ?andb_true_r;
      repeat match goal with
             | |- context [if ?c then _ else _] => destruct c
             end; lia.
  - intros Hnone. unfold NotificationService.created_for. rewrite W2, W1, Hnone. simpl.
    destruct c1, c2, c3; reflexivity.
Qed.

End ChangeDiff.

Section Qualifying.

(** On plain values [!==] is a change of value. *)
Lemma plain_strict_eq (shared : bool) (a b : JsValue) :
  Spec.plain a -> Spec.plain b ->
  (negb (strict_eq_at shared a b) = true <-> a <> b).
Proof.
  intros Ha Hb. rewrite negb_true_iff.
  destruct a as [| |x|x|x|x|x], b as [| |y|y|y|y|y]; cbn in Ha, Hb |- *;
    try contradiction; try (split; [intros _; discriminate | reflexivity]);
    try (split; [discriminate | intros H; exfalso; apply H; reflexivity]).
  - destruct x, y; cbn; split; try discriminate; try reflexivity;
      intros H; exfalso; apply H; reflexivity.
  - destruct (number_strict_eq x y) eqn:Heq.
    + apply number_strict_eq_eq in Heq. subst y.
      split; [discriminate | intros H; exfalso; apply H; reflexivity].
    + split; [|reflexivity]. intros _ [= Hxy].
      apply (number_strict_eq_neq x y Heq); [|exact Hxy].
      intros ->. exact Ha.
  - destruct (String.eqb x y) eqn:Heq.
    + apply String.eqb_eq in Heq. subst y.
      split; [discriminate | intros H; exfalso; apply H; reflexivity].
    + apply String.eqb_neq in Heq. split; [|reflexivity]. intros _ [= Hxy]. contradiction.
Qed.

(** [Array.isArray(v) ? v.length : 0] counts the entries listed. *)
Lemma count_of_listed (snapshot : JsObject) (dimension : string) :
  NotificationService.count_of (field snapshot dimension)
  = length (Spec.listed snapshot dimension).
Proof.
  unfold NotificationService.count_of, Spec.listed.
  destruct (field snapshot dimension); reflexivity.
Qed.

End Qualifying.



(** ** Source clients and malformed payloads *)

Section SourceClientFacts.

Import SourceClients.

Lemma list_fetch_coerces (payload : JsValue) :
  Spec.malformed_list payload -> array_or_empty payload = JArr [].
Proof.
  unfold Spec.malformed_list, array_or_empty. intros ->. reflexivity.
Qed.

Lemma validateHtsChapter_not_object (payload : JsValue) :
  truthy payload = false \/ typeof_object payload = false ->
  validateHtsChapter payload = Err "Invalid HTS chapter data format".
Proof.
  unfold validateHtsChapter. intros [->| ->]; simpl; [reflexivity|].
  rewrite orb_true_r. reflexivity.
Qed.

Lemma validateHtsChapter_missing (fields : JsObject) :
  truthy (field fields "chapter") = false
  \/ truthy (field fields "description") = false
  \/ isArray (field fields "sections") = false ->
  validateHtsChapter (JObj fields) = Err "Missing required fields in HTS chapter data".
Proof.
  unfold validateHtsChapter. cbn [truthy typeof_object negb orb prop].
  intros [H|[H|H]].
  - rewrite H. destruct (field fields "sections"); reflexivity.
  - rewrite H. rewrite orb_true_r. destruct (field fields "sections"); reflexivity.
  - destruct (field fields "sections"); try reflexivity. discriminate H.
Qed.

End SourceClientFacts.




(** ** Retry queue *)

Section RetryQueueFacts.

Variable retries : nat.
Variable onFailedAttempt : string -> Store -> Store.

Local Abbreviation run script :=
  (RetryQueue.pRetry (RetryQueue.scripted script) retries onFailedAttempt).

Lemma attempts_last (task : RetryQueue.Task) (a : nat) (s : Store) :
  RetryQueue.attempts task onFailedAttempt a 0 s
  = match task a s with
    | (Ok v, s') => (Ok v, [Ok v], s')
    | (Err e, s') => (Err e, [Err e], onFailedAttempt (message_of e) s')
    end.
Proof. reflexivity. Qed.

Lemma attempts_more (task : RetryQueue.Task) (a left : nat) (s : Store) :
  RetryQueue.attempts task onFailedAttempt a (S left) s
  = match task a s with
    | (Ok v, s') => (Ok v, [Ok v], s')
    | (Err e, s') =>
        let '(outcome, made, s3) :=
          RetryQueue.attempts task onFailedAttempt (S a) left (onFailedAttempt (message_of e) s') in
        (outcome, Err e :: made, s3)
    end.
Proof. reflexivity. Qed.

(** A scripted task that fails [k] times from attempt [a] on and then
    succeeds, with [k] retries still allowed, succeeds after [k + 1]
    attempts. *)
Lemma attempts_succeed (script : nat -> Result unit) (k : nat) :
  forall a left s,
    (k <= left)%nat ->
    Spec.fails_from script a k ->
    script (a + k)%nat = Ok tt ->
    exists made s',
      RetryQueue.attempts (RetryQueue.scripted script) onFailedAttempt a left s
      = (Ok tt, made, s')
      /\ length made = S k
      /\ Spec.successes made = 1%nat.
Proof.
  induction k as [|k IH]; intros a left s Hle Hfail Hok.
  - rewrite Nat.add_0_r in Hok.
    destruct left; simpl; unfold RetryQueue.scripted; rewrite Hok;
      (eexists; eexists; split; [reflexivity|]; split; reflexivity).
  - destruct left as [|left]; [lia|].
    assert (Hfirst : is_ok (script a) = false) by (apply Hfail; lia).
    rewrite attempts_more. unfold RetryQueue.scripted at 1.
    destruct (script a) as [v|e] eqn:E; [discriminate Hfirst|].
    destruct (IH (S a) left (onFailedAttempt (message_of e) s)) as [made [s' [Hrun [Hlen Hsucc]]]].
    + lia.
    + intros n Hn. apply Hfail. lia.
    + rewrite <- Hok. f_equal. lia.
    + rewrite Hrun.
      eexists. eexists. split; [reflexivity|]. split.
      * simpl. rewrite Hlen. reflexivity.
      * unfold Spec.successes in *. simpl. exact Hsucc.
Qed.

(** A scripted task whose first attempt and every retry fail is
    permanently failed after [left + 1] attempts. *)
Lemma attempts_exhaust (script : nat -> Result unit) (left : nat) :
  forall a s,
    Spec.fails_from script a (S left) ->
    exists e made s',
      RetryQueue.attempts (RetryQueue.scripted script) onFailedAttempt a left s
      = (Err e, made, s')
      /\ length made = S left
      /\ Spec.successes made = 0%nat.
Proof.
  induction left as [|left IH]; intros a s Hfail.
  - assert (Hfirst : is_ok (script a) = false) by (apply Hfail; lia).
    simpl. unfold RetryQueue.scripted.
    destruct (script a) as [v|e]; [discriminate Hfirst|].
    eexists. eexists. eexists. split; [reflexivity|]. split; reflexivity.
  - assert (Hfirst : is_ok (script a) = false) by (apply Hfail; lia).
    rewrite attempts_more. unfold RetryQueue.scripted at 1.
    destruct (script a) as [v|e]; [discriminate Hfirst|].
    destruct (IH (S a) (onFailedAttempt (message_of e) s)) as [e' [made [s' [Hrun [Hlen Hsucc]]]]].
    + intros n Hn. apply Hfail. lia.
    + rewrite Hrun. eexists. eexists. eexists. split; [reflexivity|]. split.
      * simpl. rewrite Hlen. reflexivity.
      * unfold Spec.successes in *. simpl. exact Hsucc.
Qed.

(** The outcome and the attempts of a scripted task do not depend on the
    store it starts from. *)
Lemma attempts_store_independent (script : nat -> Result unit) (left : nat) :
  forall a s1 s2,
    fst (RetryQueue.attempts (RetryQueue.scripted script) onFailedAttempt a left s1)
    = fst (RetryQueue.attempts (RetryQueue.scripted script) onFailedAttempt a left s2).
Proof.
  induction left as [|left IH]; intros a s1 s2;
    rewrite ?attempts_last, ?attempts_more;
    change (RetryQueue.scripted script a s1) with (script a, s1);
    change (RetryQueue.scripted script a s2) with (script a, s2);
    destruct (script a) as [v|e]; try reflexivity.
  specialize (IH (S a) (onFailedAttempt (message_of e) s1) (onFailedAttempt (message_of e) s2)).
  destruct (RetryQueue.attempts _ _ (S a) left (onFailedAttempt (message_of e) s1)) as [[o1 m1] t1].
  destruct (RetryQueue.attempts _ _ (S a) left (onFailedAttempt (message_of e) s2)) as [[o2 m2] t2].
  simpl in *. injection IH as -> ->. reflexivity.
Qed.

Lemma drain_length (queue : RetryQueue.Queue) :
  forall s, length (fst (RetryQueue.drain queue s)) = length queue.
Proof.
  induction queue as [|job rest IH]; intros s; simpl; [reflexivity|].
  destruct (job s) as [[outcome made] s'].
  specialize (IH s'). destruct (RetryQueue.drain rest s') as [others s''].
  simpl in *. rewrite IH. reflexivity.
Qed.

(** In a batch of scripted tasks every task ends with the outcome it has
    when run alone, whatever its siblings do. *)
Lemma drain_scripted (scripts : list (nat -> Result unit)) :
  forall s s0,
    fst (RetryQueue.drain (map (fun script => run script) scripts) s)
    = map (fun script => fst (run script s0)) scripts.
Proof.
  induction scripts as [|script rest IH]; intros s s0; simpl; [reflexivity|].
  pose proof (attempts_store_independent script retries 1 s s0) as Hsame.
  unfold RetryQueue.pRetry.
  destruct (RetryQueue.attempts (RetryQueue.scripted script) onFailedAttempt 1 retries s)
    as [[outcome made] s'].
  specialize (IH s' s0).
  destruct (RetryQueue.drain _ s') as [others s''].
  simpl in *. rewrite IH, <- Hsame. reflexivity.
Qed.

End RetryQueueFacts.

(** C3 (as amended). A task that fails at most [retries] times and then
    succeeds (in particular one that fails [retries - 1] times) is reported
    successful exactly once; a task whose first attempt and all [retries]
    retries fail ([retries + 1] failures) is permanently failed; every
    submitted task reaches an outcome, which is the one it has when run
    alone, so no failure cancels a sibling; and awaiting [onIdle] resolves
    without an error whatever the outcomes. *)
Theorem retry_queue_outcomes
    (retries : nat) (onFailedAttempt : string -> Store -> Store) :
  (forall script failures s,
      (failures <= retries)%nat ->
      Spec.fails_from script 1 failures ->
      script (S failures) = Ok tt ->
      exists made s',
        RetryQueue.pRetry (RetryQueue.scripted script) retries onFailedAttempt s
        = (Ok tt, made, s')
        /\ length made = S failures
        /\ Spec.successes made = 1%nat)
  /\ (forall script s,
        Spec.fails_from script 1 (S retries) ->
        exists e made s',
          RetryQueue.pRetry (RetryQueue.scripted script) retries onFailedAttempt s
          = (Err e, made, s')
          /\ length made = S retries
          /\ Spec.successes made = 0%nat)
  /\ (forall queue s, length (fst (RetryQueue.drain queue s)) = length queue)
  /\ (forall scripts s s0,
        fst (RetryQueue.drain
               (map (fun script =>
                       RetryQueue.pRetry (RetryQueue.scripted script) retries onFailedAttempt)
                    scripts) s)
        = map (fun script =>
                 fst (RetryQueue.pRetry (RetryQueue.scripted script) retries
                        onFailedAttempt s0))
              scripts)
  /\ (forall queue s, fst (RetryQueue.onIdle queue s) = Ok tt).
Proof.
  split; [|split; [|split; [|split]]].
  - intros script failures s Hle Hfail Hok.
    apply attempts_succeed; [exact Hle | exact Hfail | exact Hok].
  - intros script s Hfail. apply attempts_exhaust. exact Hfail.
  - apply drain_length.
  - apply drain_scripted.
  - reflexivity.
Qed.

Lemma retry_queue_outcomes_witness :
  exists made s',
    RetryQueue.pRetry (RetryQueue.scripted Scenario.flaky) 3 (fun _ s => s)
      Scenario.empty_store = (Ok tt, made, s')
    /\ length made = 3%nat
    /\ Spec.successes made = 1%nat.
Proof.
  apply (retry_queue_outcomes 3 (fun _ s => s)).
  - lia.
  - intros n Hn. unfold Scenario.flaky.
    destruct (Nat.leb_spec n 2); [reflexivity | lia].
  - reflexivity.
Defined.

(** C3 (as stated) fails: with [retries = 3], a task that fails three
    times is not permanently failed; its fourth attempt still runs, and
    when that one succeeds the task is reported successful. *)
Lemma failing_retries_times_is_not_permanent :
  Spec.fails_from Scenario.stubborn 1 3
  /\ exists made s',
       RetryQueue.pRetry (RetryQueue.scripted Scenario.stubborn) 3 (fun _ s => s)
         Scenario.empty_store = (Ok tt, made, s')
       /\ length made = 4%nat.
Proof.
  split.
  - intros n Hn. unfold Scenario.stubborn.
    destruct (Nat.leb_spec n 3); [reflexivity | lia].
  - eexists. eexists. split; reflexivity.
Qed.

(** ** Sync run records *)

Section SyncRunFacts.

Lemma fresh_id_above (table : list SyncStatus.t) (r : SyncStatus.t) :
  In r table -> SyncStatus.id r < SyncRun.fresh_id table.
Proof.
  unfold SyncRun.fresh_id. induction table as [|x rest IH]; simpl; [intros []|].
  intros [->|Hin]; [lia|]. specialize (IH Hin). lia.
Qed.

Lemma fresh_id_positive (table : list SyncStatus.t) : 0 < SyncRun.fresh_id table.
Proof.
  unfold SyncRun.fresh_id. induction table as [|x rest IH]; simpl; lia.
Qed.

Lemma find_fresh (table : list SyncStatus.t) (row : SyncStatus.t) :
  SyncStatus.id row = SyncRun.fresh_id table ->
  find (fun r => (SyncStatus.id r =? SyncRun.fresh_id table)%Z) (table ++ [row])
  = Some row.
Proof.
  intros Hid.
  assert (Hold : forall r, In r table ->
                           (SyncStatus.id r =? SyncRun.fresh_id table)%Z = false).
  { intros r Hin. apply Z.eqb_neq. pose proof (fresh_id_above table r Hin). lia. }
  rewrite <- Hid. rewrite <- Hid in Hold. clear Hid.
  induction table as [|x rest IH]; simpl.
  - rewrite Z.eqb_refl. reflexivity.
  - rewrite (Hold x (or_introl eq_refl)). apply IH.
    intros r Hin. apply Hold. right. exact Hin.
Qed.

End SyncRunFacts.

(** C5 fails on the tariff sync. When the run finds no countries, or no
    products, [syncTariffs] returns normally and the record it created at
    the start is still the last row of [sync_status], in status 'running'
    with no completion time: the run never moves it to a terminal
    status. *)
Theorem syncTariffs_without_work_stays_running (r : SyncTariffs.Run) (s : Store) :
  db_error (SyncTariffs.setup r) InsertSyncStatus = None ->
  db_error (SyncTariffs.setup r) SelectCountries = None ->
  let syncId := SyncRun.fresh_id (sync_status s) in
  let created :=
    SyncStatus.mk syncId tariffs_sync running (Iso (now (SyncTariffs.setup r))) None None in
  (countries s = [] ->
   exists s',
     SyncTariffs.syncTariffs r s = (Ok tt, s')
     /\ sync_status s' = sync_status s ++ [created]
     /\ SyncRun.status_of syncId s' = Some running)
  /\ (forall agreed,
        SyncTariffs.agreements r = Ok agreed ->
        db_error (SyncTariffs.setup r) SelectProducts = None ->
        SyncTariffs.selected_products (SyncTariffs.batchSize r) (products s) = [] ->
        exists s',
          SyncTariffs.syncTariffs r s = (Ok tt, s')
          /\ sync_status s' = sync_status s ++ [created]
          /\ SyncRun.status_of syncId s' = Some running).
Proof.
  intros Hinsert Hcountries. cbv zeta.
  set (created := SyncStatus.mk _ _ _ _ _ _).
  assert (Hstatus : forall s', sync_status s' = sync_status s ++ [created] ->
                               SyncRun.status_of (SyncRun.fresh_id (sync_status s)) s'
                               = Some running).
  { intros s' Hs'. unfold SyncRun.status_of. rewrite Hs'.
    rewrite find_fresh by reflexivity. reflexivity. }
  split.
  - intros Hnone.
    unfold SyncTariffs.syncTariffs, SyncRun.guarded, SyncTariffs.body, SyncRun.start.
    unfold bind, check, gets, ret. rewrite Hinsert, Hcountries.
    cbn [countries with_sync_status]. rewrite Hnone.
    eexists. split; [reflexivity|]. split; [reflexivity|].
    apply Hstatus. reflexivity.
  - intros agreed Hagreed Hproducts Hnone.
    unfold SyncTariffs.syncTariffs, SyncRun.guarded, SyncTariffs.body, SyncRun.start.
    unfold bind, check, gets, ret. rewrite Hinsert, Hcountries.
    cbn [countries with_sync_status products].
    destruct (countries s) as [|country rest].
    + eexists. split; [reflexivity|]. split; [reflexivity|].
      apply Hstatus. reflexivity.
    + rewrite Hagreed, Hproducts. cbn [products with_sync_status]. rewrite Hnone.
      eexists. split; [reflexivity|]. split; [reflexivity|].
      apply Hstatus. reflexivity.
Qed.

Lemma syncTariffs_without_work_stays_running_witness :
  exists s',
    SyncTariffs.syncTariffs Scenario.quiet_run Scenario.empty_store = (Ok tt, s')
    /\ sync_status s'
       = sync_status Scenario.empty_store
         ++ [SyncStatus.mk (SyncRun.fresh_id (sync_status Scenario.empty_store))
               tariffs_sync running (Iso (now (SyncTariffs.setup Scenario.quiet_run)))
               None None]
    /\ SyncRun.status_of (SyncRun.fresh_id (sync_status Scenario.empty_store)) s'
       = Some running.
Proof.
  apply (syncTariffs_without_work_stays_running Scenario.quiet_run Scenario.empty_store);
    reflexivity.
Defined.

(** ** Updates sync *)

(** C7 fails beyond a hundred stored updates. The store holds a hundred
    updates published later than the notice. The first pass inserts the
    notice; the second pass over the same notice looks only at the hundred
    most recently published rows, does not find it, and inserts it again:
    two rows carry the document number, and both passes complete. *)
Theorem syncUpdates_reinserts_old_notice :
  let first := SyncUpdates.syncUpdates (Scenario.updates_pass 5000) Scenario.backlog_store in
  let second := SyncUpdates.syncUpdates (Scenario.updates_pass 6000) (snd first) in
  fst first = Ok tt
  /\ length (SyncUpdates.stored_under "2024-12345" (snd first)) = 1%nat
  /\ fst second = Ok tt
  /\ length (SyncUpdates.stored_under "2024-12345" (snd second)) = 2%nat
  /\ length (trade_updates (snd second)) = S (length (trade_updates (snd first)))
  /\ map SyncStatus.status (sync_status (snd second)) = [completed; completed].
Proof.
  vm_compute. repeat split; reflexivity.
Qed.

(** ** Rate limiter *)

(** C2 fails for calls that overlap. With a window of 1000 ms and at most
    two requests, three calls issued back to back behave as the scenario
    says: two are recorded at once and the third sleeps until 1100 ms later
    and is recorded then. Five such calls leave three sleeping; all three
    wake at the same instant and are recorded without a second check, so
    three time stamps lie within one window. The same happens to the USTR
    limiter (30 per minute) when three queue workers call while the window
    is full: 32 time stamps end up within one window. *)
Theorem throttle_overlapping_calls_overshoot :
  let three := RateLimiter.calls Scenario.small_limiter
                 (Scenario.burst 3 Scenario.t0 "x") in
  let five := RateLimiter.settle
                (RateLimiter.calls Scenario.small_limiter
                   (Scenario.burst 5 Scenario.t0 "x")) in
  let workers := RateLimiter.settle
                   (RateLimiter.calls Scenario.ustrRateLimiter
                      Scenario.steady_then_three) in
  RateLimiter.getTimestamps (RateLimiter.limiter three) "x" = [Scenario.t0; Scenario.t0]
  /\ RateLimiter.sleepers three
     = [{| RateLimiter.wake := Scenario.t0 + 1100; RateLimiter.sleeper_key := "x" |}]
  /\ RateLimiter.getTimestamps (RateLimiter.limiter (RateLimiter.settle three)) "x"
     = [Scenario.t0 + 1100]
  /\ RateLimiter.recorded_in_window (RateLimiter.limiter five) (Scenario.t0 + 1100) "x"
     = 3%nat
  /\ RateLimiter.maxRequests (RateLimiter.limiter five) = 2
  /\ RateLimiter.recorded_in_window (RateLimiter.limiter workers)
       (Scenario.t0 + 60100) "exclusions" = 32%nat
  /\ RateLimiter.maxRequests (RateLimiter.limiter workers) = 30.
Proof.
  vm_compute. repeat split; reflexivity.
Qed.

(** Calls that do not overlap keep the bound: when no call is asleep, the
    stored time stamps are positive and at most [maxRequests] (at least 1)
    of them are stored, a call that is left to finish before the next one
    leaves at most [maxRequests] time stamps stored. *)
Section SequentialCalls.

Lemma in_window_length (windowStart : Z) (timestamps : list Z) :
  (length (RateLimiter.in_window windowStart timestamps) <= length timestamps)%nat.
Proof.
  unfold RateLimiter.in_window. induction timestamps as [|t rest IH]; simpl; [lia|].
  destruct (windowStart <? t)%Z; simpl; lia.
Qed.

Lemma in_window_drops (windowStart o : Z) (timestamps : list Z) :
  In o timestamps -> o <= windowStart ->
  (S (length (RateLimiter.in_window windowStart timestamps)) <= length timestamps)%nat.
Proof.
  unfold RateLimiter.in_window. induction timestamps as [|t rest IH]; simpl; [intros []|].
  intros [->|Hin] Hle.
  - destruct (Z.ltb_spec windowStart o); [lia|].
    pose proof (in_window_length windowStart rest) as H'.
    unfold RateLimiter.in_window in H'. lia.
  - specialize (IH Hin Hle). destruct (windowStart <? t)%Z; simpl; lia.
Qed.

Lemma in_window_In (windowStart t : Z) (timestamps : list Z) :
  In t (RateLimiter.in_window windowStart timestamps) ->
  In t timestamps /\ windowStart < t.
Proof.
  unfold RateLimiter.in_window. rewrite filter_In, Z.ltb_lt. auto.
Qed.

Lemma insert_by_In {A} (le : A -> A -> bool) (x y : A) (xs : list A) :
  In y (insert_by le x xs) <-> y = x \/ In y xs.
Proof.
  induction xs as [|z rest IH]; simpl.
  - split; [intros [<-|[]]; auto | intros [->|[]]; auto].
  - destruct (le x z); simpl; [split; intros [H|H]; subst; auto; destruct H; auto|].
    rewrite IH. split; intros [H|[H|H]]; subst; auto.
Qed.

Lemma sort_by_In {A} (le : A -> A -> bool) (y : A) (xs : list A) :
  In y (sort_by le xs) <-> In y xs.
Proof.
  unfold sort_by. induction xs as [|x rest IH]; simpl; [reflexivity|].
  rewrite insert_by_In, IH. split; intros [H|H]; subst; auto.
Qed.

Lemma stored_after_addRequest (rl : RateLimiter.t) (clock : Z) (key : string) :
  RateLimiter.getTimestamps (RateLimiter.addRequest rl clock key) key
  = RateLimiter.in_window (clock - RateLimiter.windowMs rl)
      (RateLimiter.getTimestamps rl key ++ [clock]).
Proof.
  unfold RateLimiter.getTimestamps at 1, RateLimiter.addRequest.
  cbn [RateLimiter.requests]. rewrite lookup_insert_eq. reflexivity.
Qed.

Lemma in_window_snoc (windowStart clock : Z) (timestamps : list Z) :
  (length (RateLimiter.in_window windowStart (timestamps ++ [clock]))
   <= S (length (RateLimiter.in_window windowStart timestamps)))%nat.
Proof.
  unfold RateLimiter.in_window. rewrite List.filter_app, length_app. simpl.
  destruct (windowStart <? clock)%Z; simpl; lia.
Qed.

Lemma sequential_call_keeps_bound (rl : RateLimiter.t) (clock : Z) (key : string) :
  1 <= RateLimiter.maxRequests rl ->
  (forall t, In t (RateLimiter.getTimestamps rl key) -> 0 < t) ->
  Z.of_nat (length (RateLimiter.getTimestamps rl key)) <= RateLimiter.maxRequests rl ->
  let w := RateLimiter.settle
             (RateLimiter.throttle {| RateLimiter.limiter := rl; RateLimiter.sleepers := [] |}
                clock key) in
  Z.of_nat (length (RateLimiter.getTimestamps (RateLimiter.limiter w) key))
  <= RateLimiter.maxRequests rl.
Proof.
  intros Hmax Hpos Hbound. cbv zeta.
  unfold RateLimiter.throttle. cbn [RateLimiter.limiter RateLimiter.sleepers].
  destruct (RateLimiter.shouldThrottle rl clock key) eqn:Hfull.
  - (* the call sleeps, then records *)
    unfold RateLimiter.settle, sort_by.
    cbn [RateLimiter.sleepers RateLimiter.limiter app fold_right insert_by fold_left].
    unfold RateLimiter.resume. cbn [RateLimiter.wake RateLimiter.sleeper_key].
    rewrite stored_after_addRequest.
    unfold RateLimiter.shouldThrottle in Hfull. apply Z.leb_le in Hfull.
    unfold RateLimiter.timer_wake, RateLimiter.calculateDelay.
    set (inside := RateLimiter.in_window (clock - RateLimiter.windowMs rl)
                     (RateLimiter.getTimestamps rl key)) in *.
    destruct (sort_by Z.leb inside) as [|oldest others] eqn:Hsort.
    { assert (Hempty : inside = []).
      { destruct inside as [|t rest]; [reflexivity|].
        assert (Hin : In t (sort_by Z.leb (t :: rest)))
          by (apply sort_by_In; left; reflexivity).
        rewrite Hsort in Hin. destruct Hin. }
      rewrite Hempty in Hfull. simpl in Hfull. lia. }
    assert (Hold : In oldest inside).
    { apply (sort_by_In Z.leb). rewrite Hsort. left. reflexivity. }
    apply in_window_In in Hold. destruct Hold as [Hstored Hrecent].
    pose proof (Hpos oldest Hstored) as Hpositive.
    destruct (Z.eqb_spec oldest 0) as [->|_]; [lia|].
    replace (clock + Z.max 1 (oldest + RateLimiter.windowMs rl - clock + 100)
             - RateLimiter.windowMs rl) with (oldest + 100) by lia.
    pose proof (in_window_snoc (oldest + 100)
                  (clock + Z.max 1 (oldest + RateLimiter.windowMs rl - clock + 100))
                  (RateLimiter.getTimestamps rl key)) as Hsnoc.
    pose proof (in_window_drops (oldest + 100) oldest
                  (RateLimiter.getTimestamps rl key) Hstored ltac:(lia)) as Hdrop.
    lia.
  - (* the call records at once *)
    unfold RateLimiter.settle, sort_by. cbn [RateLimiter.sleepers RateLimiter.limiter
                                              fold_right fold_left].
    rewrite stored_after_addRequest.
    unfold RateLimiter.shouldThrottle in Hfull. apply Z.leb_gt in Hfull.
    pose proof (in_window_snoc (clock - RateLimiter.windowMs rl) clock
                  (RateLimiter.getTimestamps rl key)) as Hsnoc.
    lia.
Qed.

End SequentialCalls.

(** ** What the updates sync does get right *)

Section UpdatesFacts.

Lemma insert_by_length {A} (le : A -> A -> bool) (x : A) (xs : list A) :
  length (insert_by le x xs) = S (length xs).
Proof.
  induction xs as [|y rest IH]; simpl; [reflexivity|].
  destruct (le x y); simpl; [reflexivity | rewrite IH; reflexivity].
Qed.

Lemma sort_by_length {A} (le : A -> A -> bool) (xs : list A) :
  length (sort_by le xs) = length xs.
Proof.
  unfold sort_by. induction xs as [|x rest IH]; simpl; [reflexivity|].
  rewrite insert_by_length, IH. reflexivity.
Qed.

(** With at most a hundred stored updates every stored reference is in
    [existingRefs], and a notice that carries one is filtered out. *)
Lemma stored_notice_skipped_within_hundred
    (table : list TradeUpdate.t) (fetched : list Notice.t)
    (notice : Notice.t) (u : TradeUpdate.t) :
  (length table <= 100)%nat ->
  In u table ->
  TradeUpdate.source_reference u = Notice.document_number notice ->
  ~ In notice (SyncUpdates.newNotices (SyncUpdates.existingRefs table) fetched).
Proof.
  intros Hsmall Hin Href Hnew.
  unfold SyncUpdates.newNotices in Hnew. apply filter_In in Hnew.
  destruct Hnew as [_ Hfresh]. apply negb_true_iff, bool_decide_eq_false in Hfresh.
  apply Hfresh. unfold SyncUpdates.existingRefs, SyncUpdates.existingUpdates.
  rewrite take_ge by (rewrite sort_by_length; exact Hsmall).
  apply elem_of_list_to_set, list_elem_of_In. rewrite <- Href.
  apply in_map. apply sort_by_In. exact Hin.
Qed.

Lemma find_map_same_id (f : SyncStatus.t -> SyncStatus.t) (syncId : Z)
    (table : list SyncStatus.t) :
  (forall r, SyncStatus.id (f r) = SyncStatus.id r) ->
  find (fun r => (SyncStatus.id r =? syncId)%Z) (map f table)
  = option_map f (find (fun r => (SyncStatus.id r =? syncId)%Z) table).
Proof.
  intros Hid. induction table as [|r rest IH]; simpl; [reflexivity|].
  rewrite Hid. destruct (SyncStatus.id r =? syncId)%Z; [reflexivity | exact IH].
Qed.

Lemma complete_row_id (env : Env) (syncId : Z) (r : SyncStatus.t) :
  SyncStatus.id (SyncRun.complete_row env syncId r) = SyncStatus.id r.
Proof.
  unfold SyncRun.complete_row. destruct (SyncStatus.id r =? syncId)%Z; reflexivity.
Qed.

(** A pass of the updates sync that finds nothing new still closes its
    record: the row it created ends 'completed', once the store takes the
    update. *)
Lemma syncUpdates_without_news_completes
    (r : SyncUpdates.Run) (s : Store) (fetched : list Notice.t) :
  db_error (SyncUpdates.setup r) InsertSyncStatus = None ->
  db_error (SyncUpdates.setup r) SelectTradeUpdates = None ->
  db_error (SyncUpdates.finish r) UpdateSyncStatus = None ->
  SyncUpdates.notices r = Ok fetched ->
  SyncUpdates.newNotices (SyncUpdates.existingRefs (trade_updates s)) fetched = [] ->
  exists s',
    SyncUpdates.syncUpdates r s = (Ok tt, s')
    /\ trade_updates s' = trade_updates s
    /\ SyncRun.status_of (SyncRun.fresh_id (sync_status s)) s' = Some completed.
Proof.
  intros Hinsert Hselect Hupdate Hfetched Hnone.
  unfold SyncUpdates.syncUpdates, SyncRun.guarded, SyncUpdates.body, SyncRun.start.
  unfold bind, check, gets, ret. rewrite Hinsert, Hselect, Hfetched.
  cbn [trade_updates with_sync_status]. rewrite Hnone. cbn [for_each].
  unfold ret, SyncRun.complete, modify. rewrite Hupdate.
  pose proof (fresh_id_positive (sync_status s)) as Hpos.
  destruct (Z.eqb_spec (SyncRun.fresh_id (sync_status s)) 0) as [Hzero|_]; [lia|].
  eexists. split; [reflexivity|]. split; [reflexivity|].
  unfold SyncRun.status_of. cbn [sync_status with_sync_status].
  rewrite find_map_same_id by apply complete_row_id.
  rewrite find_fresh by reflexivity.
  cbn. unfold SyncRun.complete_row. cbn [SyncStatus.id].
  rewrite Z.eqb_refl. reflexivity.
Qed.

(** A pass that finds nothing new returns normally and stores no update,
    whether or not the store takes the closing update. *)
Lemma syncUpdates_without_news_returns
    (r : SyncUpdates.Run) (s : Store) (fetched : list Notice.t) :
  db_error (SyncUpdates.setup r) InsertSyncStatus = None ->
  db_error (SyncUpdates.setup r) SelectTradeUpdates = None ->
  SyncUpdates.notices r = Ok fetched ->
  SyncUpdates.newNotices (SyncUpdates.existingRefs (trade_updates s)) fetched = [] ->
  exists s',
    SyncUpdates.syncUpdates r s = (Ok tt, s')
    /\ trade_updates s' = trade_updates s.
Proof.
  intros Hinsert Hselect Hfetched Hnone.
  unfold SyncUpdates.syncUpdates, SyncRun.guarded, SyncUpdates.body, SyncRun.start.
  unfold bind, check, gets, ret. rewrite Hinsert, Hselect, Hfetched.
  cbn [trade_updates with_sync_status]. rewrite Hnone. cbn [for_each].
  unfold ret, SyncRun.complete, modify.
  destruct (SyncRun.fresh_id (sync_status s) =? 0)%Z;
    [eexists; split; reflexivity|].
  destruct (db_error (SyncUpdates.finish r) UpdateSyncStatus);
    eexists; split; reflexivity.
Qed.

End UpdatesFacts.

(** ** What the product sync does get right *)

(** An incremental product sync that finds no stale product returns early
    from [incrementalProductSync] and still closes its record: the row it
    created ends 'completed', once the store takes the update. *)
Lemma syncProducts_without_work_completes
    (aggregateProductData : Env -> JsValue -> JsValue -> Action unit)
    (r : SyncProducts.Run) (s : Store) :
  db_error (SyncProducts.setup r) InsertSyncStatus = None ->
  db_error (SyncProducts.setup r) SelectProducts = None ->
  db_error (SyncProducts.finish r) UpdateSyncStatus = None ->
  SyncProducts.stale (SyncProducts.setup r) (SyncProducts.batchSize r) (products s) = [] ->
  exists s',
    SyncProducts.syncProducts aggregateProductData r false s = (Ok tt, s')
    /\ SyncRun.status_of (SyncRun.fresh_id (sync_status s)) s' = Some completed.
Proof.
  intros Hinsert Hselect Hupdate Hnone.
  unfold SyncProducts.syncProducts, SyncRun.guarded, SyncProducts.body, SyncRun.start.
  unfold SyncProducts.incrementalProductSync, SyncProducts.findProductsToUpdate.
  unfold bind, check, gets, ret. rewrite Hinsert, Hselect.
  cbn [products with_sync_status]. rewrite Hnone.
  unfold SyncRun.complete, modify. rewrite Hupdate.
  pose proof (fresh_id_positive (sync_status s)) as Hpos.
  destruct (Z.eqb_spec (SyncRun.fresh_id (sync_status s)) 0) as [Hzero|_]; [lia|].
  eexists. split; [reflexivity|].
  unfold SyncRun.status_of. cbn [sync_status with_sync_status].
  rewrite find_map_same_id by apply complete_row_id.
  rewrite find_fresh by reflexivity.
  cbn. unfold SyncRun.complete_row. cbn [SyncStatus.id].
  rewrite Z.eqb_refl. reflexivity.
Qed.

(** * Further properties *)

(** ** Rate limiter: awaited calls, keys, delays *)

Section AwaitedCalls.

Lemma awaitThrottle_records (rl : RateLimiter.t) (clock : Z) (key : string) :
  Awaited.awaitThrottle rl clock key
  = RateLimiter.addRequest rl (Awaited.recorded_at rl clock key) key.
Proof.
  unfold Awaited.awaitThrottle, Awaited.recorded_at, RateLimiter.throttle.
  cbn [RateLimiter.limiter RateLimiter.sleepers].
  destruct (RateLimiter.shouldThrottle rl clock key); reflexivity.
Qed.

Lemma stored_other_key (rl : RateLimiter.t) (clock : Z) (key other : string) :
  other <> key ->
  RateLimiter.getTimestamps (RateLimiter.addRequest rl clock key) other
  = RateLimiter.getTimestamps rl other.
Proof.
  intros Hne. unfold RateLimiter.getTimestamps, RateLimiter.addRequest.
  cbn [RateLimiter.requests]. rewrite lookup_insert_ne by congruence. reflexivity.
Qed.

Lemma recorded_at_later (rl : RateLimiter.t) (clock : Z) (key : string) :
  clock <= Awaited.recorded_at rl clock key.
Proof.
  unfold Awaited.recorded_at, RateLimiter.timer_wake.
  destruct (RateLimiter.shouldThrottle rl clock key); lia.
Qed.

Lemma awaitThrottle_within_budget (rl : RateLimiter.t) (clock : Z) (key : string) :
  1 <= RateLimiter.maxRequests rl ->
  0 < clock ->
  Awaited.within_budget rl ->
  Awaited.within_budget (Awaited.awaitThrottle rl clock key)
  /\ RateLimiter.maxRequests (Awaited.awaitThrottle rl clock key)
     = RateLimiter.maxRequests rl.
Proof.
  intros Hmax Hclock Hbudget. split; [|rewrite awaitThrottle_records; reflexivity].
  intros k. destruct (String.eqb_spec k key) as [->|Hne].
  - split.
    + rewrite awaitThrottle_records. cbn [RateLimiter.addRequest RateLimiter.maxRequests].
      rewrite <- awaitThrottle_records.
      apply (sequential_call_keeps_bound rl clock key Hmax);
        [apply (Hbudget key) | apply (Hbudget key)].
    + rewrite awaitThrottle_records, stored_after_addRequest.
      intros t Hin. apply in_window_In in Hin. destruct Hin as [Hin _].
      apply in_app_or in Hin. destruct Hin as [Hold|[<-|[]]].
      * apply (Hbudget key). exact Hold.
      * pose proof (recorded_at_later rl clock key). lia.
  - rewrite awaitThrottle_records, stored_other_key by exact Hne.
    cbn [RateLimiter.addRequest RateLimiter.maxRequests]. apply Hbudget.
Qed.

End AwaitedCalls.

(** X1. A caller that awaits every [throttle] call before issuing the next
    never holds more than [maxRequests] recorded time stamps for any key,
    whatever the keys and (positive) instants of the calls, provided
    [maxRequests] is at least 1. *)
Theorem awaited_calls_stay_within_budget
    (issued : list (Z * string)) (rl : RateLimiter.t) :
  1 <= RateLimiter.maxRequests rl ->
  (forall call, In call issued -> 0 < fst call) ->
  Awaited.within_budget rl ->
  Awaited.within_budget (Awaited.awaitAll rl issued)
  /\ RateLimiter.maxRequests (Awaited.awaitAll rl issued) = RateLimiter.maxRequests rl.
Proof.
  revert rl. induction issued as [|[clock key] rest IH]; intros rl Hmax Hpos Hbudget.
  - split; [exact Hbudget | reflexivity].
  - cbn [Awaited.awaitAll fold_left fst snd].
    destruct (awaitThrottle_within_budget rl clock key Hmax) as [Hnext Hsame];
      [apply (Hpos (clock, key)); left; reflexivity | exact Hbudget |].
    destruct (IH (Awaited.awaitThrottle rl clock key)) as [Hend Hmaxend].
    + rewrite Hsame. exact Hmax.
    + intros call Hin. apply Hpos. right. exact Hin.
    + exact Hnext.
    + split; [exact Hend|]. unfold Awaited.awaitAll in Hmaxend. rewrite Hmaxend. exact Hsame.
Qed.

Lemma awaited_calls_stay_within_budget_witness :
  Awaited.within_budget
    (Awaited.awaitAll (RateLimiter.create 1000 2)
       [(Scenario.t0, "x"); (Scenario.t0 + 10, "x"); (Scenario.t0 + 20, "x")])
  /\ RateLimiter.maxRequests
       (Awaited.awaitAll (RateLimiter.create 1000 2)
          [(Scenario.t0, "x"); (Scenario.t0 + 10, "x"); (Scenario.t0 + 20, "x")])
     = RateLimiter.maxRequests (RateLimiter.create 1000 2).
Proof.
  apply (awaited_calls_stay_within_budget
           [(Scenario.t0, "x"); (Scenario.t0 + 10, "x"); (Scenario.t0 + 20, "x")]).
  - simpl. lia.
  - intros call [<-|[<-|[<-|[]]]]; reflexivity.
  - intros key. unfold RateLimiter.getTimestamps. simpl.
    rewrite lookup_empty. simpl. split; [lia | intros t []].
Defined.

Section KeyIsolation.

Variable key : string.

Local Abbreviation quiet := (Awaited.quiet key).

Lemma resume_all_other (pending : list RateLimiter.Sleeper) :
  forall rl,
    (forall sl, In sl pending -> RateLimiter.sleeper_key sl <> key) ->
    RateLimiter.getTimestamps (fold_left RateLimiter.resume pending rl) key
    = RateLimiter.getTimestamps rl key.
Proof.
  induction pending as [|sl rest IH]; intros rl Hquiet; simpl; [reflexivity|].
  rewrite IH by (intros sl' Hin; apply Hquiet; right; exact Hin).
  unfold RateLimiter.resume. apply stored_other_key.
  intros Heq. apply (Hquiet sl (or_introl eq_refl)). symmetry. exact Heq.
Qed.

Lemma wake_due_other (w : RateLimiter.World) (clock : Z) :
  quiet w ->
  quiet (RateLimiter.wake_due w clock)
  /\ RateLimiter.getTimestamps (RateLimiter.limiter (RateLimiter.wake_due w clock)) key
     = RateLimiter.getTimestamps (RateLimiter.limiter w) key.
Proof.
  intros Hquiet. unfold RateLimiter.wake_due. split.
  - intros sl Hin. cbn [RateLimiter.sleepers] in Hin. apply filter_In in Hin.
    apply Hquiet. apply Hin.
  - cbn [RateLimiter.limiter]. apply resume_all_other.
    intros sl Hin. apply sort_by_In in Hin. apply filter_In in Hin.
    apply Hquiet. apply Hin.
Qed.

Lemma throttle_other (w : RateLimiter.World) (clock : Z) (called : string) :
  called <> key ->
  quiet w ->
  quiet (RateLimiter.throttle w clock called)
  /\ RateLimiter.getTimestamps (RateLimiter.limiter (RateLimiter.throttle w clock called)) key
     = RateLimiter.getTimestamps (RateLimiter.limiter w) key.
Proof.
  intros Hne Hquiet. unfold RateLimiter.throttle.
  destruct (RateLimiter.shouldThrottle (RateLimiter.limiter w) clock called).
  - split; [|reflexivity].
    intros sl Hin. cbn [RateLimiter.sleepers] in Hin. apply in_app_or in Hin.
    destruct Hin as [Hin|[<-|[]]]; [apply Hquiet; exact Hin | exact Hne].
  - split; [exact Hquiet|]. cbn [RateLimiter.limiter].
    apply stored_other_key. congruence.
Qed.

Lemma calls_other (issued : list (Z * string)) :
  forall w,
    (forall call, In call issued -> snd call <> key) ->
    quiet w ->
    quiet (RateLimiter.calls w issued)
    /\ RateLimiter.getTimestamps (RateLimiter.limiter (RateLimiter.calls w issued)) key
       = RateLimiter.getTimestamps (RateLimiter.limiter w) key.
Proof.
  induction issued as [|[clock called] rest IH]; intros w Hkeys Hquiet; simpl.
  - split; [exact Hquiet | reflexivity].
  - destruct (wake_due_other w clock Hquiet) as [Hq1 Hs1].
    destruct (throttle_other (RateLimiter.wake_due w clock) clock called) as [Hq2 Hs2];
      [apply (Hkeys (clock, called)); left; reflexivity | exact Hq1 |].
    destruct (IH (RateLimiter.throttle (RateLimiter.wake_due w clock) clock called))
      as [Hq3 Hs3]; [intros call Hin; apply Hkeys; right; exact Hin | exact Hq2 |].
    split; [exact Hq3|]. rewrite Hs3, Hs2, Hs1. reflexivity.
Qed.

End KeyIsolation.

(** X2. The limiter keeps its keys apart: calls for other keys, overlapping
    or not, never change the time stamps recorded for a key, so they can
    neither use up nor free its budget. *)
Theorem calls_for_other_keys_leave_key_alone
    (key : string) (issued : list (Z * string)) (w : RateLimiter.World) :
  (forall call, In call issued -> snd call <> key) ->
  Awaited.quiet key w ->
  RateLimiter.getTimestamps
    (RateLimiter.limiter (RateLimiter.settle (RateLimiter.calls w issued))) key
  = RateLimiter.getTimestamps (RateLimiter.limiter w) key
  /\ forall clock,
       RateLimiter.shouldThrottle
         (RateLimiter.limiter (RateLimiter.settle (RateLimiter.calls w issued))) clock key
       = RateLimiter.shouldThrottle (RateLimiter.limiter w) clock key.
Proof.
  intros Hkeys Hquiet.
  destruct (calls_other key issued w Hkeys Hquiet) as [Hq Hs].
  assert (Hsame : RateLimiter.getTimestamps
                    (RateLimiter.limiter (RateLimiter.settle (RateLimiter.calls w issued))) key
                  = RateLimiter.getTimestamps (RateLimiter.limiter w) key).
  { unfold RateLimiter.settle. cbn [RateLimiter.limiter].
    rewrite resume_all_other; [exact Hs|].
    intros sl Hin. apply sort_by_In in Hin. apply Hq. exact Hin. }
  split; [exact Hsame|].
  intros clock. unfold RateLimiter.shouldThrottle. rewrite Hsame.
  assert (Hmax : forall pending rl,
             RateLimiter.maxRequests (fold_left RateLimiter.resume pending rl)
             = RateLimiter.maxRequests rl
             /\ RateLimiter.windowMs (fold_left RateLimiter.resume pending rl)
                = RateLimiter.windowMs rl).
  { induction pending as [|sl rest IH]; intros rl; simpl; [auto|].
    destruct (IH (RateLimiter.resume rl sl)) as [-> ->]. auto. }
  assert (Hcalls : forall calls0 w0,
             RateLimiter.maxRequests (RateLimiter.limiter (RateLimiter.calls w0 calls0))
             = RateLimiter.maxRequests (RateLimiter.limiter w0)
             /\ RateLimiter.windowMs (RateLimiter.limiter (RateLimiter.calls w0 calls0))
                = RateLimiter.windowMs (RateLimiter.limiter w0)).
  { induction calls0 as [|[c k] rest IH]; intros w0; simpl; [auto|].
    destruct (IH (RateLimiter.throttle (RateLimiter.wake_due w0 c) c k)) as [-> ->].
    unfold RateLimiter.throttle.
    destruct (RateLimiter.shouldThrottle _ c k); cbn [RateLimiter.limiter];
      unfold RateLimiter.wake_due; cbn [RateLimiter.limiter RateLimiter.addRequest
                                          RateLimiter.maxRequests RateLimiter.windowMs];
      apply Hmax. }
  unfold RateLimiter.settle. cbn [RateLimiter.limiter].
  destruct (Hmax (sort_by (fun a b => (RateLimiter.wake a <=? RateLimiter.wake b)%Z)
                    (RateLimiter.sleepers (RateLimiter.calls w issued)))
              (RateLimiter.limiter (RateLimiter.calls w issued))) as [-> ->].
  destruct (Hcalls issued w) as [-> ->]. reflexivity.
Qed.

Lemma calls_for_other_keys_leave_key_alone_witness :
  RateLimiter.getTimestamps
    (RateLimiter.limiter
       (RateLimiter.settle
          (RateLimiter.calls Scenario.small_limiter (Scenario.burst 5 Scenario.t0 "x")))) "y"
  = RateLimiter.getTimestamps (RateLimiter.limiter Scenario.small_limiter) "y".
Proof.
  apply (calls_for_other_keys_leave_key_alone "y" (Scenario.burst 5 Scenario.t0 "x")
           Scenario.small_limiter).
  - intros call Hin. apply repeat_spec in Hin. subst call. discriminate.
  - intros sl [].
Defined.

(** X3. A call that finds the window full waits for more than 100 ms and
    for at most [windowMs + 100] ms, when the recorded time stamps are
    positive instants of the past and [maxRequests] is at least 1. *)
Theorem throttled_delay_is_bounded (rl : RateLimiter.t) (clock : Z) (key : string) :
  RateLimiter.shouldThrottle rl clock key = true ->
  1 <= RateLimiter.maxRequests rl ->
  (forall t, In t (RateLimiter.getTimestamps rl key) -> 0 < t <= clock) ->
  100 < RateLimiter.calculateDelay rl clock key <= RateLimiter.windowMs rl + 100.
Proof.
  intros Hfull Hmax Hpast.
  unfold RateLimiter.shouldThrottle in Hfull. apply Z.leb_le in Hfull.
  unfold RateLimiter.calculateDelay.
  set (inside := RateLimiter.in_window (clock - RateLimiter.windowMs rl)
                   (RateLimiter.getTimestamps rl key)) in *.
  destruct (sort_by Z.leb inside) as [|oldest others] eqn:Hsort.
  { assert (Hempty : inside = []).
    { destruct inside as [|t rest]; [reflexivity|].
      assert (Hin : In t (sort_by Z.leb (t :: rest)))
        by (apply sort_by_In; left; reflexivity).
      rewrite Hsort in Hin. destruct Hin. }
    rewrite Hempty in Hfull. simpl in Hfull. lia. }
  assert (Hold : In oldest inside).
  { apply (sort_by_In Z.leb). rewrite Hsort. left. reflexivity. }
  apply in_window_In in Hold. destruct Hold as [Hstored Hrecent].
  pose proof (Hpast oldest Hstored) as Hrange.
  destruct (Z.eqb_spec oldest 0) as [->|_]; lia.
Qed.

Lemma throttled_delay_is_bounded_witness :
  100 < RateLimiter.calculateDelay
          (RateLimiter.limiter
             (RateLimiter.calls Scenario.small_limiter (Scenario.burst 2 Scenario.t0 "x")))
          (Scenario.t0 + 400) "x"
  <= 1000 + 100.
Proof.
  apply (throttled_delay_is_bounded
           (RateLimiter.limiter
              (RateLimiter.calls Scenario.small_limiter (Scenario.burst 2 Scenario.t0 "x")))
           (Scenario.t0 + 400) "x").
  - vm_compute. reflexivity.
  - vm_compute. discriminate.
  - intros t Hin. vm_compute in Hin. destruct Hin as [<-|[<-|[]]]; vm_compute; split; congruence || reflexivity.
Defined.

(** ** Tariff sync: agreements and rates *)

Section AgreementFacts.

Lemma rate_of_zeroed (rate : JsObject) :
  Aggregator.rate_of (set_field rate "rate" (JNum zero)) = zero.
Proof.
  unfold Aggregator.rate_of. rewrite field_set_field. cbn [parseFloat_of_String].
  unfold or_zero. destruct (number_truthy zero); reflexivity.
Qed.

Lemma register_lookup (m : gmap string (list string)) (listed agreementCode country : string) :
  default [] (SyncTariffs.register m listed agreementCode !! country)
  = default [] (m !! country)
    ++ (if String.eqb listed country then [agreementCode] else []).
Proof.
  unfold SyncTariffs.register.
  destruct (String.eqb_spec listed country) as [->|Hne].
  - rewrite lookup_insert_eq. reflexivity.
  - rewrite lookup_insert_ne by exact Hne. rewrite app_nil_r. reflexivity.
Qed.

Lemma register_all_lookup (listed : list string) (agreementCode country : string) :
  forall m : gmap string (list string),
    default [] (fold_left (fun m' countryCode =>
                             SyncTariffs.register m' countryCode agreementCode) listed m
                !! country)
    = default [] (m !! country)
      ++ map (fun _ => agreementCode) (List.filter (fun c => String.eqb c country) listed).
Proof.
  induction listed as [|c rest IH]; intros m; simpl.
  - rewrite app_nil_r. reflexivity.
  - rewrite IH, register_lookup.
    destruct (String.eqb c country); simpl; rewrite <- app_assoc; reflexivity.
Qed.

Lemma countryAgreements_from (agreements : list TradeAgreement.t) (country : string) :
  forall m : gmap string (list string),
    default []
      (fold_left (fun m0 agreement =>
                    fold_left (fun m' countryCode =>
                                 SyncTariffs.register m' countryCode
                                   (TradeAgreement.code agreement))
                              (TradeAgreement.countries agreement) m0)
                 agreements m !! country)
    = default [] (m !! country)
      ++ flat_map (fun agreement =>
                     map (fun _ => TradeAgreement.code agreement)
                         (List.filter (fun c => String.eqb c country)
                                      (TradeAgreement.countries agreement)))
                  agreements.
Proof.
  induction agreements as [|agreement rest IH]; intros m; simpl.
  - rewrite app_nil_r. reflexivity.
  - rewrite IH, register_all_lookup, <- app_assoc. reflexivity.
Qed.

End AgreementFacts.

(** X4. Under an agreement with code 'FTA' the 'standard' rates count for
    nothing: the total computed from the adjusted rates is the total of the
    rates that are not 'standard'. *)
Theorem fta_total_ignores_standard_rates
    (baseRate : number) (rates : list JsObject) (agreementCodes : list string) :
  In "FTA" agreementCodes ->
  Aggregator.totalRate baseRate
    (SyncTariffs.adjustRatesForTradeAgreements rates agreementCodes)
  = Aggregator.totalRate baseRate
      (List.filter (fun rate => negb (strict_eq (field rate "type") (JStr "standard")))
                   rates).
Proof.
  intros Hfta. apply includes_string_In in Hfta.
  unfold SyncTariffs.adjustRatesForTradeAgreements. rewrite Hfta.
  unfold Aggregator.totalRate. revert baseRate.
  induction rates as [|rate rest IH]; intros acc; simpl; [reflexivity|].
  destruct (strict_eq (field rate "type") (JStr "standard")); simpl.
  - rewrite rate_of_zeroed, add_zero_r. apply IH.
  - apply IH.
Qed.

Lemma fta_total_ignores_standard_rates_witness :
  Aggregator.totalRate (Fin (Q2Qc 5))
    (SyncTariffs.adjustRatesForTradeAgreements
       [[("type", JStr "standard"); ("rate", JStr "7.5")];
        [("type", JStr "section301"); ("rate", JStr "25")]] ["USMCA"; "FTA"])
  = Aggregator.totalRate (Fin (Q2Qc 5))
      (List.filter (fun rate => negb (strict_eq (field rate "type") (JStr "standard")))
         [[("type", JStr "standard"); ("rate", JStr "7.5")];
          [("type", JStr "section301"); ("rate", JStr "25")]]).
Proof.
  apply fta_total_ignores_standard_rates. right. left. reflexivity.
Defined.

(** X5. The codes the tariff sync holds for a country are the codes of the
    agreements that list the country, in the order of the agreements (once
    per listing); so the 'FTA' adjustment applies to a country exactly when
    an agreement with code 'FTA' lists it. *)
Theorem countryAgreements_lookup (agreements : list TradeAgreement.t) (country : string) :
  default [] (SyncTariffs.countryAgreements agreements !! country)
  = flat_map (fun agreement =>
                map (fun _ => TradeAgreement.code agreement)
                    (List.filter (fun c => String.eqb c country)
                                 (TradeAgreement.countries agreement)))
             agreements
  /\ (includes_string "FTA" (default [] (SyncTariffs.countryAgreements agreements !! country))
      = true
      <-> exists agreement,
            In agreement agreements
            /\ TradeAgreement.code agreement = "FTA"
            /\ In country (TradeAgreement.countries agreement)).
Proof.
  assert (Hlookup :
            default [] (SyncTariffs.countryAgreements agreements !! country)
            = flat_map (fun agreement =>
                          map (fun _ => TradeAgreement.code agreement)
                              (List.filter (fun c => String.eqb c country)
                                           (TradeAgreement.countries agreement)))
                       agreements).
  { unfold SyncTariffs.countryAgreements. rewrite countryAgreements_from.
    rewrite lookup_empty. reflexivity. }
  split; [exact Hlookup|].
  rewrite Hlookup, includes_string_In, in_flat_map. split.
  - intros [agreement [Hin Hcode]]. apply in_map_iff in Hcode.
    destruct Hcode as [c [Hcode Hlisted]]. apply filter_In in Hlisted.
    destruct Hlisted as [Hlisted Heq]. apply String.eqb_eq in Heq. subst c.
    exists agreement. auto.
  - intros [agreement [Hin [Hcode Hlisted]]]. exists agreement. split; [exact Hin|].
    apply in_map_iff. exists country. split; [exact Hcode|].
    apply filter_In. split; [exact Hlisted | apply String.eqb_refl].
Qed.

Section RatesFor.

Lemma filter_rates_applicable (countryCode : string) (rates : list JsObject) :
  forall kept,
    SyncTariffs.filter_rates countryCode rates = Ok kept ->
    (forall rate, In rate kept -> SyncTariffs.applies_to countryCode rate = Ok true)
    /\ (length kept <= length rates)%nat.
Proof.
  induction rates as [|rate rest IH]; intros kept; simpl.
  - intros [= <-]. split; [intros ? [] | apply Nat.le_refl].
  - destruct (SyncTariffs.applies_to countryCode rate) as [keep|e] eqn:E; [|discriminate].
    destruct (SyncTariffs.filter_rates countryCode rest) as [kept'|e]; [|discriminate].
    intros [= <-]. destruct (IH kept' eq_refl) as [Happ Hlen].
    destruct keep; simpl.
    + split; [|apply le_n_S; exact Hlen].
      intros r [<-|Hin]; [exact E | apply Happ; exact Hin].
    + split; [exact Happ | apply Nat.le_trans with (length rest); [exact Hlen | apply Nat.le_succ_diag_r]].
Qed.

Lemma adjusted_applies (countryCode : string) (rate : JsObject) :
  SyncTariffs.applies_to countryCode (set_field rate "rate" (JNum zero))
  = SyncTariffs.applies_to countryCode rate.
Proof.
  unfold SyncTariffs.applies_to.
  rewrite field_set_field_other by discriminate. reflexivity.
Qed.

End RatesFor.

(** X6. The rates the tariff sync stores for a country are rates that apply
    to it: every one of them either names no countries or names the
    country, also after the agreement adjustment; there are no more of them
    than the product has, and none when the product's rates are not a
    list. *)
Theorem rates_for_only_applicable
    (agreementsOf : gmap string (list string)) (product : Product.t)
    (country : Country.t) (rates : list JsObject) :
  SyncTariffs.rates_for agreementsOf product country = Ok rates ->
  (forall rate, In rate rates ->
                SyncTariffs.applies_to (Country.code country) rate = Ok true)
  /\ (length rates <= length (default [] (Product.additional_rates product)))%nat
  /\ (Product.additional_rates product = None -> rates = []).
Proof.
  unfold SyncTariffs.rates_for.
  destruct (Product.additional_rates product) as [stored|] eqn:Hstored.
  - destruct (SyncTariffs.filter_rates (Country.code country) stored) as [kept|e] eqn:Hkept;
      [|discriminate].
    destruct (filter_rates_applicable _ _ _ Hkept) as [Happ Hlen].
    intros [= <-]. split; [|split; [|discriminate]].
    + destruct (0 <? length _)%nat; [|exact Happ].
      unfold SyncTariffs.adjustRatesForTradeAgreements.
      destruct (includes_string "FTA" _); [|exact Happ].
      intros rate Hin. apply in_map_iff in Hin. destruct Hin as [r0 [<- Hin]].
      destruct (strict_eq (field r0 "type") (JStr "standard")).
      * rewrite adjusted_applies. apply Happ. exact Hin.
      * apply Happ. exact Hin.
    + simpl. destruct (0 <? length _)%nat; [|exact Hlen].
      unfold SyncTariffs.adjustRatesForTradeAgreements.
      destruct (includes_string "FTA" _); [rewrite length_map|]; exact Hlen.
  - intros [= <-].
    assert (Hnil : (if (0 <? length (default [] (agreementsOf !! Country.code country)))%nat
                    then SyncTariffs.adjustRatesForTradeAgreements []
                           (default [] (agreementsOf !! Country.code country))
                    else []) = []).
    { destruct (0 <? length _)%nat; [|reflexivity].
      unfold SyncTariffs.adjustRatesForTradeAgreements.
      destruct (includes_string "FTA" _); reflexivity. }
    rewrite Hnil. split; [intros ? []|]. split; [apply Nat.le_refl | reflexivity].
Qed.

Lemma rates_for_only_applicable_witness :
  SyncTariffs.applies_to (Country.code Scenario.china)
    [("type", JStr "standard"); ("rate", JStr "7.5")]
  = Ok true.
Proof.
  refine (proj1 (rates_for_only_applicable ∅ Scenario.horses Scenario.china
                   [[("type", JStr "standard"); ("rate", JStr "7.5")]] _) _ _).
  - vm_compute. reflexivity.
  - left. reflexivity.
Defined.

(** ** Frames *)

Section Frames.

Context {B : Type} (view : Store -> B).

Lemma keeps_ret {A} (a : A) : keeps view (ret a).
Proof. intros s. reflexivity. Qed.

Lemma keeps_throw {A} (e : Thrown) : keeps view (@throw A e).
Proof. intros s. reflexivity. Qed.

Lemma keeps_gets {A} (f : Store -> A) : keeps view (gets f).
Proof. intros s. reflexivity. Qed.

Lemma keeps_check (env : Env) (op : DbOp) : keeps view (check env op).
Proof. intros s. unfold check. destruct (db_error env op); reflexivity. Qed.

Lemma keeps_modify (f : Store -> Store) :
  (forall s, view (f s) = view s) -> keeps view (modify f).
Proof. intros H s. apply H. Qed.

Lemma keeps_bind {A C} (m : Action A) (k : A -> Action C) :
  keeps view m -> (forall a, keeps view (k a)) -> keeps view (bind m k).
Proof.
  intros Hm Hk s. unfold bind. specialize (Hm s).
  destruct (m s) as [[a|e] s']; cbn [snd] in *.
  - rewrite Hk. exact Hm.
  - exact Hm.
Qed.

Lemma keeps_for_each {A} (xs : list A) (body : A -> Action unit) :
  (forall x, keeps view (body x)) -> keeps view (for_each xs body).
Proof.
  intros Hbody. induction xs as [|x rest IH]; simpl.
  - apply keeps_ret.
  - apply keeps_bind; [apply Hbody | intros _; exact IH].
Qed.

End Frames.

Section NotifierFrames.

Context {B : Type} (view : Store -> B).
Hypothesis view_emitted : forall v s, view (with_emitted v s) = view s.
Hypothesis view_notifications : forall v s, view (with_notifications v s) = view s.

Lemma notifier_keeps (env : Env) (data : NotificationData) :
  keeps view (NotificationService.notifyProductWatchers env data).
Proof.
  unfold NotificationService.notifyProductWatchers.
  apply keeps_bind; [apply keeps_modify; intros s; apply view_emitted | intros _].
  destruct (nd_productId data) as [productId|]; [|apply keeps_throw].
  destruct (String.eqb productId ""); [apply keeps_throw|].
  apply keeps_bind; [apply keeps_check | intros _].
  apply keeps_bind; [apply keeps_gets | intros watchlist].
  destruct watchlist; [apply keeps_ret|].
  apply keeps_bind; [apply keeps_check | intros _].
  apply keeps_modify. intros s. apply view_notifications.
Qed.

Lemma update_notifier_keeps (env : Env) (updateId : Z) :
  keeps view (NotificationService.notifyAboutTradeUpdates env updateId).
Proof.
  unfold NotificationService.notifyAboutTradeUpdates.
  apply keeps_bind; [apply keeps_check | intros _].
  apply keeps_bind; [apply keeps_gets | intros found].
  destruct found as [update|]; [|apply keeps_throw].
  destruct (TradeUpdate.description update) as [description|]; [|apply keeps_throw].
  destruct (NotificationService.hts_matches 0 false description); [apply keeps_ret|].
  apply keeps_bind; [apply keeps_check | intros _].
  apply keeps_bind; [apply keeps_gets | intros affected].
  apply keeps_for_each. intros product. apply notifier_keeps.
Qed.

End NotifierFrames.

(** ** Sync records on failure *)

Section FailureFacts.

Lemma fail_row_id (env : Env) (type : SyncType) (message : string) (r : SyncStatus.t) :
  SyncStatus.id (SyncRun.fail_row env type message r) = SyncStatus.id r.
Proof.
  unfold SyncRun.fail_row.
  destruct (SyncStatus.completed_at r); [reflexivity|].
  destruct (SyncRun.SyncType_eqb _ _); reflexivity.
Qed.

Lemma SyncType_eqb_eq (a b : SyncType) : SyncRun.SyncType_eqb a b = true <-> a = b.
Proof. destruct a, b; simpl; split; congruence. Qed.

Lemma fail_row_open (env : Env) (type : SyncType) (message : string) (r : SyncStatus.t) :
  SyncStatus.type r = type -> SyncStatus.completed_at r = None ->
  SyncRun.fail_row env type message r = closed_as_failed env message r.
Proof.
  intros Htype Hopen. unfold SyncRun.fail_row. rewrite Hopen.
  destruct (SyncRun.SyncType_eqb (SyncStatus.type r) type) eqn:E; [reflexivity|].
  apply SyncType_eqb_eq in Htype. congruence.
Qed.

Lemma fail_row_other (env : Env) (type : SyncType) (message : string) (r : SyncStatus.t) :
  SyncStatus.type r <> type \/ SyncStatus.completed_at r <> None ->
  SyncRun.fail_row env type message r = r.
Proof.
  intros H. unfold SyncRun.fail_row.
  destruct (SyncStatus.completed_at r) as [t|]; [reflexivity|].
  destruct (SyncRun.SyncType_eqb (SyncStatus.type r) type) eqn:E; [|reflexivity].
  apply SyncType_eqb_eq in E. destruct H as [H|H]; congruence.
Qed.

End FailureFacts.

(** X7. When a sync run throws, its catch block asks the store to close
    every record of the run's type that has no completion time, the record
    of this run and any record an earlier run left 'running' alike. Once
    the store takes that update these records are 'failed', with the
    message of the error when it is an [Error] instance and with 'Unknown
    error' when it is the error object of the persistence client; records
    of other types and records already closed stay as they are, and no
    record of the type is left open. When the store refuses the update,
    whose answer the block does not read, every record stays as it was.
    The error is raised again either way. *)
Theorem failed_run_closes_open_records
    (finish : Env) (type : SyncType) (body : Action unit)
    (s s' : Store) (e : Thrown) :
  SyncRun.guarded finish type body s = (Err e, s') ->
  fst (body s) = Err e
  /\ (db_error finish UpdateSyncStatus = None ->
      (forall r, In r (sync_status (snd (body s))) ->
                 SyncStatus.type r = type -> SyncStatus.completed_at r = None ->
                 In (closed_as_failed finish
                       (match e with
                        | ErrorInstance message => message
                        | StoreError _ => "Unknown error"
                        end) r)
                    (sync_status s'))
      /\ (forall r, In r (sync_status (snd (body s))) ->
                    SyncStatus.type r <> type \/ SyncStatus.completed_at r <> None ->
                    In r (sync_status s'))
      /\ (forall r, In r (sync_status s') ->
                    SyncStatus.type r = type -> SyncStatus.completed_at r <> None)
      /\ length (sync_status s') = length (sync_status (snd (body s))))
  /\ (db_error finish UpdateSyncStatus <> None -> s' = snd (body s)).
Proof.
  unfold SyncRun.guarded. destruct (body s) as [[v|e'] s1] eqn:Hbody; [discriminate|].
  intros [= -> <-]. cbn [fst snd].
  split; [reflexivity|]. split.
  - intros Haccepted. rewrite Haccepted. cbn [sync_status with_sync_status].
    change (match e with
            | ErrorInstance message => message
            | StoreError _ => "Unknown error"
            end) with (SyncRun.error_message e).
    split; [|split; [|split]].
    + intros r Hin Htype Hopen.
      rewrite <- (fail_row_open finish type (SyncRun.error_message e) r Htype Hopen).
      apply in_map. exact Hin.
    + intros r Hin Hother.
      rewrite <- (fail_row_other finish type (SyncRun.error_message e) r Hother) at 1.
      apply in_map. exact Hin.
    + intros r Hin Htype. apply in_map_iff in Hin. destruct Hin as [r0 [<- Hin]].
      unfold SyncRun.fail_row in *.
      destruct (SyncStatus.completed_at r0) as [t|] eqn:Hc; [rewrite Hc; discriminate|].
      destruct (SyncRun.SyncType_eqb (SyncStatus.type r0) type) eqn:E.
      * discriminate.
      * cbn in Htype. apply SyncType_eqb_eq in Htype. congruence.
    + apply length_map.
  - intros Hrefused.
    destruct (db_error finish UpdateSyncStatus); [reflexivity | contradiction].
Qed.

Lemma failed_run_closes_open_records_witness :
  In (closed_as_failed (healthy 3000) "Unknown error" Samples.stuck)
     (sync_status (snd (SyncTariffs.syncTariffs Samples.blocked_run Samples.stuck_store))).
Proof.
  destruct (failed_run_closes_open_records (healthy 3000) tariffs_sync
              (SyncTariffs.body Samples.blocked_run) Samples.stuck_store
              (snd (SyncTariffs.syncTariffs Samples.blocked_run Samples.stuck_store))
              (StoreError "connection lost") eq_refl)
    as [_ [Hclosed _]].
  destruct (Hclosed eq_refl) as [Hfailed _].
  apply Hfailed.
  - left. reflexivity.
  - reflexivity.
  - reflexivity.
Defined.

(** ** Tariff sync: failures during set-up *)

(** X8. When the tariff sync cannot read the countries, cannot fetch the
    trade agreements, or cannot read the products, it raises that error
    again, no tariff rate is written and nobody is notified. Once the store
    takes the closing update the run's record ends 'failed' with a
    completion time and, as its message, the message of the fetch error or,
    for the two reads, 'Unknown error' (the store's error is no [Error]
    instance); when the store refuses that update too the record stays
    'running'. *)
Theorem syncTariffs_setup_failure_marks_failed
    (r : SyncTariffs.Run) (s : Store) (e : Thrown) :
  db_error (SyncTariffs.setup r) InsertSyncStatus = None ->
  (exists message,
      db_error (SyncTariffs.setup r) SelectCountries = Some message
      /\ e = StoreError message)
  \/ (db_error (SyncTariffs.setup r) SelectCountries = None
      /\ countries s <> []
      /\ (SyncTariffs.agreements r = Err e
          \/ (exists agreed, SyncTariffs.agreements r = Ok agreed)
             /\ exists message,
                  db_error (SyncTariffs.setup r) SelectProducts = Some message
                  /\ e = StoreError message)) ->
  let syncId := SyncRun.fresh_id (sync_status s) in
  let created :=
    SyncStatus.mk syncId tariffs_sync running (Iso (now (SyncTariffs.setup r))) None None in
  exists s',
    SyncTariffs.syncTariffs r s = (Err e, s')
    /\ (db_error (SyncTariffs.finish r) UpdateSyncStatus = None ->
        In (closed_as_failed (SyncTariffs.finish r) (SyncRun.error_message e) created)
           (sync_status s')
        /\ SyncRun.status_of syncId s' = Some failed)
    /\ (db_error (SyncTariffs.finish r) UpdateSyncStatus <> None ->
        sync_status s' = sync_status s ++ [created]
        /\ SyncRun.status_of syncId s' = Some running)
    /\ (forall message, e = StoreError message ->
                        SyncRun.error_message e = "Unknown error")
    /\ tariff_rates s' = tariff_rates s
    /\ notifications s' = notifications s.
Proof.
  intros Hinsert Hcase. cbv zeta.
  set (created := SyncStatus.mk _ _ _ _ _ _).
  set (s1 := with_sync_status (sync_status s ++ [created]) s).
  assert (Hbody : SyncTariffs.body r s = (Err e, s1)).
  { unfold SyncTariffs.body, SyncRun.start.
    unfold bind, check, gets, ret, throw. rewrite Hinsert.
    destruct Hcase as [[message [Hcountries ->]]|[Hcountries [Hsome Hcase]]];
      rewrite Hcountries; [reflexivity|].
    cbn [countries with_sync_status].
    destruct (countries s) as [|country rest]; [congruence|].
    destruct Hcase as [Hagreed|[[agreed Hagreed] [message [Hproducts ->]]]];
      rewrite Hagreed; [reflexivity|].
    rewrite Hproducts. reflexivity. }
  unfold SyncTariffs.syncTariffs, SyncRun.guarded. rewrite Hbody.
  eexists. split; [reflexivity|].
  split; [|split; [|split; [|split]]].
  - intros Haccepted. rewrite Haccepted. cbn [sync_status with_sync_status s1].
    split.
    + rewrite map_app. apply in_or_app. right. left. reflexivity.
    + unfold SyncRun.status_of. cbn [sync_status with_sync_status].
      rewrite find_map_same_id by apply fail_row_id.
      rewrite find_fresh by reflexivity. reflexivity.
  - intros Hrefused.
    destruct (db_error (SyncTariffs.finish r) UpdateSyncStatus); [|contradiction].
    split; [reflexivity|].
    unfold SyncRun.status_of. cbn [sync_status with_sync_status s1].
    rewrite find_fresh by reflexivity. reflexivity.
  - intros message ->. reflexivity.
  - destruct (db_error (SyncTariffs.finish r) UpdateSyncStatus); reflexivity.
  - destruct (db_error (SyncTariffs.finish r) UpdateSyncStatus); reflexivity.
Qed.

Lemma syncTariffs_setup_failure_marks_failed_witness :
  exists s',
    SyncTariffs.syncTariffs Samples.blocked_run Samples.stuck_store
    = (Err (StoreError "connection lost"), s')
    /\ In (closed_as_failed (healthy 3000) "Unknown error"
             (SyncStatus.mk 2 tariffs_sync running (Iso 1000) None None))
          (sync_status s')
    /\ SyncRun.status_of (SyncRun.fresh_id (sync_status Samples.stuck_store)) s'
       = Some failed.
Proof.
  destruct (syncTariffs_setup_failure_marks_failed Samples.blocked_run Samples.stuck_store
              (StoreError "connection lost"))
    as [s' [Hrun [Haccepted _]]].
  - reflexivity.
  - left. exists "connection lost". split; reflexivity.
  - exists s'. split; [exact Hrun|]. exact (Haccepted eq_refl).
Defined.

(** ** Updates sync: record and stored rows *)

Section UpdatesRun.

Variable r : SyncUpdates.Run.

Lemma insert_update_keeps {B} (view : Store -> B) (notice : Notice.t) :
  (forall v s, view (with_trade_updates v s) = view s) ->
  keeps view (SyncUpdates.insert_update (SyncUpdates.setup r) notice).
Proof.
  intros Hview. unfold SyncUpdates.insert_update.
  apply keeps_bind; [apply keeps_check | intros _].
  intros s. cbn [snd]. apply Hview.
Qed.

(** One turn of the loop over the new notices. *)
Local Abbreviation turn :=
  (fun notice : Notice.t =>
     let* updateId := SyncUpdates.insert_update (SyncUpdates.setup r) notice in
     NotificationService.notifyAboutTradeUpdates (SyncUpdates.setup r) updateId).

Lemma turns_keep_records (fresh : list Notice.t) :
  keeps sync_status (for_each fresh turn).
Proof.
  apply keeps_for_each. intros notice.
  apply keeps_bind.
  - apply insert_update_keeps. reflexivity.
  - intros updateId. apply update_notifier_keeps; reflexivity.
Qed.

(** What is left of the body once the record is created. *)
Local Abbreviation tail syncId :=
  (exec check (SyncUpdates.setup r) SelectTradeUpdates in
   let* refs := gets (fun s => SyncUpdates.existingRefs (trade_updates s)) in
   match SyncUpdates.notices r with
   | Err e => throw e
   | Ok fetched =>
       exec for_each (SyncUpdates.newNotices refs fetched) turn in
       SyncRun.complete (SyncUpdates.finish r) syncId
   end).

Lemma tail_records (syncId : Z) (s1 : Store) :
  syncId <> 0 ->
  sync_status (snd (tail (Some syncId) s1))
  = if is_ok (fst (tail (Some syncId) s1))
    then match db_error (SyncUpdates.finish r) UpdateSyncStatus with
         | Some _ => sync_status s1
         | None =>
             map (SyncRun.complete_row (SyncUpdates.finish r) syncId) (sync_status s1)
         end
    else sync_status s1.
Proof.
  intros Hid. unfold bind, check, gets.
  destruct (db_error (SyncUpdates.setup r) SelectTradeUpdates); [reflexivity|].
  cbn [ret fst snd].
  destruct (SyncUpdates.notices r) as [fetched|e]; [|reflexivity].
  match goal with
  | |- context [for_each ?l ?f s1] =>
      assert (Hkeep : sync_status (snd (for_each l f s1)) = sync_status s1)
        by exact (turns_keep_records l s1);
      destruct (for_each l f s1) as [[[]|e] s2]
  end; cbn [snd] in Hkeep.
  - unfold SyncRun.complete. destruct (Z.eqb_spec syncId 0); [contradiction|].
    destruct (db_error (SyncUpdates.finish r) UpdateSyncStatus);
      cbn; rewrite Hkeep; reflexivity.
  - cbn. exact Hkeep.
Qed.

Lemma run_after_start (s : Store) :
  db_error (SyncUpdates.setup r) InsertSyncStatus = None ->
  let syncId := SyncRun.fresh_id (sync_status s) in
  let created :=
    SyncStatus.mk syncId updates_sync running (Iso (now (SyncUpdates.setup r))) None None in
  let s1 := with_sync_status (sync_status s ++ [created]) s in
  SyncUpdates.syncUpdates r s
  = match tail (Some syncId) s1 with
    | (Ok v, s') => (Ok v, s')
    | (Err e, s') =>
        (Err e,
         match db_error (SyncUpdates.finish r) UpdateSyncStatus with
         | Some _ => s'
         | None =>
             with_sync_status
               (map (SyncRun.fail_row (SyncUpdates.finish r) updates_sync
                       (SyncRun.error_message e)) (sync_status s')) s'
         end)
    end.
Proof.
  intros Hinsert. cbv zeta.
  unfold SyncUpdates.syncUpdates, SyncRun.guarded, SyncUpdates.body, SyncRun.start.
  unfold bind at 1. rewrite Hinsert. reflexivity.
Qed.

Lemma closes_record (s : Store) :
  db_error (SyncUpdates.setup r) InsertSyncStatus = None ->
  SyncRun.status_of (SyncRun.fresh_id (sync_status s)) (snd (SyncUpdates.syncUpdates r s))
  = Some (match db_error (SyncUpdates.finish r) UpdateSyncStatus with
          | None => if is_ok (fst (SyncUpdates.syncUpdates r s)) then completed else failed
          | Some _ => running
          end).
Proof.
  intros Hinsert.
  pose proof (fresh_id_positive (sync_status s)) as Hpos.
  rewrite (run_after_start s Hinsert).
  set (created := SyncStatus.mk _ _ _ _ _ _).
  set (s1 := with_sync_status (sync_status s ++ [created]) s).
  pose proof (tail_records (SyncRun.fresh_id (sync_status s)) s1 ltac:(lia)) as Htail.
  destruct (tail (Some (SyncRun.fresh_id (sync_status s))) s1) as [[[]|e] s2];
    cbn [fst snd is_ok] in *; unfold SyncRun.status_of;
    destruct (db_error (SyncUpdates.finish r) UpdateSyncStatus);
    cbn [sync_status with_sync_status]; rewrite Htail; subst s1;
    cbn [sync_status with_sync_status].
  - rewrite find_fresh by reflexivity. reflexivity.
  - rewrite find_map_same_id by apply complete_row_id.
    rewrite find_fresh by reflexivity.
    cbn. unfold SyncRun.complete_row. subst created. cbn [SyncStatus.id].
    rewrite Z.eqb_refl. reflexivity.
  - rewrite find_fresh by reflexivity. reflexivity.
  - rewrite find_map_same_id by apply fail_row_id.
    rewrite find_fresh by reflexivity. reflexivity.
Qed.

End UpdatesRun.

(** X9. Every run of the updates sync that could create its record asks
    the store to close it, whatever happens in between: once the store
    takes that update, the record is 'completed' when the run returns
    normally and 'failed' when it throws, at whatever point; when the store
    refuses the update, whose answer the run does not read, the record
    stays 'running'. *)
Theorem syncUpdates_closes_its_record (r : SyncUpdates.Run) (s : Store) :
  db_error (SyncUpdates.setup r) InsertSyncStatus = None ->
  SyncRun.status_of (SyncRun.fresh_id (sync_status s)) (snd (SyncUpdates.syncUpdates r s))
  = Some (match db_error (SyncUpdates.finish r) UpdateSyncStatus with
          | None => if is_ok (fst (SyncUpdates.syncUpdates r s)) then completed else failed
          | Some _ => running
          end).
Proof.
  exact (closes_record r s).
Qed.

Lemma syncUpdates_closes_its_record_witness :
  SyncRun.status_of (SyncRun.fresh_id (sync_status Scenario.backlog_store))
    (snd (SyncUpdates.syncUpdates (Samples.unanswered_run [Samples.bare_notice])
            Scenario.backlog_store))
  = Some running.
Proof.
  apply (syncUpdates_closes_its_record (Samples.unanswered_run [Samples.bare_notice])
           Scenario.backlog_store).
  reflexivity.
Defined.

Section UpdatesRows.

Variable r : SyncUpdates.Run.

Local Abbreviation turn :=
  (fun notice : Notice.t =>
     let* updateId := SyncUpdates.insert_update (SyncUpdates.setup r) notice in
     NotificationService.notifyAboutTradeUpdates (SyncUpdates.setup r) updateId).

Lemma for_each_step {A} (x : A) (rest : list A) (body : A -> Action unit) (s : Store) :
  for_each (x :: rest) body s
  = match body x s with
    | (Ok _, s') => for_each rest body s'
    | (Err e, s') => (Err e, s')
    end.
Proof. reflexivity. Qed.

Lemma turn_rows (notice : Notice.t) (s1 : Store) :
  (trade_updates (snd (turn notice s1)) = trade_updates s1
   /\ is_ok (fst (turn notice s1)) = false)
  \/ (exists u, trade_updates (snd (turn notice s1)) = trade_updates s1 ++ [u]
                /\ stored_from notice u).
Proof.
  assert (Hturn :
            turn notice s1
            = match db_error (SyncUpdates.setup r) InsertTradeUpdate with
              | Some e => (Err (StoreError e), s1)
              | None =>
                  NotificationService.notifyAboutTradeUpdates (SyncUpdates.setup r)
                    (SyncUpdates.fresh_id (trade_updates s1))
                    (with_trade_updates
                       (trade_updates s1
                        ++ [TradeUpdate.mk (SyncUpdates.fresh_id (trade_updates s1))
                              (Notice.title notice) (Notice.abstract notice)
                              (SyncUpdates.determineImpactLevel notice)
                              (Notice.html_url notice) (Notice.document_number notice)
                              (Notice.publication_date notice)]) s1)
              end).
  { unfold bind, SyncUpdates.insert_update, check.
    destruct (db_error (SyncUpdates.setup r) InsertTradeUpdate); reflexivity. }
  cbv beta in Hturn |- *. rewrite Hturn. clear Hturn.
  destruct (db_error (SyncUpdates.setup r) InsertTradeUpdate); [left; split; reflexivity|].
  right. eexists. split.
  - rewrite (update_notifier_keeps trade_updates
               ltac:(reflexivity) ltac:(reflexivity)). reflexivity.
  - repeat split.
Qed.

Lemma turns_rows (fresh : list Notice.t) :
  forall s1,
  exists n added,
    trade_updates (snd (for_each fresh turn s1)) = trade_updates s1 ++ added
    /\ Forall2 stored_from (take n fresh) added
    /\ (is_ok (fst (for_each fresh turn s1)) = true -> n = length fresh).
Proof.
  induction fresh as [|notice rest IH]; intros s1.
  - exists 0%nat, []. cbn. rewrite app_nil_r. repeat split. constructor.
  - rewrite for_each_step.
    destruct (turn_rows notice s1) as [[Hsame Hfailed]|[u [Hrow Hstored]]].
    + destruct (turn notice s1) as [[v|e] s2]; [discriminate Hfailed|].
      exists 0%nat, []. cbn [fst snd take is_ok] in *. rewrite app_nil_r.
      split; [exact Hsame|]. split; [constructor | discriminate].
    + destruct (turn notice s1) as [[v|e] s2]; cbn [snd] in Hrow.
      * destruct (IH s2) as [n [added [Hrows [Hall Hlen]]]].
        exists (S n), (u :: added). split; [|split].
        -- rewrite Hrows, Hrow, <- app_assoc. reflexivity.
        -- cbn [take]. constructor; assumption.
        -- intros Hok. cbn [length]. f_equal. apply Hlen. exact Hok.
      * exists 1%nat, [u]. cbn [fst snd is_ok]. split; [exact Hrow|].
        split; [|discriminate]. cbn [take]. rewrite take_0.
        constructor; [exact Hstored | constructor].
Qed.

Local Abbreviation tail syncId :=
  (exec check (SyncUpdates.setup r) SelectTradeUpdates in
   let* refs := gets (fun s => SyncUpdates.existingRefs (trade_updates s)) in
   match SyncUpdates.notices r with
   | Err e => throw e
   | Ok fetched =>
       exec for_each (SyncUpdates.newNotices refs fetched) turn in
       SyncRun.complete (SyncUpdates.finish r) syncId
   end).

Local Abbreviation fresh_of s :=
  (match SyncUpdates.notices r with
   | Ok fetched => SyncUpdates.newNotices (SyncUpdates.existingRefs (trade_updates s)) fetched
   | Err _ => []
   end).

Lemma tail_rows (syncId : option Z) (s1 : Store) :
  exists n added,
    trade_updates (snd (tail syncId s1)) = trade_updates s1 ++ added
    /\ Forall2 stored_from (take n (fresh_of s1)) added
    /\ (is_ok (fst (tail syncId s1)) = true -> n = length (fresh_of s1)).
Proof.
  remember (tail syncId s1) as result eqn:Hres.
  unfold bind at 1, check in Hres.
  destruct (db_error (SyncUpdates.setup r) SelectTradeUpdates).
  { subst result. exists 0%nat, []. cbn [fst snd is_ok throw]. rewrite app_nil_r, take_0.
    split; [reflexivity|]. split; [apply Forall2_nil | intros H; discriminate H]. }
  cbn [ret] in Hres. unfold bind at 1, gets in Hres.
  destruct (SyncUpdates.notices r) as [fetched|e].
  2:{ subst result. exists 0%nat, []. cbn [fst snd is_ok throw take]. rewrite app_nil_r.
      split; [reflexivity|]. split; [apply Forall2_nil | intros H; discriminate H]. }
  unfold bind at 1 in Hres.
  destruct (turns_rows (SyncUpdates.newNotices
                          (SyncUpdates.existingRefs (trade_updates s1)) fetched) s1)
    as [n [added [Hrows [Hall Hlen]]]].
  destruct (for_each _ turn s1) as [[[]|e] s2]; cbn [fst snd is_ok] in *; subst result.
  - exists n, added. split; [|split; [exact Hall | intros _; apply Hlen; reflexivity]].
    rewrite <- Hrows. unfold SyncRun.complete.
    destruct syncId as [syncId|]; [destruct (syncId =? 0)%Z|]; try reflexivity.
    destruct (db_error (SyncUpdates.finish r) UpdateSyncStatus); reflexivity.
  - exists n, added. cbn [fst snd is_ok]. split; [exact Hrows|].
    split; [exact Hall | intros H; discriminate H].
Qed.

Lemma run_cases (s : Store) :
  SyncUpdates.syncUpdates r s
  = match db_error (SyncUpdates.setup r) InsertSyncStatus with
    | Some _ =>
        SyncRun.guarded (SyncUpdates.finish r) updates_sync (tail None) s
    | None =>
        SyncRun.guarded (SyncUpdates.finish r) updates_sync
          (tail (Some (SyncRun.fresh_id (sync_status s))))
          (with_sync_status
             (sync_status s
              ++ [SyncStatus.mk (SyncRun.fresh_id (sync_status s)) updates_sync running
                    (Iso (now (SyncUpdates.setup r))) None None]) s)
    end.
Proof.
  unfold SyncUpdates.syncUpdates, SyncRun.guarded, SyncUpdates.body, SyncRun.start.
  unfold bind at 1.
  destruct (db_error (SyncUpdates.setup r) InsertSyncStatus); reflexivity.
Qed.

Lemma guarded_rows (syncId : option Z) (s1 : Store) :
  exists n added,
    trade_updates (snd (SyncRun.guarded (SyncUpdates.finish r) updates_sync
                          (tail syncId) s1))
    = trade_updates s1 ++ added
    /\ Forall2 stored_from (take n (fresh_of s1)) added
    /\ (is_ok (fst (SyncRun.guarded (SyncUpdates.finish r) updates_sync
                      (tail syncId) s1)) = true
        -> n = length (fresh_of s1)).
Proof.
  destruct (tail_rows syncId s1) as [n [added [Hrows [Hall Hlen]]]].
  exists n, added. unfold SyncRun.guarded.
  destruct (tail syncId s1) as [[v|e] s2]; cbn [fst snd is_ok] in *.
  - auto.
  - split; [|split; [exact Hall | intros H; discriminate H]].
    destruct (db_error (SyncUpdates.finish r) UpdateSyncStatus); exact Hrows.
Qed.

Lemma only_appends (s : Store) :
  exists n added,
    trade_updates (snd (SyncUpdates.syncUpdates r s)) = trade_updates s ++ added
    /\ Forall2 stored_from (take n (fresh_of s)) added
    /\ (is_ok (fst (SyncUpdates.syncUpdates r s)) = true -> n = length (fresh_of s)).
Proof.
  rewrite run_cases.
  destruct (db_error (SyncUpdates.setup r) InsertSyncStatus).
  - apply guarded_rows.
  - match goal with
    | |- context [SyncRun.guarded _ _ _ ?s1] =>
        pose proof (guarded_rows (Some (SyncRun.fresh_id (sync_status s))) s1) as Hrows
    end.
    cbn [trade_updates with_sync_status] in Hrows. exact Hrows.
Qed.

End UpdatesRows.

(** X10. The updates sync only ever appends to [trade_updates]: the rows
    that were stored stay as they are and in place, and the rows added come
    one per new notice, in the order of the fetched notices, each with the
    notice's document number, title, abstract, publication date and impact
    level; a run that returns normally has stored every new notice, a run
    that throws has stored a first stretch of them. *)
Theorem syncUpdates_only_appends (r : SyncUpdates.Run) (s : Store) :
  let fresh :=
    match SyncUpdates.notices r with
    | Ok fetched => SyncUpdates.newNotices (SyncUpdates.existingRefs (trade_updates s)) fetched
    | Err _ => []
    end in
  exists n added,
    trade_updates (snd (SyncUpdates.syncUpdates r s)) = trade_updates s ++ added
    /\ Forall2 stored_from (take n fresh) added
    /\ (is_ok (fst (SyncUpdates.syncUpdates r s)) = true -> n = length fresh).
Proof.
  exact (only_appends r s).
Qed.

Section SecondPass.

Lemma In_take {A} (n : nat) (x : A) (xs : list A) : In x (take n xs) -> In x xs.
Proof.
  revert xs. induction n as [|n IH]; intros [|y rest]; simpl; try tauto.
  intros [->|H]; [left; reflexivity | right; apply IH; exact H].
Qed.

Lemma Forall2_In_left {A C} (R : A -> C -> Prop) (xs : list A) (ys : list C) (x : A) :
  Forall2 R xs ys -> In x xs -> exists y, In y ys /\ R x y.
Proof.
  induction 1 as [|a b xs' ys' Hab Hrest IH]; simpl; [intros []|].
  intros [->|Hin].
  - exists b. split; [left; reflexivity | exact Hab].
  - destruct (IH Hin) as [y [Hy HR]]. exists y. split; [right; exact Hy | exact HR].
Qed.

Lemma known_reference (table : list TradeUpdate.t) (reference : string) :
  reference ∈ SyncUpdates.existingRefs table ->
  exists u, In u table /\ TradeUpdate.source_reference u = reference.
Proof.
  unfold SyncUpdates.existingRefs, SyncUpdates.existingUpdates.
  rewrite elem_of_list_to_set, list_elem_of_In, in_map_iff.
  intros [u [Href Hin]]. exists u. split; [|exact Href].
  apply In_take in Hin. apply sort_by_In in Hin. exact Hin.
Qed.

Lemma all_skipped (table : list TradeUpdate.t) (fetched : list Notice.t) :
  (length table <= 100)%nat ->
  (forall notice, In notice fetched ->
                  exists u, In u table
                            /\ TradeUpdate.source_reference u = Notice.document_number notice) ->
  SyncUpdates.newNotices (SyncUpdates.existingRefs table) fetched = [].
Proof.
  intros Hsmall Hknown.
  destruct (SyncUpdates.newNotices (SyncUpdates.existingRefs table) fetched)
    as [|notice rest] eqn:Hnew; [reflexivity|].
  assert (Hin : In notice (SyncUpdates.newNotices (SyncUpdates.existingRefs table) fetched))
    by (rewrite Hnew; left; reflexivity).
  exfalso.
  assert (Hfetched : In notice fetched)
    by (unfold SyncUpdates.newNotices in Hin; apply filter_In in Hin; apply Hin).
  destruct (Hknown notice Hfetched) as [u [Hu Href]].
  exact (stored_notice_skipped_within_hundred table fetched notice u Hsmall Hu Href Hin).
Qed.

End SecondPass.

(** X11. While [trade_updates] holds at most a hundred rows, the updates
    sync is idempotent: after a pass that returned normally, a second pass
    over the same notices stores nothing new and returns normally. *)
Theorem syncUpdates_second_pass_is_quiet
    (first second : SyncUpdates.Run) (fetched : list Notice.t) (s s1 : Store) :
  SyncUpdates.notices first = Ok fetched ->
  SyncUpdates.notices second = Ok fetched ->
  SyncUpdates.syncUpdates first s = (Ok tt, s1) ->
  (length (trade_updates s1) <= 100)%nat ->
  db_error (SyncUpdates.setup second) InsertSyncStatus = None ->
  db_error (SyncUpdates.setup second) SelectTradeUpdates = None ->
  exists s2,
    SyncUpdates.syncUpdates second s1 = (Ok tt, s2)
    /\ trade_updates s2 = trade_updates s1.
Proof.
  intros Hfirst Hsecond Hrun Hsmall Hinsert Hselect.
  destruct (only_appends first s) as [n [added [Hrows [Hall Hlen]]]].
  rewrite Hrun in Hrows, Hlen. cbn [fst snd is_ok] in Hrows, Hlen.
  rewrite Hfirst in Hall, Hlen. specialize (Hlen eq_refl). subst n.
  rewrite take_ge in Hall by apply Nat.le_refl.
  assert (Hknown : forall notice, In notice fetched ->
             exists u, In u (trade_updates s1)
                       /\ TradeUpdate.source_reference u = Notice.document_number notice).
  { intros notice Hin.
    destruct (bool_decide (Notice.document_number notice
                           ∈ SyncUpdates.existingRefs (trade_updates s))) eqn:Hseen.
    - apply bool_decide_eq_true in Hseen. apply known_reference in Hseen.
      destruct Hseen as [u [Hu Href]]. exists u. split; [|exact Href].
      rewrite Hrows. apply in_or_app. left. exact Hu.
    - assert (Hnew : In notice (SyncUpdates.newNotices
                                  (SyncUpdates.existingRefs (trade_updates s)) fetched)).
      { unfold SyncUpdates.newNotices. apply filter_In. split; [exact Hin|].
        rewrite Hseen. reflexivity. }
      destruct (Forall2_In_left _ _ _ _ Hall Hnew) as [u [Hu Hstored]].
      exists u. split; [rewrite Hrows; apply in_or_app; right; exact Hu|].
      apply Hstored. }
  destruct (syncUpdates_without_news_returns second s1 fetched Hinsert Hselect Hsecond
              (all_skipped _ _ Hsmall Hknown)) as [s2 [Hrun2 Hsame]].
  exists s2. split; assumption.
Qed.

Lemma syncUpdates_second_pass_is_quiet_witness :
  exists s2,
    SyncUpdates.syncUpdates (Samples.updates_run [Samples.horse_notice])
      (snd (SyncUpdates.syncUpdates (Samples.updates_run [Samples.horse_notice])
              Samples.stuck_store))
    = (Ok tt, s2)
    /\ trade_updates s2
       = trade_updates (snd (SyncUpdates.syncUpdates
                               (Samples.updates_run [Samples.horse_notice])
                               Samples.stuck_store)).
Proof.
  apply (syncUpdates_second_pass_is_quiet
           (Samples.updates_run [Samples.horse_notice])
           (Samples.updates_run [Samples.horse_notice])
           [Samples.horse_notice] Samples.stuck_store).
  - reflexivity.
  - reflexivity.
  - vm_compute. reflexivity.
  - vm_compute. lia.
  - reflexivity.
  - reflexivity.
Defined.

(** ** Product sync *)

Section StaleProducts.

Variable key : Product.t -> Z.

Local Abbreviation by_key := (fun a b : Product.t => (key a <=? key b)%Z).

Lemma insert_by_sorted (x : Product.t) (xs : list Product.t) :
  StronglySorted (fun a b => key a <= key b) xs ->
  StronglySorted (fun a b => key a <= key b) (insert_by by_key x xs).
Proof.
  induction 1 as [|y rest Hsorted IH Hall]; simpl.
  - constructor; constructor.
  - destruct (Z.leb_spec (key x) (key y)) as [Hle|Hgt].
    + constructor; [constructor; assumption|].
      constructor; [exact Hle|].
      eapply Forall_impl; [|exact Hall]. intros z Hz. simpl in Hz. lia.
    + constructor; [exact IH|].
      apply Forall_forall. intros z Hz. apply insert_by_In in Hz.
      destruct Hz as [->|Hz]; [lia|].
      rewrite Forall_forall in Hall. apply Hall. exact Hz.
Qed.

Lemma sort_by_sorted (xs : list Product.t) :
  StronglySorted (fun a b => key a <= key b) (sort_by by_key xs).
Proof.
  unfold sort_by. induction xs as [|x rest IH]; simpl.
  - constructor.
  - apply insert_by_sorted. exact IH.
Qed.

Lemma take_sorted (n : nat) (xs : list Product.t) :
  StronglySorted (fun a b => key a <= key b) xs ->
  StronglySorted (fun a b => key a <= key b) (take n xs).
Proof.
  intros Hsorted. revert n.
  induction Hsorted as [|y rest Hsorted IH Hall]; intros [|n]; simpl; try constructor.
  - apply IH.
  - apply Forall_forall. intros z Hz. apply In_take in Hz.
    rewrite Forall_forall in Hall. apply Hall. exact Hz.
Qed.

End StaleProducts.

Section SortedSplit.

Lemma sorted_app_le {A} (R : A -> A -> Prop) (xs ys : list A) :
  StronglySorted R (xs ++ ys) ->
  forall a b, In a xs -> In b ys -> R a b.
Proof.
  induction xs as [|x rest IH]; simpl; [intros _ a b []|].
  intros Hsorted a b [->|Ha] Hb.
  - apply StronglySorted_inv in Hsorted. destruct Hsorted as [_ Hall].
    rewrite Forall_forall in Hall. apply Hall. apply in_or_app. right. exact Hb.
  - apply StronglySorted_inv in Hsorted. destruct Hsorted as [Hsorted _].
    apply (IH Hsorted a b Ha Hb).
Qed.

End SortedSplit.

(** X12. [findProductsToUpdate(limit)] raises the store's error when the
    select fails and changes nothing either way; otherwise it returns the
    codes of at most [limit] products, every one of them last updated
    before the cut-off, oldest first; a product from before the cut-off it
    leaves out is not older than any it returns, and when no more than
    [limit] products are that old it returns them all. The cut-off is the
    same local time of day seven calendar days earlier: seven days of
    86400000 ms before now, moved by the change of the host's offset from
    UTC over that week. *)
Theorem findProductsToUpdate_returns_oldest_stale (env : Env) (limit : nat) (s : Store) :
  (forall message,
      db_error env SelectProducts = Some message ->
      SyncProducts.findProductsToUpdate env limit s = (Err (StoreError message), s))
  /\ (db_error env SelectProducts = None ->
      exists found,
        SyncProducts.findProductsToUpdate env limit s = (Ok (map Product.hts_code found), s)
        /\ (length found <= limit)%nat
        /\ (forall p, In p found ->
                      In p (products s)
                      /\ instant (Product.last_updated p) < SyncProducts.sevenDaysAgo env)
        /\ StronglySorted (fun a b => instant (Product.last_updated a)
                                      <= instant (Product.last_updated b)) found
        /\ (forall p q,
              In p (products s) ->
              instant (Product.last_updated p) < SyncProducts.sevenDaysAgo env ->
              ~ In p found -> In q found ->
              instant (Product.last_updated q) <= instant (Product.last_updated p))
        /\ ((length (List.filter
                       (fun p => (instant (Product.last_updated p)
                                  <? SyncProducts.sevenDaysAgo env)%Z) (products s))
             <= limit)%nat ->
            forall p, In p (products s) ->
                      instant (Product.last_updated p) < SyncProducts.sevenDaysAgo env ->
                      In p found))
  /\ SyncProducts.sevenDaysAgo env
     = now env - SyncProducts.sevenDays
       + (localTZA env (now env) true
          - localTZA env (localTime env (now env) - SyncProducts.sevenDays) false).
Proof.
  unfold SyncProducts.findProductsToUpdate, bind, check, gets. split; [|split].
  - intros e ->. reflexivity.
  - intros ->. cbn [ret]. unfold SyncProducts.stale.
    set (old := List.filter _ (products s)).
    set (ordered := sort_by _ old).
    assert (Hordered : forall p, In p ordered <->
                                 In p (products s)
                                 /\ instant (Product.last_updated p)
                                    < SyncProducts.sevenDaysAgo env).
    { intros p. subst ordered old. rewrite sort_by_In, filter_In, Z.ltb_lt. reflexivity. }
    assert (Hsorted : StronglySorted
                        (fun a b => instant (Product.last_updated a)
                                    <= instant (Product.last_updated b)) ordered).
    { subst ordered.
      apply (sort_by_sorted (fun p => instant (Product.last_updated p))). }
    exists (take limit ordered). split; [reflexivity|]. split; [|split; [|split; [|split]]].
    + rewrite length_take. apply Nat.le_min_l.
    + intros p Hin. apply Hordered. apply In_take in Hin. exact Hin.
    + apply (take_sorted (fun p => instant (Product.last_updated p))). exact Hsorted.
    + intros p q Hp Hstale Hout Hq.
      assert (Hin : In p (take limit ordered ++ drop limit ordered)).
      { rewrite take_drop. apply Hordered. split; assumption. }
      apply in_app_or in Hin. destruct Hin as [Hin|Hin]; [contradiction|].
      rewrite <- (take_drop limit ordered) in Hsorted.
      exact (sorted_app_le _ _ _ Hsorted q p Hq Hin).
    + intros Hfew p Hp Hstale.
      rewrite take_ge.
      * apply Hordered. split; assumption.
      * subst ordered. rewrite sort_by_length. exact Hfew.
  - unfold SyncProducts.sevenDaysAgo, daysAgo, utc, localTime, msPerDay,
      SyncProducts.sevenDays.
    replace (7 * (24 * 60 * 60 * 1000)) with (7 * 24 * 60 * 60 * 1000) by reflexivity.
    lia.
Qed.

Lemma findProductsToUpdate_returns_oldest_stale_witness :
  (exists found,
      SyncProducts.findProductsToUpdate Samples.autumn 10 Scenario.watched_store
      = (Ok (map Product.hts_code found), Scenario.watched_store)
      /\ (length found <= 10)%nat)
  /\ SyncProducts.sevenDaysAgo Samples.autumn
     = now Samples.autumn - SyncProducts.sevenDays - 3600000.
Proof.
  destruct (findProductsToUpdate_returns_oldest_stale Samples.autumn 10
              Scenario.watched_store) as [_ [Hfound Hcutoff]].
  split.
  - destruct (Hfound eq_refl) as [found [Hrun [Hlen _]]].
    exists found. split; [exact Hrun | exact Hlen].
  - rewrite Hcutoff. reflexivity.
Defined.

(** X13. An incremental product sync that could create its record asks the
    store to close it when there is nothing to aggregate. With nothing
    older than the cut-off the run returns normally and the record is
    'completed'; when the products cannot be read the run raises the
    store's error and the record is 'failed', with the message 'Unknown
    error'. Either way the record stays 'running' when the store refuses
    the closing update, whose answer the run does not read. *)
Theorem syncProducts_incremental_closes_record
    (aggregateProductData : Env -> JsValue -> JsValue -> Action unit)
    (r : SyncProducts.Run) (s : Store) :
  db_error (SyncProducts.setup r) InsertSyncStatus = None ->
  let syncId := SyncRun.fresh_id (sync_status s) in
  let created :=
    SyncStatus.mk syncId products_sync running (Iso (now (SyncProducts.setup r)))
      None None in
  (db_error (SyncProducts.setup r) SelectProducts = None ->
   SyncProducts.stale (SyncProducts.setup r) (SyncProducts.batchSize r) (products s) = [] ->
   exists s',
     SyncProducts.syncProducts aggregateProductData r false s = (Ok tt, s')
     /\ SyncRun.status_of syncId s'
        = Some (match db_error (SyncProducts.finish r) UpdateSyncStatus with
                | None => completed
                | Some _ => running
                end))
  /\ (forall message,
        db_error (SyncProducts.setup r) SelectProducts = Some message ->
        exists s',
          SyncProducts.syncProducts aggregateProductData r false s
          = (Err (StoreError message), s')
          /\ SyncRun.status_of syncId s'
             = Some (match db_error (SyncProducts.finish r) UpdateSyncStatus with
                     | None => failed
                     | Some _ => running
                     end)
          /\ (db_error (SyncProducts.finish r) UpdateSyncStatus = None ->
              In (closed_as_failed (SyncProducts.finish r) "Unknown error" created)
                 (sync_status s'))).
Proof.
  intros Hinsert. cbv zeta. split.
  - intros Hselect Hnone.
    unfold SyncProducts.syncProducts, SyncRun.guarded, SyncProducts.body, SyncRun.start.
    unfold SyncProducts.incrementalProductSync, SyncProducts.findProductsToUpdate.
    unfold bind, check, gets, ret. rewrite Hinsert, Hselect.
    cbn [products with_sync_status]. rewrite Hnone.
    unfold SyncRun.complete, modify.
    pose proof (fresh_id_positive (sync_status s)) as Hpos.
    destruct (Z.eqb_spec (SyncRun.fresh_id (sync_status s)) 0) as [Hzero|_]; [lia|].
    destruct (db_error (SyncProducts.finish r) UpdateSyncStatus);
      (eexists; split; [reflexivity|]);
      unfold SyncRun.status_of; cbn [sync_status with_sync_status].
    + rewrite find_fresh by reflexivity. reflexivity.
    + rewrite find_map_same_id by apply complete_row_id.
      rewrite find_fresh by reflexivity.
      cbn. unfold SyncRun.complete_row. cbn [SyncStatus.id].
      rewrite Z.eqb_refl. reflexivity.
  - intros message Hselect.
    unfold SyncProducts.syncProducts, SyncRun.guarded, SyncProducts.body, SyncRun.start.
    unfold SyncProducts.incrementalProductSync, SyncProducts.findProductsToUpdate.
    unfold bind, check, gets, ret, throw. rewrite Hinsert, Hselect.
    destruct (db_error (SyncProducts.finish r) UpdateSyncStatus);
      (eexists; split; [reflexivity|]);
      unfold SyncRun.status_of; cbn [sync_status with_sync_status]; split.
    + rewrite find_fresh by reflexivity. reflexivity.
    + intros H. discriminate H.
    + rewrite find_map_same_id by apply fail_row_id.
      rewrite find_fresh by reflexivity. reflexivity.
    + intros _. rewrite map_app. apply in_or_app. right. left. reflexivity.
Qed.

Lemma syncProducts_incremental_closes_record_witness :
  exists s',
    SyncProducts.syncProducts (fun _ _ _ => ret tt) Samples.products_run false
      Scenario.empty_store = (Ok tt, s')
    /\ SyncRun.status_of (SyncRun.fresh_id (sync_status Scenario.empty_store)) s'
       = Some completed.
Proof.
  destruct (syncProducts_incremental_closes_record (fun _ _ _ => ret tt)
              Samples.products_run Scenario.empty_store eq_refl) as [Hquiet _].
  exact (Hquiet eq_refl eq_refl).
Defined.

(** ** Notifications *)

Section NotifierFacts.

Variable env : Env.

(** What a notification created for [data] looks like, and for whom it is. *)
Local Abbreviation made_for data s :=
  (fun n : Notification.t =>
     Notification.read n = false
     /\ Notification.type n = nd_type data
     /\ Notification.title n = nd_title data
     /\ Notification.message n = nd_message data
     /\ Notification.created_at n = Iso (now env)
     /\ exists w, In w (user_watchlists s)
                  /\ Watchlist.user_id w = Notification.user_id n
                  /\ Some (Watchlist.product_id w) = nd_productId data
                  /\ Watchlist.notify_changes w = true).

Lemma notifier_adds (data : NotificationData) (s : Store) :
  exists added,
    notifications (snd (NotificationService.notifyProductWatchers env data s))
    = notifications s ++ added
    /\ (is_ok (fst (NotificationService.notifyProductWatchers env data s)) = false ->
        added = [])
    /\ (forall n, In n added -> made_for data s n).
Proof.
  remember (NotificationService.notifyProductWatchers env data s) as result eqn:Hres.
  unfold NotificationService.notifyProductWatchers in Hres.
  unfold bind, check, modify, gets, throw, ret in Hres.
  assert (Hnone : forall e, result = (Err e, with_emitted (emitted s ++ [data]) s) ->
                            exists added,
                              notifications (snd result) = notifications s ++ added
                              /\ (is_ok (fst result) = false -> added = [])
                              /\ (forall n, In n added -> made_for data s n)).
  { intros e ->. exists []. cbn. rewrite app_nil_r.
    split; [reflexivity|]. split; [reflexivity | intros n []]. }
  destruct (nd_productId data) as [productId|] eqn:Hpid; [|eapply Hnone; exact Hres].
  destruct (String.eqb productId ""); [eapply Hnone; exact Hres|].
  destruct (db_error env SelectWatchlist); [eapply Hnone; exact Hres|].
  cbn [user_watchlists with_emitted] in Hres.
  destruct (NotificationService.watchers productId (user_watchlists s))
    as [|w ws] eqn:Hwatchers.
  { subst result. exists []. cbn. rewrite app_nil_r.
    split; [reflexivity|]. split; [reflexivity | intros n []]. }
  destruct (db_error env InsertNotifications).
  { subst result. exists []. cbn. rewrite app_nil_r.
    split; [reflexivity|]. split; [reflexivity | intros n []]. }
  subst result.
  exists (map (NotificationService.notification_for env data) (w :: ws)).
  cbn [fst snd is_ok notifications with_notifications with_emitted].
  split; [reflexivity|]. split; [discriminate|].
  intros n Hin. apply in_map_iff in Hin. destruct Hin as [entry [<- Hentry]].
  rewrite <- Hwatchers in Hentry. unfold NotificationService.watchers in Hentry.
  apply filter_In in Hentry. destruct Hentry as [Hentry Hmatch].
  apply andb_true_iff in Hmatch. destruct Hmatch as [Hproduct Hflag].
  apply String.eqb_eq in Hproduct.
  cbn. repeat split. exists entry. rewrite Hproduct. auto.
Qed.

End NotifierFacts.

(** X14. [notifyProductWatchers] inserts all of its notifications or none:
    when it throws (no product id, an empty one, a refused select or
    insert) no notification is added; every notification it adds is unread,
    carries the given title, message and type, and goes to a user whose
    watch-list entry names the product with [notify_changes] set; rows
    stored before stay in place, and no other table is touched. *)
Theorem notifyProductWatchers_all_or_nothing
    (env : Env) (data : NotificationData) (s : Store) :
  let result := NotificationService.notifyProductWatchers env data s in
  (exists added,
      notifications (snd result) = notifications s ++ added
      /\ (is_ok (fst result) = false -> added = [])
      /\ (forall n, In n added ->
            Notification.read n = false
            /\ Notification.type n = nd_type data
            /\ Notification.title n = nd_title data
            /\ Notification.message n = nd_message data
            /\ exists w, In w (user_watchlists s)
                         /\ Watchlist.user_id w = Notification.user_id n
                         /\ Some (Watchlist.product_id w) = nd_productId data
                         /\ Watchlist.notify_changes w = true))
  /\ (nd_productId data = None \/ nd_productId data = Some "" ->
      is_ok (fst result) = false)
  /\ tariff_rates (snd result) = tariff_rates s
  /\ sync_status (snd result) = sync_status s
  /\ trade_updates (snd result) = trade_updates s
  /\ user_watchlists (snd result) = user_watchlists s
  /\ products (snd result) = products s
  /\ countries (snd result) = countries s.
Proof.
  cbv zeta. split; [|split].
  - destruct (notifier_adds env data s) as [added [Hrows [Hnone Hall]]].
    exists added. split; [exact Hrows|]. split; [exact Hnone|].
    intros n Hin. destruct (Hall n Hin) as [H1 [H2 [H3 [H4 [_ H5]]]]]. auto.
  - unfold NotificationService.notifyProductWatchers, bind, modify, throw.
    intros [->| ->]; reflexivity.
  - split; [exact (notifier_keeps tariff_rates (fun _ _ => eq_refl) (fun _ _ => eq_refl) env data s)|].
    split; [exact (notifier_keeps sync_status (fun _ _ => eq_refl) (fun _ _ => eq_refl) env data s)|].
    split; [exact (notifier_keeps trade_updates (fun _ _ => eq_refl) (fun _ _ => eq_refl) env data s)|].
    split; [exact (notifier_keeps user_watchlists (fun _ _ => eq_refl) (fun _ _ => eq_refl) env data s)|].
    split; [exact (notifier_keeps products (fun _ _ => eq_refl) (fun _ _ => eq_refl) env data s)|].
    exact (notifier_keeps countries (fun _ _ => eq_refl) (fun _ _ => eq_refl) env data s).
Qed.

Section UpdateNotifications.

Variable env : Env.

Lemma notify_each (make : Product.t -> NotificationData) (affected : list Product.t) :
  (forall p, nd_productId (make p) = Some (Product.id p)) ->
  forall s0,
  exists added,
    notifications
      (snd (for_each affected
              (fun p => NotificationService.notifyProductWatchers env (make p)) s0))
    = notifications s0 ++ added
    /\ (forall n, In n added ->
          exists p w,
            In p affected
            /\ Notification.type n = nd_type (make p)
            /\ Notification.title n = nd_title (make p)
            /\ In w (user_watchlists s0)
            /\ Watchlist.user_id w = Notification.user_id n
            /\ Watchlist.product_id w = Product.id p
            /\ Watchlist.notify_changes w = true).
Proof.
  intros Hmake. induction affected as [|p rest IH]; intros s0.
  - exists []. cbn. rewrite app_nil_r. split; [reflexivity | intros n []].
  - rewrite for_each_step.
    destruct (notifier_adds env (make p) s0) as [first [Hrows [_ Hall]]].
    pose proof (notifier_keeps user_watchlists (fun _ _ => eq_refl) (fun _ _ => eq_refl)
                  env (make p) s0) as Hwatch.
    assert (Hfirst : forall n, In n first ->
               exists p0 w,
                 In p0 (p :: rest)
                 /\ Notification.type n = nd_type (make p0)
                 /\ Notification.title n = nd_title (make p0)
                 /\ In w (user_watchlists s0)
                 /\ Watchlist.user_id w = Notification.user_id n
                 /\ Watchlist.product_id w = Product.id p0
                 /\ Watchlist.notify_changes w = true).
    { intros n Hin. destruct (Hall n Hin) as [_ [Htype [Htitle [_ [_ [w [Hw [Hu [Hp Hf]]]]]]]]].
      exists p, w. rewrite Hmake in Hp. injection Hp as Hp.
      repeat split; auto. left. reflexivity. }
    destruct (NotificationService.notifyProductWatchers env (make p) s0) as [[v|e] s1];
      cbn [snd] in *.
    + destruct (IH s1) as [others [Hrows' Hall']].
      exists (first ++ others). split.
      * rewrite Hrows', Hrows, <- app_assoc. reflexivity.
      * intros n Hin. apply in_app_or in Hin. destruct Hin as [Hin|Hin].
        -- apply Hfirst. exact Hin.
        -- destruct (Hall' n Hin) as [p0 [w [Hp0 [Ht [Hti [Hw [Hu [Hp Hf]]]]]]]].
           exists p0, w. rewrite Hwatch in Hw. repeat split; auto. right. exact Hp0.
    + exists first. split; [exact Hrows | exact Hfirst].
Qed.

Local Abbreviation about_update updateId s :=
  (fun n : Notification.t =>
     Notification.type n = system
     /\ Notification.title n = "Trade Policy Update"
     /\ exists update description p w,
          NotificationService.find_update updateId (trade_updates s) = Some update
          /\ TradeUpdate.description update = Some description
          /\ In p (products s)
          /\ In (Product.hts_code p)
                (NotificationService.hts_matches 0 false description)
          /\ In w (user_watchlists s)
          /\ Watchlist.user_id w = Notification.user_id n
          /\ Watchlist.product_id w = Product.id p
          /\ Watchlist.notify_changes w = true).

Lemma update_notifier_adds (updateId : Z) (s : Store) :
  exists added,
    notifications (snd (NotificationService.notifyAboutTradeUpdates env updateId s))
    = notifications s ++ added
    /\ (forall n, In n added -> about_update updateId s n).
Proof.
  remember (NotificationService.notifyAboutTradeUpdates env updateId s) as result eqn:Hres.
  unfold NotificationService.notifyAboutTradeUpdates in Hres.
  unfold bind at 1, check in Hres.
  assert (Hnone : forall r0, result = (r0, s) ->
                             exists added,
                               notifications (snd result) = notifications s ++ added
                               /\ (forall n, In n added -> about_update updateId s n)).
  { intros r0 ->. exists []. cbn. rewrite app_nil_r. split; [reflexivity|].
    intros n []. }
  destruct (db_error env SelectTradeUpdate); [eapply Hnone; exact Hres|].
  cbn [ret] in Hres. unfold bind at 1, gets in Hres.
  destruct (NotificationService.find_update updateId (trade_updates s)) as [update|] eqn:Hfound;
    [|eapply Hnone; exact Hres].
  destruct (TradeUpdate.description update) as [description|] eqn:Hdescription;
    [|eapply Hnone; exact Hres].
  destruct (NotificationService.hts_matches 0 false description) as [|code codes] eqn:Hcodes;
    [eapply Hnone; exact Hres|].
  unfold bind at 1, check in Hres.
  destruct (db_error env SelectProductsByCode); [eapply Hnone; exact Hres|].
  cbn [ret] in Hres. unfold bind at 1, gets in Hres.
  match type of Hres with
  | _ = for_each ?affected (fun product => _ _ (@?make product)) s =>
      destruct (notify_each make affected ltac:(reflexivity) s) as [added [Hrows Hall]]
  end.
  subst result. exists added. split; [exact Hrows|].
  intros n Hin. destruct (Hall n Hin) as [p [w [Hp [Ht [Hti [Hw [Hu [Hpid Hf]]]]]]]].
  cbn in Ht, Hti. split; [exact Ht|]. split; [exact Hti|].
  apply filter_In in Hp. destruct Hp as [Hp Hmentioned].
  apply includes_string_In in Hmentioned.
  exists update, description, p, w. rewrite Hcodes. repeat split; auto.
Qed.

End UpdateNotifications.

(** X15. [notifyAboutTradeUpdates] only ever adds notifications of type
    'system' titled 'Trade Policy Update', each to a user who watches, with
    [notify_changes] set, a product whose HTS code is written in the
    update's description; rows stored before stay in place. An update that
    is missing, has no description or names no code leads to none. *)
Theorem notifyAboutTradeUpdates_reaches_watchers_only
    (env : Env) (updateId : Z) (s : Store) :
  exists added,
    notifications (snd (NotificationService.notifyAboutTradeUpdates env updateId s))
    = notifications s ++ added
    /\ (forall n, In n added ->
          Notification.type n = system
          /\ Notification.title n = "Trade Policy Update"
          /\ exists update description p w,
               NotificationService.find_update updateId (trade_updates s) = Some update
               /\ TradeUpdate.description update = Some description
               /\ In p (products s)
               /\ In (Product.hts_code p)
                     (NotificationService.hts_matches 0 false description)
               /\ In w (user_watchlists s)
               /\ Watchlist.user_id w = Notification.user_id n
               /\ Watchlist.product_id w = Product.id p
               /\ Watchlist.notify_changes w = true).
Proof.
  exact (update_notifier_adds env updateId s).
Qed.

(** ** HTS codes in running text *)

Lemma hts_here_code (s : string) :
  NotificationService.hts_here s = true ->
  FederalRegister.is_hts_code (String.substring 0 12 s) = true.
Proof.
  unfold NotificationService.hts_here, FederalRegister.is_hts_code.
  destruct (list_ascii_of_string (String.substring 0 12 s))
    as [|a [|b [|c [|d [|p [|e [|f [|q [|g [|h [|i [|j [|k l]]]]]]]]]]]]];
    try discriminate.
  intros H. apply andb_true_iff in H. destruct H as [H _]. exact H.
Qed.

Lemma hts_matches_codes (text : string) :
  forall skip after_word,
    Forall (fun m => FederalRegister.is_hts_code m = true)
           (NotificationService.hts_matches skip after_word text).
Proof.
  induction text as [|ch rest IH]; intros skip after_word.
  - apply Forall_nil.
  - cbn [NotificationService.hts_matches]. destruct skip as [|k]; [|apply IH].
    destruct (negb after_word && NotificationService.hts_here (String ch rest))%bool
      eqn:Hhere; [|apply IH].
    apply andb_true_iff in Hhere. destruct Hhere as [_ Hhere].
    apply Forall_cons; [apply hts_here_code; exact Hhere | apply IH].
Qed.

Lemma code_alone (code : string) :
  FederalRegister.is_hts_code code = true ->
  NotificationService.hts_matches 0 false code = [code].
Proof.
  intros H. unfold FederalRegister.is_hts_code in H.
  rewrite <- (string_of_list_ascii_of_string code).
  destruct (list_ascii_of_string code)
    as [|a [|b [|c [|d [|p [|e [|f [|q [|g [|h [|i [|j [|k l]]]]]]]]]]]]];
    try discriminate H.
  cbn [string_of_list_ascii].
  assert (Hhere : NotificationService.hts_here
                    (String a (String b (String c (String d (String p (String e
                      (String f (String q (String g (String h (String i
                        (String j EmptyString))))))))))))
                  = true).
  { unfold NotificationService.hts_here.
    cbn [String.substring list_ascii_of_string String.get].
    rewrite H. reflexivity. }
  cbn [NotificationService.hts_matches negb andb]. rewrite Hhere.
  cbn [String.substring]. reflexivity.
Qed.

(** X16. The pattern [\b\d{4}\.\d{2}\.\d{4}\b] as it is searched in running
    text: every match has the shape of four digits, a dot, two digits, a
    dot and four digits, and a text that is exactly such a code is matched
    once, as a whole. *)
Theorem hts_pattern_matches_codes (text code : string) :
  Forall (fun m => FederalRegister.is_hts_code m = true)
         (NotificationService.hts_matches 0 false text)
  /\ (FederalRegister.is_hts_code code = true ->
      NotificationService.hts_matches 0 false code = [code]).
Proof.
  split; [apply hts_matches_codes | apply code_alone].
Qed.

Lemma hts_pattern_matches_codes_witness :
  NotificationService.hts_matches 0 false "0101.21.0000" = ["0101.21.0000"].
Proof.
  exact (proj2 (hts_pattern_matches_codes "see 0101.21.0000" "0101.21.0000") eq_refl).
Defined.

Lemma unique_In (values : list string) :
  forall seen c,
    In c (FederalRegister.unique seen values) <-> In c values /\ ~ In c seen.
Proof.
  induction values as [|v rest IH]; intros seen c; cbn [FederalRegister.unique].
  - split; [intros [] | intros [[] _]].
  - destruct (includes_string v seen) eqn:Hseen.
    + apply includes_string_In in Hseen. rewrite IH. split.
      * intros [Hin Hnot]. split; [right; exact Hin | exact Hnot].
      * intros [[->|Hin] Hnot]; [contradiction | split; assumption].
    + assert (Hnew : ~ In v seen).
      { intros Hin. apply includes_string_In in Hin. congruence. }
      cbn [In]. rewrite IH. cbn [In]. split.
      * intros [->|[Hin Hnot]]; [split; [left; reflexivity | exact Hnew]|].
        split; [right; exact Hin | intros Hc; apply Hnot; right; exact Hc].
      * intros [[->|Hin] Hnot]; [left; reflexivity|].
        destruct (String.eqb v c) eqn:Heq.
        -- apply String.eqb_eq in Heq. left. exact Heq.
        -- apply String.eqb_neq in Heq. right. split; [exact Hin|].
           intros [Hc|Hc]; [contradiction | apply Hnot; exact Hc].
Qed.

Lemma unique_NoDup (values : list string) :
  forall seen, List.NoDup (FederalRegister.unique seen values).
Proof.
  induction values as [|v rest IH]; intros seen; cbn [FederalRegister.unique].
  - apply List.NoDup_nil.
  - destruct (includes_string v seen); [apply IH|].
    apply List.NoDup_cons; [|apply IH].
    intros Hin. apply unique_In in Hin. destruct Hin as [_ Hnot].
    apply Hnot. left. reflexivity.
Qed.

(** X17. [extractHtsCodes] returns every code the pattern finds in the
    text and nothing else, each once and each of the shape
    dddd.dd.dddd; a missing or empty text gives no code. *)
Theorem extractHtsCodes_distinct_codes (text : option string) :
  List.NoDup (FederalRegister.extractHtsCodes text)
  /\ Forall (fun c => FederalRegister.is_hts_code c = true)
            (FederalRegister.extractHtsCodes text)
  /\ (forall c, In c (FederalRegister.extractHtsCodes text)
                <-> exists t, text = Some t
                              /\ In c (NotificationService.hts_matches 0 false t)).
Proof.
  assert (Hmembers : forall c, In c (FederalRegister.extractHtsCodes text)
                     <-> exists t, text = Some t
                                   /\ In c (NotificationService.hts_matches 0 false t)).
  { intros c. unfold FederalRegister.extractHtsCodes.
    destruct text as [t|].
    - destruct (String.eqb t "") eqn:Hempty.
      + apply String.eqb_eq in Hempty. subst t. split; [intros [] |].
        intros [t [Ht Hin]]. injection Ht as <-. exact Hin.
      + rewrite unique_In. split.
        * intros [Hin _]. exists t. split; [reflexivity | exact Hin].
        * intros [t' [Ht Hin]]. injection Ht as <-. split; [exact Hin | intros []].
    - split; [intros [] | intros [t [Ht _]]; discriminate Ht]. }
  split; [|split; [|exact Hmembers]].
  - unfold FederalRegister.extractHtsCodes. destruct text as [t|]; [|apply List.NoDup_nil].
    destruct (String.eqb t ""); [apply List.NoDup_nil | apply unique_NoDup].
  - apply Forall_forall. intros c Hin. apply Hmembers in Hin.
    destruct Hin as [t [_ Hin]].
    pose proof (hts_matches_codes t 0%nat false) as Hall.
    rewrite Forall_forall in Hall. apply Hall. exact Hin.
Qed.

(** ** Trade updates stored by the aggregator *)

Section TradeUpdateRows.

Variable env : Env.

Local Abbreviation references table := (map TradeUpdate.source_reference table).

Local Abbreviation row_of notice table :=
  (TradeUpdate.mk (SyncUpdates.fresh_id table) (Notice.title notice)
     (Notice.abstract notice) (SyncUpdates.determineImpactLevel notice)
     (Notice.html_url notice) (Notice.document_number notice)
     (Notice.publication_date notice)).

Lemma process_step (notice : Notice.t) (rest : list Notice.t) (s : Store) :
  DataAggregator.processTradeUpdates env (Ok (notice :: rest)) s
  = match db_error env SelectTradeUpdate with
    | Some e => (Err (StoreError e), s)
    | None =>
        match DataAggregator.existingNotice (Notice.document_number notice)
                (trade_updates s) with
        | Some _ => DataAggregator.processTradeUpdates env (Ok rest) s
        | None =>
            match db_error env InsertTradeUpdate with
            | Some e => (Err (StoreError e), s)
            | None =>
                DataAggregator.processTradeUpdates env (Ok rest)
                  (with_trade_updates
                     (trade_updates s ++ [row_of notice (trade_updates s)]) s)
            end
        end
    end.
Proof.
  unfold DataAggregator.processTradeUpdates. rewrite for_each_step.
  set (continue := for_each rest _).
  unfold SyncUpdates.insert_update. unfold bind, check, gets, throw, ret.
  destruct (db_error env SelectTradeUpdate); [reflexivity|].
  destruct (DataAggregator.existingNotice (Notice.document_number notice) (trade_updates s));
    [reflexivity|].
  destruct (db_error env InsertTradeUpdate); reflexivity.
Qed.

Lemma no_reference_no_row (reference : string) (table : list TradeUpdate.t) :
  ~ In reference (references table) ->
  List.filter (fun u => String.eqb (TradeUpdate.source_reference u) reference) table = [].
Proof.
  induction table as [|u rest IH]; intros Hnot; [reflexivity|].
  cbn [List.filter]. destruct (String.eqb (TradeUpdate.source_reference u) reference) eqn:Heq.
  - apply String.eqb_eq in Heq. exfalso. apply Hnot. left. exact Heq.
  - apply IH. intros Hin. apply Hnot. right. exact Hin.
Qed.

Lemma existingNotice_found (reference : string) (table : list TradeUpdate.t) :
  List.NoDup (references table) ->
  In reference (references table) ->
  exists u, DataAggregator.existingNotice reference table = Some u.
Proof.
  unfold DataAggregator.existingNotice.
  induction table as [|u rest IH]; intros Hnodup Hin; [destruct Hin|].
  cbn [map] in Hnodup. apply List.NoDup_cons_iff in Hnodup. destruct Hnodup as [Hfresh Hnodup].
  cbn [List.filter]. destruct (String.eqb (TradeUpdate.source_reference u) reference) eqn:Heq.
  - apply String.eqb_eq in Heq. rewrite no_reference_no_row.
    + exists u. reflexivity.
    + rewrite <- Heq. exact Hfresh.
  - apply String.eqb_neq in Heq. destruct Hin as [Hin|Hin]; [contradiction|].
    apply IH; assumption.
Qed.

Lemma existingNotice_stored (reference : string) (table : list TradeUpdate.t) (u : TradeUpdate.t) :
  DataAggregator.existingNotice reference table = Some u ->
  In reference (references table).
Proof.
  unfold DataAggregator.existingNotice. intros Hfound.
  destruct (List.filter (fun u => String.eqb (TradeUpdate.source_reference u) reference) table)
    as [|v rest] eqn:Hrows; [discriminate Hfound|].
  assert (Hin : In v (List.filter
                        (fun u => String.eqb (TradeUpdate.source_reference u) reference) table)).
  { rewrite Hrows. left. reflexivity. }
  apply filter_In in Hin. destruct Hin as [Hin Heq]. apply String.eqb_eq in Heq.
  apply in_map_iff. exists v. split; assumption.
Qed.

Lemma existingNotice_absent (reference : string) (table : list TradeUpdate.t) :
  List.NoDup (references table) ->
  DataAggregator.existingNotice reference table = None ->
  ~ In reference (references table).
Proof.
  intros Hnodup Hnone Hin.
  destruct (existingNotice_found reference table Hnodup Hin) as [u Hu]. congruence.
Qed.

Lemma references_snoc (table : list TradeUpdate.t) (row : TradeUpdate.t) :
  List.NoDup (references table) ->
  ~ In (TradeUpdate.source_reference row) (references table) ->
  List.NoDup (references (table ++ [row])).
Proof.
  intros Hnodup Hfresh. rewrite map_app. cbn [map].
  apply (Permutation.Permutation_NoDup
           (l := TradeUpdate.source_reference row :: references table)).
  - apply Permutation.Permutation_cons_append.
  - apply List.NoDup_cons; assumption.
Qed.

Lemma process_invariant (fetched : list Notice.t) :
  forall s,
    List.NoDup (references (trade_updates s)) ->
    List.NoDup (references
                  (trade_updates (snd (DataAggregator.processTradeUpdates env (Ok fetched) s))))
    /\ (exists added,
           trade_updates (snd (DataAggregator.processTradeUpdates env (Ok fetched) s))
           = trade_updates s ++ added
           /\ Forall (fun row => exists notice, In notice fetched /\ stored_from notice row)
                     added)
    /\ (is_ok (fst (DataAggregator.processTradeUpdates env (Ok fetched) s)) = true ->
        forall notice,
          In notice fetched ->
          In (Notice.document_number notice)
             (references
                (trade_updates (snd (DataAggregator.processTradeUpdates env (Ok fetched) s))))).
Proof.
  induction fetched as [|notice rest IH]; intros s Hnodup.
  - cbn. split; [exact Hnodup|]. split.
    + exists []. rewrite app_nil_r. split; [reflexivity | apply Forall_nil].
    + intros _ n [].
  - rewrite process_step.
    assert (Hstop : forall e,
               List.NoDup (references (trade_updates (snd (@Err unit e, s))))
               /\ (exists added,
                      trade_updates (snd (@Err unit e, s)) = trade_updates s ++ added
                      /\ Forall (fun row => exists n, In n (notice :: rest) /\ stored_from n row)
                                added)
               /\ (is_ok (fst (@Err unit e, s)) = true ->
                   forall n, In n (notice :: rest) ->
                             In (Notice.document_number n)
                                (references (trade_updates (snd (@Err unit e, s)))))).
    { intros e. cbn [fst snd is_ok]. split; [exact Hnodup|]. split.
      - exists []. rewrite app_nil_r. split; [reflexivity | apply Forall_nil].
      - intros H. discriminate H. }
    destruct (db_error env SelectTradeUpdate); [apply Hstop|].
    destruct (DataAggregator.existingNotice (Notice.document_number notice) (trade_updates s))
      as [u|] eqn:Hexisting.
    + destruct (IH s Hnodup) as [Hunique [[added [Hrows Hadded]] Hall]].
      split; [exact Hunique|]. split.
      * exists added. split; [exact Hrows|].
        eapply Forall_impl; [|exact Hadded].
        intros row [n [Hn Hrow]]. exists n. split; [right; exact Hn | exact Hrow].
      * intros Hok n [<-|Hn]; [|apply Hall; assumption].
        rewrite Hrows, map_app. apply in_or_app. left.
        eapply existingNotice_stored. exact Hexisting.
    + destruct (db_error env InsertTradeUpdate); [apply Hstop|].
      set (row := row_of notice (trade_updates s)).
      set (s1 := with_trade_updates (trade_updates s ++ [row]) s).
      assert (Hnodup1 : List.NoDup (references (trade_updates s1))).
      { unfold s1. cbn [trade_updates with_trade_updates].
        apply references_snoc; [exact Hnodup|].
        apply existingNotice_absent; assumption. }
      destruct (IH s1 Hnodup1) as [Hunique [[added [Hrows Hadded]] Hall]].
      split; [exact Hunique|]. split.
      * exists (row :: added). split.
        -- rewrite Hrows. unfold s1. cbn [trade_updates with_trade_updates].
           rewrite <- app_assoc. reflexivity.
        -- apply Forall_cons.
           ++ exists notice. split; [left; reflexivity|].
              unfold stored_from, row. cbn. auto.
           ++ eapply Forall_impl; [|exact Hadded].
              intros r [n [Hn Hrow]]. exists n. split; [right; exact Hn | exact Hrow].
      * intros Hok n [<-|Hn]; [|apply Hall; assumption].
        rewrite Hrows, map_app. apply in_or_app. left.
        unfold s1. cbn [trade_updates with_trade_updates].
        rewrite map_app. apply in_or_app. right. left. reflexivity.
Qed.

Lemma process_known (fetched : list Notice.t) :
  forall s,
    List.NoDup (references (trade_updates s)) ->
    (forall notice, In notice fetched ->
                    In (Notice.document_number notice) (references (trade_updates s))) ->
    trade_updates (snd (DataAggregator.processTradeUpdates env (Ok fetched) s))
    = trade_updates s.
Proof.
  induction fetched as [|notice rest IH]; intros s Hnodup Hknown; [reflexivity|].
  rewrite process_step.
  destruct (db_error env SelectTradeUpdate); [reflexivity|].
  destruct (existingNotice_found (Notice.document_number notice) (trade_updates s) Hnodup)
    as [u ->].
  - apply Hknown. left. reflexivity.
  - apply IH; [exact Hnodup|]. intros n Hn. apply Hknown. right. exact Hn.
Qed.

End TradeUpdateRows.

(** X18. [processTradeUpdates] keeps source references unique: run on a
    table in which no two rows share a [source_reference], it leaves such
    a table, whether it finishes or throws on the way. It only appends
    rows, each built from one of the fetched notices, and when it
    finishes every fetched notice has its row. *)
Theorem processTradeUpdates_keeps_references_unique
    (env : Env) (fetched : list Notice.t) (s : Store) :
  List.NoDup (map TradeUpdate.source_reference (trade_updates s)) ->
  let result := DataAggregator.processTradeUpdates env (Ok fetched) s in
  List.NoDup (map TradeUpdate.source_reference (trade_updates (snd result)))
  /\ (exists added,
         trade_updates (snd result) = trade_updates s ++ added
         /\ Forall (fun row => exists notice, In notice fetched /\ stored_from notice row)
                   added)
  /\ (is_ok (fst result) = true ->
      forall notice,
        In notice fetched ->
        In (Notice.document_number notice)
           (map TradeUpdate.source_reference (trade_updates (snd result)))).
Proof.
  intros Hnodup. cbv zeta. apply process_invariant. exact Hnodup.
Qed.

Lemma processTradeUpdates_keeps_references_unique_witness :
  List.NoDup (map TradeUpdate.source_reference
                (trade_updates
                   (snd (DataAggregator.processTradeUpdates (healthy 5000)
                           (Ok [Samples.horse_notice; Samples.horse_notice;
                                Samples.bare_notice])
                           Scenario.empty_store)))).
Proof.
  apply (processTradeUpdates_keeps_references_unique (healthy 5000)
           [Samples.horse_notice; Samples.horse_notice; Samples.bare_notice]
           Scenario.empty_store).
  simpl. apply List.NoDup_nil.
Defined.

(** X19. On a table in which no two rows share a [source_reference], a
    second pass of [processTradeUpdates] over notices a first pass has
    finished storing adds nothing, however many rows the table holds: each
    notice is looked up by its own reference in the whole table. The
    uniqueness is needed: when two or more rows already carry a notice's
    reference, the look-up for a single row answers with no row, and a
    pass that the store answers inserts the notice once more. *)
Theorem processTradeUpdates_second_pass_adds_nothing
    (first second : Env) (fetched : list Notice.t) (s : Store) :
  (List.NoDup (map TradeUpdate.source_reference (trade_updates s)) ->
   is_ok (fst (DataAggregator.processTradeUpdates first (Ok fetched) s)) = true ->
   trade_updates
     (snd (DataAggregator.processTradeUpdates second (Ok fetched)
             (snd (DataAggregator.processTradeUpdates first (Ok fetched) s))))
   = trade_updates (snd (DataAggregator.processTradeUpdates first (Ok fetched) s)))
  /\ (forall notice,
        db_error first SelectTradeUpdate = None ->
        db_error first InsertTradeUpdate = None ->
        (2 <= length (SyncUpdates.stored_under (Notice.document_number notice) s))%nat ->
        exists row,
          stored_from notice row
          /\ trade_updates (snd (DataAggregator.processTradeUpdates first (Ok [notice]) s))
             = trade_updates s ++ [row]).
Proof.
  split.
  - intros Hnodup Hok.
    destruct (process_invariant first fetched s Hnodup) as [Hunique [_ Hall]].
    apply (process_known second); [exact Hunique | apply Hall; exact Hok].
  - intros notice Hselect Hinsert Hmany.
    rewrite process_step, Hselect, Hinsert.
    unfold DataAggregator.existingNotice. unfold SyncUpdates.stored_under in Hmany.
    destruct (List.filter _ (trade_updates s)) as [|u1 [|u2 others]];
      cbn [length] in Hmany; try lia.
    eexists. split; [|reflexivity]. unfold stored_from. cbn. auto.
Qed.

Lemma processTradeUpdates_second_pass_adds_nothing_witness :
  trade_updates
    (snd (DataAggregator.processTradeUpdates (healthy 6000) (Ok [Scenario.old_notice])
            (snd (DataAggregator.processTradeUpdates (healthy 5000)
                    (Ok [Scenario.old_notice]) Scenario.empty_store))))
  = trade_updates
      (snd (DataAggregator.processTradeUpdates (healthy 5000)
              (Ok [Scenario.old_notice]) Scenario.empty_store)).
Proof.
  apply (proj1 (processTradeUpdates_second_pass_adds_nothing (healthy 5000) (healthy 6000)
                  [Scenario.old_notice] Scenario.empty_store)).
  - simpl. apply List.NoDup_nil.
  - vm_compute. reflexivity.
Defined.

(** ** Impact level of a notice *)

Lemma append_cons (c : ascii) (a b : string) :
  (String c a ++ b)%string = String c (a ++ b).
Proof. reflexivity. Qed.

Lemma append_empty (b : string) : (EmptyString ++ b)%string = b.
Proof. reflexivity. Qed.

Lemma toLowerCase_app (a b : string) :
  toLowerCase (a ++ b) = (toLowerCase a ++ toLowerCase b)%string.
Proof.
  induction a as [|c a IH]; [reflexivity|].
  rewrite append_cons. cbn [toLowerCase]. rewrite append_cons, IH. reflexivity.
Qed.

Lemma prefix_app (needle rest : string) :
  String.prefix needle (needle ++ rest) = true.
Proof.
  induction needle as [|c needle IH].
  - rewrite append_empty. destruct rest; reflexivity.
  - rewrite append_cons. cbn [String.prefix].
    destruct (ascii_dec c c) as [_|Hne]; [exact IH | contradiction].
Qed.

Lemma includes_app (needle before after : string) :
  includes needle (before ++ needle ++ after) = true.
Proof.
  induction before as [|c before IH].
  - rewrite append_empty. destruct (needle ++ after)%string eqn:Hhay;
      cbn [includes]; rewrite <- Hhay, prefix_app; reflexivity.
  - rewrite append_cons. cbn [includes]. rewrite IH. apply orb_true_r.
Qed.

(** X20. [determineImpactLevel] looks for its key phrases anywhere in the
    title followed by the abstract, whatever the letter case, and a
    high-impact phrase wins over everything else the text contains. *)
Theorem determineImpactLevel_high_phrase_any_case
    (notice : Notice.t) (before phrase after : string) :
  SyncUpdates.content_of notice = (before ++ phrase ++ after)%string ->
  In (toLowerCase phrase)
     ["immediate effect"; "significant change"; "major revision"; "substantial increase"] ->
  SyncUpdates.determineImpactLevel notice = high.
Proof.
  intros Hcontent Hphrase. unfold SyncUpdates.determineImpactLevel.
  rewrite Hcontent, !toLowerCase_app.
  assert (Hfound : forall key,
             key = toLowerCase phrase ->
             includes key (toLowerCase before ++ toLowerCase phrase ++ toLowerCase after)
             = true).
  { intros key ->. apply includes_app. }
  cbv zeta.
  destruct Hphrase as [H|[H|[H|[H|[]]]]]; rewrite (Hfound _ H);
    rewrite ?orb_true_r; reflexivity.
Qed.

Lemma determineImpactLevel_high_phrase_any_case_witness :
  SyncUpdates.determineImpactLevel
    (Notice.mk "2025-00101" "Amendment: MAJOR Revision of chapter 1" None (Iso 950)
       "https://example.test/2025-00101")
  = high.
Proof.
  apply (determineImpactLevel_high_phrase_any_case _ "Amendment: " "MAJOR Revision"
           " of chapter 1 null").
  - reflexivity.
  - vm_compute. right. right. left. reflexivity.
Defined.

(** ** Cached fetches *)

Section CachedFetches.

Import SourceClients.

Lemma cached_insert (cache : Cache) (key : string) (payload : JsValue) :
  cached (<[key := payload]> cache) key = payload.
Proof. unfold cached. rewrite lookup_insert_eq. reflexivity. Qed.

Lemma array_or_empty_truthy (payload : JsValue) : truthy (array_or_empty payload) = true.
Proof. destruct payload; reflexivity. Qed.

Lemma array_or_empty_again (payload : JsValue) :
  array_or_empty (array_or_empty payload) = array_or_empty payload.
Proof. destruct payload; reflexivity. Qed.

Lemma or_else_again (a b : JsValue) : or_else (or_else a b) b = or_else a b.
Proof.
  unfold or_else. destruct (truthy a) eqn:Ha.
  - rewrite Ha. reflexivity.
  - destruct (truthy b); reflexivity.
Qed.

Lemma validateSection_again (section validated : JsValue) :
  validateSection section = Ok validated ->
  validateSection validated = Ok validated.
Proof.
  unfold validateSection. intros H.
  destruct (prop section "code") as [code|]; [|destruct section; discriminate H].
  destruct (prop section "description") as [description|]; [|discriminate H].
  destruct (prop section "rates") as [rates|]; [|discriminate H].
  injection H as <-. cbn [prop field String.eqb Ascii.eqb Bool.eqb].
  rewrite !or_else_again, array_or_empty_again. reflexivity.
Qed.

Lemma validateSections_again (sections : list JsValue) :
  forall validated,
    validateSections sections = Ok validated ->
    validateSections validated = Ok validated.
Proof.
  induction sections as [|section rest IH]; intros validated H; cbn [validateSections] in H.
  - injection H as <-. reflexivity.
  - destruct (validateSection section) as [first|] eqn:Hfirst; [|discriminate H].
    destruct (validateSections rest) as [others|] eqn:Hothers; [|discriminate H].
    injection H as <-. cbn [validateSections].
    rewrite (validateSection_again _ _ Hfirst), (IH _ eq_refl). reflexivity.
Qed.

Lemma validateHtsChapter_shape (payload validated : JsValue) :
  validateHtsChapter payload = Ok validated ->
  exists chapter description sections,
    validated = JObj [("chapter", chapter); ("description", description);
                      ("sections", JArr sections)]
    /\ truthy chapter = true /\ truthy description = true
    /\ validateSections sections = Ok sections.
Proof.
  unfold validateHtsChapter. intros H.
  destruct (negb (truthy payload) || negb (typeof_object payload))%bool; [discriminate H|].
  destruct (prop payload "chapter") as [chapter|]; [|discriminate H].
  destruct (prop payload "description") as [description|];
    [|destruct (prop payload "sections"); discriminate H].
  destruct (prop payload "sections") as [[| | | | |sections|]|]; try discriminate H.
  destruct (negb (truthy chapter) || negb (truthy description))%bool eqn:Hfields;
    [discriminate H|].
  apply orb_false_iff in Hfields. destruct Hfields as [Hchapter Hdescription].
  apply negb_false_iff in Hchapter, Hdescription.
  destruct (validateSections sections) as [normal|] eqn:Hsections; [|discriminate H].
  injection H as <-. exists chapter, description, normal.
  repeat split; try assumption. eapply validateSections_again. exact Hsections.
Qed.

Lemma validated_truthy (payload validated : JsValue) :
  validateHtsChapter payload = Ok validated -> truthy validated = true.
Proof.
  intros H. destruct (validateHtsChapter_shape _ _ H) as [c [d [l [-> _]]]]. reflexivity.
Qed.

End CachedFetches.

Ltac cache_cases :=
  cbv zeta;
  match goal with
  | |- context [truthy (SourceClients.cached ?cache ?key)] =>
      destruct (truthy (SourceClients.cached cache key)) eqn:Hhit
  end.

Ltac caches_list_answers :=
  split;
  [ intros cache first second; cache_cases;
    [ intros _; cbn [fst snd];
      match goal with
      | Hit : truthy (SourceClients.cached _ _) = true |- _ => rewrite Hit
      end; reflexivity
    | destruct first as [response|e]; [|intros H; discriminate H];
      destruct (negb (SourceClients.status response =? 200)%Z); [intros H; discriminate H|];
      intros _; cbn [fst snd];
      rewrite cached_insert, array_or_empty_truthy; reflexivity ]
  | intros cache upstream; cache_cases;
    [ intros H; discriminate H
    | destruct upstream as [response|e]; [|reflexivity];
      destruct (negb (SourceClients.status response =? 200)%Z); [reflexivity|];
      intros H; discriminate H ] ].

(** X21. Every fetch that returns a list (Section 301 tariffs, exclusions,
    trade agreements, HTS search, CBP rulings) and the HTS chapter fetch
    answer a repeated call from the cache with the value first returned,
    without looking at the upstream again, the empty list a malformed
    payload was coerced to included; a fetch that fails stores nothing. *)
Theorem fetches_answer_from_cache (htsCode query chapter : string) :
  caches_answers SourceClients.getSection301Tariffs
  /\ caches_answers (SourceClients.getExclusions htsCode)
  /\ caches_answers SourceClients.getTradeAgreements
  /\ caches_answers (Usitc.searchHtsCodes query)
  /\ caches_answers (Cbp.getRulings htsCode)
  /\ caches_answers (SourceClients.getHtsChapter chapter).
Proof.
  split; [unfold SourceClients.getSection301Tariffs; caches_list_answers|].
  split; [unfold SourceClients.getExclusions; caches_list_answers|].
  split; [unfold SourceClients.getTradeAgreements; caches_list_answers|].
  split; [unfold Usitc.searchHtsCodes; caches_list_answers|].
  split; [unfold Cbp.getRulings; caches_list_answers|].
  unfold SourceClients.getHtsChapter. split.
  - intros cache first second. cache_cases.
    + intros _. cbn [fst snd]. rewrite Hhit. reflexivity.
    + destruct first as [response|e]; [|intros H; discriminate H].
      destruct (negb (SourceClients.status response =? 200)%Z); [intros H; discriminate H|].
      destruct (SourceClients.validateHtsChapter (SourceClients.data response))
        as [validated|] eqn:Hvalid; [|intros H; discriminate H].
      intros _. cbn [fst snd].
      rewrite cached_insert, (validated_truthy _ _ Hvalid). reflexivity.
  - intros cache upstream. cache_cases.
    + intros H. discriminate H.
    + destruct upstream as [response|e]; [|reflexivity].
      destruct (negb (SourceClients.status response =? 200)%Z); [reflexivity|].
      destruct (SourceClients.validateHtsChapter (SourceClients.data response));
        [intros H; discriminate H | reflexivity].
Qed.

(** X22. [validateHtsChapter] normalises: what it returns passes
    validation again and comes back unchanged. *)
Theorem validateHtsChapter_output_is_valid (payload validated : JsValue) :
  SourceClients.validateHtsChapter payload = Ok validated ->
  SourceClients.validateHtsChapter validated = Ok validated.
Proof.
  intros H. destruct (validateHtsChapter_shape _ _ H)
    as [chapter [description [sections [-> [Hchapter [Hdescription Hsections]]]]]].
  unfold SourceClients.validateHtsChapter.
  cbn [truthy typeof_object negb orb prop field String.eqb Ascii.eqb Bool.eqb].
  rewrite Hchapter, Hdescription, Hsections. reflexivity.
Qed.

Lemma validateHtsChapter_output_is_valid_witness :
  SourceClients.validateHtsChapter
    (JObj [("chapter", JStr "01"); ("description", JStr "Live animals");
           ("sections", JArr [JObj [("code", JStr "0101"); ("description", JStr "");
                                    ("rates", JArr [])]])])
  = Ok (JObj [("chapter", JStr "01"); ("description", JStr "Live animals");
              ("sections", JArr [JObj [("code", JStr "0101"); ("description", JStr "");
                                       ("rates", JArr [])]])]).
Proof.
  apply (validateHtsChapter_output_is_valid
           (JObj [("sections", JArr [JObj [("code", JStr "0101"); ("rates", JNull)]]);
                  ("chapter", JStr "01"); ("description", JStr "Live animals");
                  ("notes", JStr "draft")])).
  vm_compute. reflexivity.
Defined.

(** X23. [getGeneralRates] stores whatever payload a 200 answer carries
    but serves a stored payload only when it is truthy: a truthy payload
    answers every later call, a falsy one ([null], [0], the empty string)
    is returned once and the next call goes upstream again. *)
Theorem getGeneralRates_serves_truthy_payloads_only
    (htsCode : string) (cache : SourceClients.Cache) (response : SourceClients.Response) :
  truthy (SourceClients.cached cache ("usitc:rates:" ++ htsCode)) = false ->
  SourceClients.status response = 200 ->
  let result := Usitc.getGeneralRates htsCode cache (SourceClients.Responded response) in
  fst result = Ok (SourceClients.data response)
  /\ (truthy (SourceClients.data response) = true ->
      forall upstream,
        Usitc.getGeneralRates htsCode (snd result) upstream = result)
  /\ (truthy (SourceClients.data response) = false ->
      forall e,
        Usitc.getGeneralRates htsCode (snd result) (SourceClients.Rejected e)
        = (Err e, snd result)).
Proof.
  intros Hmiss Hstatus. unfold Usitc.getGeneralRates. cbv zeta.
  rewrite Hmiss, Hstatus. cbn [Z.eqb Pos.eqb negb fst snd].
  rewrite cached_insert. split; [reflexivity|]. split.
  - intros Htruthy upstream. rewrite Htruthy. reflexivity.
  - intros Hfalsy e. rewrite Hfalsy. reflexivity.
Qed.

Lemma getGeneralRates_serves_truthy_payloads_only_witness :
  Usitc.getGeneralRates "0101.21.0000"
    (snd (Usitc.getGeneralRates "0101.21.0000" ∅
            (SourceClients.Responded {| SourceClients.status := 200;
                                        SourceClients.data := JStr "" |})))
    (SourceClients.Rejected "timeout")
  = (Err "timeout",
     snd (Usitc.getGeneralRates "0101.21.0000" ∅
            (SourceClients.Responded {| SourceClients.status := 200;
                                        SourceClients.data := JStr "" |}))).
Proof.
  apply (getGeneralRates_serves_truthy_payloads_only "0101.21.0000" ∅
           {| SourceClients.status := 200; SourceClients.data := JStr "" |}).
  - vm_compute. reflexivity.
  - reflexivity.
  - reflexivity.
Defined.

(** ** Cleanup of sync records *)

Section OrderedBy.

Context {A : Type} (le : A -> A -> bool) (R : A -> A -> Prop).
Hypothesis le_true : forall a b, le a b = true -> R a b.
Hypothesis le_false : forall a b, le a b = false -> R b a.
Hypothesis R_trans : forall a b c, R a b -> R b c -> R a c.

Lemma insert_by_ordered (x : A) (xs : list A) :
  StronglySorted R xs -> StronglySorted R (insert_by le x xs).
Proof.
  induction 1 as [|y rest Hsorted IH Hall]; cbn [insert_by].
  - constructor; constructor.
  - destruct (le x y) eqn:Hle.
    + constructor; [constructor; assumption|].
      constructor; [apply le_true; exact Hle|].
      eapply Forall_impl; [|exact Hall]. intros z Hz.
      eapply R_trans; [apply le_true; exact Hle | exact Hz].
    + constructor; [exact IH|].
      apply Forall_forall. intros z Hz. apply insert_by_In in Hz.
      destruct Hz as [->|Hz]; [apply le_false; exact Hle|].
      rewrite Forall_forall in Hall. apply Hall. exact Hz.
Qed.

Lemma sort_by_ordered (xs : list A) : StronglySorted R (sort_by le xs).
Proof.
  unfold sort_by. induction xs as [|x rest IH]; cbn [fold_right].
  - constructor.
  - apply insert_by_ordered. exact IH.
Qed.

Lemma insert_by_permutation (x : A) (xs : list A) :
  Permutation.Permutation (insert_by le x xs) (x :: xs).
Proof.
  induction xs as [|y rest IH]; cbn [insert_by]; [reflexivity|].
  destruct (le x y); [reflexivity|].
  etransitivity; [apply Permutation.perm_skip; exact IH | apply Permutation.perm_swap].
Qed.

Lemma sort_by_permutation (xs : list A) :
  Permutation.Permutation (sort_by le xs) xs.
Proof.
  unfold sort_by. induction xs as [|x rest IH]; cbn [fold_right]; [reflexivity|].
  etransitivity; [apply insert_by_permutation | apply Permutation.perm_skip; exact IH].
Qed.

End OrderedBy.

Section KeptRecords.

Lemma same_id_same_row (table : list SyncStatus.t) (a b : SyncStatus.t) :
  List.NoDup (map SyncStatus.id table) ->
  In a table -> In b table -> SyncStatus.id a = SyncStatus.id b -> a = b.
Proof.
  induction table as [|r rest IH]; intros Hnodup Ha Hb Hid; [destruct Ha|].
  cbn [map] in Hnodup. apply List.NoDup_cons_iff in Hnodup. destruct Hnodup as [Hfresh Hnodup].
  destruct Ha as [->|Ha], Hb as [->|Hb].
  - reflexivity.
  - exfalso. apply Hfresh. rewrite Hid. apply in_map. exact Hb.
  - exfalso. apply Hfresh. rewrite <- Hid. apply in_map. exact Ha.
  - apply IH; assumption.
Qed.

Lemma rows_distinct (table : list SyncStatus.t) :
  List.NoDup (map SyncStatus.id table) -> List.NoDup table.
Proof.
  induction table as [|r rest IH]; intros Hnodup; [apply List.NoDup_nil|].
  cbn [map] in Hnodup. apply List.NoDup_cons_iff in Hnodup. destruct Hnodup as [Hfresh Hnodup].
  apply List.NoDup_cons; [|apply IH; exact Hnodup].
  intros Hin. apply Hfresh. apply in_map. exact Hin.
Qed.

Lemma take_distinct {A} (n : nat) (xs : list A) : List.NoDup xs -> List.NoDup (take n xs).
Proof.
  intros Hnodup. rewrite <- (firstn_skipn n xs) in Hnodup.
  apply List.NoDup_app_remove_r in Hnodup. exact Hnodup.
Qed.

Lemma filter_distinct {A} (f : A -> bool) (xs : list A) :
  List.NoDup xs -> List.NoDup (List.filter f xs).
Proof.
  induction 1 as [|x rest Hfresh Hnodup IH]; cbn [List.filter]; [apply List.NoDup_nil|].
  destruct (f x); [|exact IH].
  apply List.NoDup_cons; [|exact IH].
  intros Hin. apply filter_In in Hin. apply Hfresh. apply Hin.
Qed.

Lemma filter_all {A} (f : A -> bool) (xs : list A) :
  (forall x, In x xs -> f x = true) -> List.filter f xs = xs.
Proof.
  induction xs as [|x rest IH]; intros Hall; [reflexivity|].
  cbn [List.filter]. rewrite (Hall x (or_introl eq_refl)). f_equal.
  apply IH. intros y Hy. apply Hall. right. exact Hy.
Qed.

Lemma recordsToKeep_In (table : list SyncStatus.t) (r : SyncStatus.t) :
  In r (Cleanup.recordsToKeep table) -> In r table.
Proof.
  unfold Cleanup.recordsToKeep. intros Hin.
  apply In_take in Hin. apply sort_by_In in Hin. exact Hin.
Qed.

Lemma recordsToKeep_length (table : list SyncStatus.t) :
  length (Cleanup.recordsToKeep table) = Nat.min 100 (length table).
Proof.
  unfold Cleanup.recordsToKeep. rewrite length_firstn, sort_by_length. reflexivity.
Qed.

Lemma kept_In (table : list SyncStatus.t) (r : SyncStatus.t) :
  List.NoDup (map SyncStatus.id table) ->
  In r (Cleanup.kept (map SyncStatus.id (Cleanup.recordsToKeep table)) table)
  <-> In r (Cleanup.recordsToKeep table).
Proof.
  intros Hnodup. unfold Cleanup.kept. rewrite filter_In, existsb_exists. split.
  - intros [Hin [id [Hid Heq]]]. apply Z.eqb_eq in Heq. subst id.
    apply in_map_iff in Hid. destruct Hid as [k [Hk Hkeep]].
    rewrite (same_id_same_row table r k Hnodup Hin (recordsToKeep_In _ _ Hkeep)
               (eq_sym Hk)).
    exact Hkeep.
  - intros Hkeep. split; [apply recordsToKeep_In; exact Hkeep|].
    exists (SyncStatus.id r). split; [apply in_map; exact Hkeep | apply Z.eqb_refl].
Qed.

Lemma cleanup_run (s : Store) :
  Cleanup.cleanupSyncRecords None None s
  = match Cleanup.recordsToKeep (sync_status s) with
    | [] => (Ok tt, s)
    | keep =>
        (Ok tt, with_sync_status
                  (Cleanup.kept (map SyncStatus.id keep) (sync_status s)) s)
    end.
Proof.
  unfold Cleanup.cleanupSyncRecords, bind, gets, modify, ret.
  destruct (Cleanup.recordsToKeep (sync_status s)); reflexivity.
Qed.

Lemma cleanup_left (s : Store) :
  List.NoDup (map SyncStatus.id (sync_status s)) ->
  fst (Cleanup.cleanupSyncRecords None None s) = Ok tt
  /\ forall r, In r (sync_status (snd (Cleanup.cleanupSyncRecords None None s)))
               <-> In r (Cleanup.recordsToKeep (sync_status s)).
Proof.
  intros Hnodup. rewrite cleanup_run.
  destruct (Cleanup.recordsToKeep (sync_status s)) as [|k keep] eqn:Hkeep.
  - split; [reflexivity|]. intros r. cbn [snd]. split; [|intros []].
    pose proof (recordsToKeep_length (sync_status s)) as Hlen.
    rewrite Hkeep in Hlen. destruct (sync_status s); [intros [] | discriminate Hlen].
  - split; [reflexivity|]. intros r. cbn [snd sync_status with_sync_status].
    rewrite <- Hkeep. apply kept_In. exact Hnodup.
Qed.

End KeptRecords.

(** X24. [cleanupSyncRecords] on a table whose ids are unique keeps the 100
    most recently started records and nothing else: 100 rows, or all of
    them when there are fewer; every row it deletes started no later than
    every row it keeps; a table of at most 100 rows is left as it is. A
    refused select or delete leaves the store untouched. *)
Theorem cleanupSyncRecords_keeps_most_recent (s : Store) :
  List.NoDup (map SyncStatus.id (sync_status s)) ->
  let result := Cleanup.cleanupSyncRecords None None s in
  let remaining := sync_status (snd result) in
  fst result = Ok tt
  /\ length remaining = Nat.min 100 (length (sync_status s))
  /\ (forall r, In r remaining -> In r (sync_status s))
  /\ (forall r k,
        In r (sync_status s) -> ~ In r remaining -> In k remaining ->
        instant (SyncStatus.started_at r) <= instant (SyncStatus.started_at k))
  /\ ((length (sync_status s) <= 100)%nat -> remaining = sync_status s)
  /\ (forall fetchError deleteError,
        is_ok (fst (Cleanup.cleanupSyncRecords fetchError deleteError s)) = false ->
        snd (Cleanup.cleanupSyncRecords fetchError deleteError s) = s).
Proof.
  intros Hnodup. cbv zeta.
  destruct (cleanup_left s Hnodup) as [Hok Hleft].
  set (by_start := fun a b : SyncStatus.t =>
                     (instant (SyncStatus.started_at b)
                      <=? instant (SyncStatus.started_at a))%Z).
  set (later := fun a b : SyncStatus.t =>
                  instant (SyncStatus.started_at b) <= instant (SyncStatus.started_at a)).
  assert (Hsorted : StronglySorted later (sort_by by_start (sync_status s))).
  { apply sort_by_ordered; unfold by_start, later.
    - intros a b H. apply Z.leb_le in H. exact H.
    - intros a b H. apply Z.leb_gt in H. lia.
    - intros a b c Hab Hbc. lia. }
  split; [exact Hok|]. split; [|split; [|split; [|split]]].
  - rewrite <- recordsToKeep_length.
    apply Permutation.Permutation_length. apply Permutation.NoDup_Permutation.
    + rewrite cleanup_run.
      destruct (Cleanup.recordsToKeep (sync_status s)); cbn [snd];
        [apply rows_distinct; exact Hnodup|].
      cbn [sync_status with_sync_status]. apply filter_distinct, rows_distinct. exact Hnodup.
    + unfold Cleanup.recordsToKeep. apply take_distinct.
      eapply Permutation.Permutation_NoDup;
        [symmetry; apply sort_by_permutation | apply rows_distinct; exact Hnodup].
    + exact Hleft.
  - intros r Hr. apply Hleft in Hr. apply recordsToKeep_In. exact Hr.
  - intros r k Hr Hgone Hk. apply Hleft in Hk.
    assert (Hdropped : In r (drop 100 (sort_by by_start (sync_status s)))).
    { assert (Hin : In r (sort_by by_start (sync_status s))) by (apply sort_by_In; exact Hr).
      rewrite <- (firstn_skipn 100) in Hin. apply in_app_or in Hin.
      destruct Hin as [Hin|Hin]; [|exact Hin].
      exfalso. apply Hgone. apply Hleft. exact Hin. }
    rewrite <- (firstn_skipn 100 (sort_by by_start (sync_status s))) in Hsorted.
    exact (sorted_app_le later _ _ Hsorted k r Hk Hdropped).
  - intros Hshort. rewrite cleanup_run.
    assert (Hall : Cleanup.recordsToKeep (sync_status s)
                   = sort_by by_start (sync_status s)).
    { unfold Cleanup.recordsToKeep. apply firstn_all2. rewrite sort_by_length. exact Hshort. }
    destruct (Cleanup.recordsToKeep (sync_status s)) as [|k keep] eqn:Hkeep; [reflexivity|].
    cbn [snd sync_status with_sync_status]. unfold Cleanup.kept. apply filter_all.
    intros r Hr. apply existsb_exists. exists (SyncStatus.id r).
    split; [|apply Z.eqb_refl]. apply in_map. rewrite Hall. apply sort_by_In. exact Hr.
  - intros fetchError deleteError.
    unfold Cleanup.cleanupSyncRecords, bind, gets, modify, throw, ret.
    destruct fetchError; [reflexivity|].
    destruct (Cleanup.recordsToKeep (sync_status s)); [intros H; discriminate H|].
    destruct deleteError; [reflexivity | intros H; discriminate H].
Qed.

Lemma cleanupSyncRecords_keeps_most_recent_witness :
  sync_status (snd (Cleanup.cleanupSyncRecords None None Samples.stuck_store))
  = sync_status Samples.stuck_store.
Proof.
  apply (cleanupSyncRecords_keeps_most_recent Samples.stuck_store).
  - simpl. apply List.NoDup_cons; [simpl; tauto | apply List.NoDup_nil].
  - simpl. lia.
Defined.
